(** * Minimal AI Workflow: the e-mail extractor and the quote engine

    A shallow embedding of [src/workflow/parser.py] (class [EmailParser]) and
    [src/workflow/quote.py] (class [QuoteGenerator]), with the default tables of
    [src/main.py], and the properties of the specification checked against them.

    - A Python [str] is a sequence of Unicode code points: [list N].
    - A Python [float] is an IEEE-754 binary64 value: [spec_float] with the
      Standard Library's executable operations at precision 53.
    - [None] is [option]'s [None]; a dict read with [.get(key, default)] keeps
      the difference between a missing key and a key bound to [None].
    - The [re] module is a backtracking matcher over a pattern syntax tree. *)

From Stdlib Require Import String Ascii.
From Stdlib Require Import ZArith NArith List Bool Lia.
From Stdlib Require Import SpecFloat.
Import ListNotations.

Set Implicit Arguments.

(* ================================================================== *)
(** * Python values *)

(** ** Strings *)

Definition char := N.
Definition str := list char.

Definition chr (a : ascii) : char := N_of_ascii a.

Fixpoint lit (s : string) : str :=
  match s with
  | EmptyString => []
  | String a s' => chr a :: lit s'
  end.

Fixpoint str_eqb (a b : str) : bool :=
  match a, b with
  | [], [] => true
  | x :: a', y :: b' => N.eqb x y && str_eqb a' b'
  | _, _ => false
  end.

(** [x in xs] for a list of strings. *)
Definition str_in (x : str) (xs : list str) : bool := existsb (str_eqb x) xs.

(** [sep.join(parts)] *)
Fixpoint join (sep : str) (parts : list str) : str :=
  match parts with
  | [] => []
  | [p] => p
  | p :: rest => p ++ sep ++ join sep rest
  end.

(** ** Floats *)

Module F64.

Definition prec : Z := 53.
Definition emax : Z := 1024.

Definition float := spec_float.

Definition add : float -> float -> float := SFadd prec emax.
Definition sub : float -> float -> float := SFsub prec emax.
Definition mul : float -> float -> float := SFmul prec emax.
Definition leb : float -> float -> bool := SFleb.
Definition ltb : float -> float -> bool := SFltb.
Definition eqb : float -> float -> bool := SFeqb.

Definition zero : float := S754_zero false.
Definition inf : float := S754_infinity false.

(** The binary64 value nearest to [p/q] (ties to even), as the reader of
    decimal literals and [float()] produce it: the significands enter the
    library's division as exact integers. *)
Definition of_ratio (neg : bool) (p q : positive) : float :=
  SFdiv prec emax (S754_finite neg p 0) (S754_finite false q 0).

Definition pow10 (k : nat) : positive := Nat.iter k (Pos.mul 10) 1%positive.

(** The binary64 value nearest to [n / 10^k]: the decimal literal whose
    digits are [n], with [k] of them after the point. *)
Definition dec (n : N) (k : nat) : float :=
  match n with
  | N0 => zero
  | Npos p => of_ratio false p (pow10 k)
  end.

(** [min(a, b)] of Python: [b] when [b < a], else [a]. *)
Definition min (a b : float) : float := if ltb b a then b else a.

(** The integer nearest to [m * 2^e], ties to even. *)
Definition rne (m : Z) (e : Z) : Z :=
  match e with
  | Z0 => m
  | Zpos _ => Z.shiftl m e
  | Zneg p =>
      let d := Z.pow 2 (Zpos p) in
      let q := Z.div m d in
      let r := Z.modulo m d in
      match Z.compare (2 * r) d with
      | Lt => q
      | Gt => q + 1
      | Eq => if Z.even q then q else q + 1
      end
  end%Z.

(** [round(x, ndigits)] for [ndigits >= 0]: the decimal with [ndigits] places
    nearest to the exact value of [x] (ties to even), read back as a float.
    Infinities and NaN round to themselves. *)
Definition round (x : float) (ndigits : nat) : float :=
  match x with
  | S754_finite s m e =>
      let scale := pow10 ndigits in
      match rne (Zpos (m * scale)) e with
      | Zpos n => of_ratio s n scale
      | _ => S754_zero s
      end
  | _ => x
  end.

End F64.

Abbreviation float := F64.float.

(** ** The character database

    [str.isspace] is a short list and is written out, and so is the ASCII
    part of the other tables that the program consults through [str] and
    [re].  Beyond ASCII these tables are those of the interpreter's Unicode
    database; they are taken as given, as a record [ucd] of functions, and
    the general statements hold for every such record. *)

Definition isspace (c : char) : bool :=
  ((9 <=? c) && (c <=? 13) || (28 <=? c) && (c <=? 32) || (c =? 133) ||
   (c =? 160) || (c =? 5760) || (8192 <=? c) && (c <=? 8202) || (c =? 8232) ||
   (c =? 8233) || (c =? 8239) || (c =? 8287) || (c =? 12288))%N.

Record ucd : Type := {
  (** [str.isalnum] on one character beyond ASCII *)
  uc_isalnum : char -> bool;
  (** the value of a decimal digit (category Nd) beyond ASCII, [None] for
      any other character *)
  uc_decimal : char -> option N;
  (** [str.lower] and [str.upper] *)
  uc_lower : str -> str;
  uc_upper : str -> str;
  (** a literal pattern character beyond ASCII against a subject character
      under [re.IGNORECASE] *)
  uc_ci : char -> char -> bool
}.

Definition is_ascii (c : char) : bool := (c <? 128)%N.
Definition is_upper (c : char) : bool := ((65 <=? c) && (c <=? 90))%N.
Definition is_lower (c : char) : bool := ((97 <=? c) && (c <=? 122))%N.
Definition is_digit (c : char) : bool := ((48 <=? c) && (c <=? 57))%N.

(** [\w]: a letter, a digit or the underscore. *)
Definition isword (U : ucd) (c : char) : bool :=
  if is_ascii c then is_upper c || is_lower c || is_digit c || (c =? 95)%N
  else uc_isalnum U c.

(** The value of a decimal digit; [\d] is a character that has one. *)
Definition decimal (U : ucd) (c : char) : option N :=
  if is_ascii c then (if is_digit c then Some (c - 48)%N else None)
  else uc_decimal U c.

Definition isdecimal (U : ucd) (c : char) : bool :=
  match decimal U c with Some _ => true | None => false end.

(** A literal ASCII pattern character against a subject character under
    [re.IGNORECASE]: a letter matches its two cases, and [i], [k] and [s] also
    the dotted and dotless I (U+0130, U+0131), the Kelvin sign (U+212A) and
    the long s (U+017F); any other character matches itself alone. *)
Definition ascii_ci (p x : char) : bool :=
  (let lo := if is_upper p then p + 32 else p in
   if is_lower lo then
     (x =? lo) || (x =? lo - 32) ||
     (lo =? 105) && ((x =? 304) || (x =? 305)) ||
     (lo =? 107) && (x =? 8490) ||
     (lo =? 115) && (x =? 383)
   else x =? p)%N.

Definition ci_match (U : ucd) (p x : char) : bool :=
  if is_ascii p then ascii_ci p x else uc_ci U p x.

(** ** String methods *)

Fixpoint lstrip (s : str) : str :=
  match s with
  | c :: s' => if isspace c then lstrip s' else s
  | [] => []
  end.

Definition rstrip (s : str) : str := rev (lstrip (rev s)).

(** [s.strip()] *)
Definition strip (s : str) : str := rstrip (lstrip s).

(** [s.startswith(c)] for a one-character prefix *)
Definition startswith (c : char) (s : str) : bool :=
  match s with
  | x :: _ => (x =? c)%N
  | [] => false
  end.

Definition NL : char := 10%N.   (* '\n' *)
Definition DOT : char := 46%N.  (* '.' *)
Definition GT : char := 62%N.   (* '>' *)
Definition BAR : char := 124%N. (* '|' *)

(** [s.split('\n')], with the line being read carried in [cur] *)
Fixpoint split_lines_from (cur : str) (s : str) : list str :=
  match s with
  | [] => [rev cur]
  | c :: s' =>
      if (c =? NL)%N then rev cur :: split_lines_from [] s'
      else split_lines_from (c :: cur) s'
  end.

Definition split_lines (s : str) : list str := split_lines_from [] s.

(** [s[a:b]] for [0 <= a] *)
Definition slice (s : str) (a b : nat) : str := firstn (b - a) (skipn a s).

(** [float(s)] on the spellings the quantity pattern can capture: decimal
    digits with an optional point followed by digits.  [None] stands for any
    other spelling, which the parser never passes to [float]. *)
Fixpoint digits_value (U : ucd) (acc : N) (s : str) : option N :=
  match s with
  | [] => Some acc
  | c :: s' =>
      match decimal U c with
      | Some d => digits_value U (acc * 10 + d)%N s'
      | None => None
      end
  end.

Fixpoint split_point (s : str) : str * option str :=
  match s with
  | [] => ([], None)
  | c :: s' =>
      if (c =? DOT)%N then ([], Some s')
      else let '(a, b) := split_point s' in (c :: a, b)
  end.

Definition py_float (U : ucd) (s : str) : option float :=
  let '(ip, rest) := split_point s in
  match ip, rest with
  | [], _ => None
  | _ :: _, None =>
      match digits_value U 0 ip with
      | Some n => Some (F64.dec n 0)
      | None => None
      end
  | _ :: _, Some [] => None
  | _ :: _, Some ((_ :: _) as fp) =>
      match digits_value U 0 (ip ++ fp) with
      | Some n => Some (F64.dec n (length fp))
      | None => None
      end
  end.

(* ================================================================== *)
(** * The [re] module

    Patterns are syntax trees; matching is the backtracking search of the
    interpreter: alternatives in order, greedy repetition that gives back one
    character at a time, the leftmost start position first.  Every pattern of
    the program is compiled with [re.IGNORECASE], and those that use [.] also
    with [re.DOTALL]; the matcher has both flags built in. *)

Module Re.

Inductive cls : Type :=
| CLit (c : char)   (** a literal character *)
| CDigit            (** [\d] *)
| CSpace            (** [\s] *)
| CAny.             (** [.] *)

Inductive re : Type :=
| Eps
| Chr (c : cls)
| Seq (a b : re)
| Alt (a b : re)    (** [a|b] *)
| Star (c : cls)    (** [c*] *)
| WordB             (** [\b] *)
| Group (r : re).   (** [(r)] *)

(** [r?], [c+] and a literal string *)
Definition Opt (r : re) : re := Alt r Eps.
Definition Plus (c : cls) : re := Seq (Chr c) (Star c).
Fixpoint Lits (s : str) : re :=
  match s with
  | [] => Eps
  | c :: s' => Seq (Chr (CLit c)) (Lits s')
  end.

Fixpoint has_group (r : re) : bool :=
  match r with
  | Group _ => true
  | Seq a b | Alt a b => has_group a || has_group b
  | _ => false
  end.

(** The matcher's position in the subject: the character before it, the
    text from it on, its index, and the span of the group if it is set. *)
Record state : Type := {
  prev : option char;
  rest : str;
  pos : nat;
  grp : option (nat * nat)
}.

(** A match object: [m.start()], [m.end()], [m.span(1)]. *)
Record rmatch : Type := {
  m_start : nat;
  m_end : nat;
  m_group : option (nat * nat)
}.

Section Engine.

Variable U : ucd.

Definition cls_match (c : cls) (x : char) : bool :=
  match c with
  | CLit p => ci_match U p x
  | CDigit => isdecimal U x
  | CSpace => isspace x
  | CAny => true
  end.

Definition isword_opt (c : option char) : bool :=
  match c with Some x => isword U x | None => false end.

Definition at_boundary (st : state) : bool :=
  xorb (isword_opt (prev st)) (isword_opt (hd_error (rest st))).

Definition mk (p : option char) (r : str) (n : nat) (g : option (nat * nat)) :=
  {| prev := p; rest := r; pos := n; grp := g |}.

(** [c*]: as many characters as possible, then one fewer, ... *)
Fixpoint star (A : Type) (c : cls) (p : option char) (r : str) (n : nat)
    (g : option (nat * nat)) (k : state -> option A) {struct r} : option A :=
  match r with
  | x :: r' =>
      if cls_match c x then
        match star c (Some x) r' (S n) g k with
        | Some v => Some v
        | None => k (mk p r n g)
        end
      else k (mk p r n g)
  | [] => k (mk p r n g)
  end.

Fixpoint run (A : Type) (r : re) (st : state) (k : state -> option A)
    {struct r} : option A :=
  match r with
  | Eps => k st
  | Chr c =>
      match rest st with
      | x :: r' =>
          if cls_match c x then k (mk (Some x) r' (S (pos st)) (grp st))
          else None
      | [] => None
      end
  | Seq a b => run a st (fun st' => run b st' k)
  | Alt a b =>
      match run a st k with
      | Some v => Some v
      | None => run b st k
      end
  | Star c => star c (prev st) (rest st) (pos st) (grp st) k
  | WordB => if at_boundary st then k st else None
  | Group r' =>
      run r' st (fun st' =>
        k (mk (prev st') (rest st') (pos st') (Some (pos st, pos st'))))
  end.

(** One attempt at one start position.  [must_advance] refuses the empty
    match: it is set for the attempt that follows an empty match. *)
Definition match_at (r : re) (must_advance : bool) (p : option char)
    (s : str) (n : nat) : option rmatch :=
  run r (mk p s n None) (fun st' =>
    if must_advance && (pos st' =? n) then None
    else Some {| m_start := n; m_end := pos st'; m_group := grp st' |}).

(** [pattern.search]: the first start position with a match. *)
Fixpoint search_from (r : re) (p : option char) (s : str) (n : nat)
    : option rmatch :=
  match match_at r false p s n with
  | Some m => Some m
  | None =>
      match s with
      | x :: s' => search_from r (Some x) s' (S n)
      | [] => None
      end
  end.

Definition search (r : re) (s : str) : option rmatch := search_from r None s 0.

(** [pattern.finditer]: successive searches, each from the end of the
    match before; [skip] counts the characters of the last match still to
    be passed. *)
Fixpoint scan (r : re) (p : option char) (s : str) (n : nat) (skip : nat)
    {struct s} : list rmatch :=
  let step :=
    match s with
    | x :: s' => scan r (Some x) s' (S n)
    | [] => fun _ => []
    end in
  match skip with
  | S j => step j
  | O =>
      match match_at r false p s n with
      | None => step 0
      | Some m =>
          if m_end m =? n then
            m :: match match_at r true p s n with
                 | None => step 0
                 | Some m' => m' :: step (m_end m' - n - 1)
                 end
          else m :: step (m_end m - n - 1)
      end
  end.

Definition finditer (r : re) (s : str) : list rmatch := scan r None s 0 0.

Definition group0 (s : str) (m : rmatch) : str := slice s (m_start m) (m_end m).
Definition group1 (s : str) (m : rmatch) : str :=
  match m_group m with
  | Some (a, b) => slice s a b
  | None => []
  end.

(** [pattern.findall]: the group's text when the pattern has a group, the
    whole match otherwise. *)
Definition findall (r : re) (s : str) : list str :=
  map (if has_group r then group1 s else group0 s) (finditer r s).

(** [re.sub(pattern, '', s)]: what lies between the matches. *)
Fixpoint between (s : str) (cur : nat) (ms : list rmatch) : str :=
  match ms with
  | [] => skipn cur s
  | m :: ms' => slice s cur (m_start m) ++ between s (m_end m) ms'
  end.

Definition sub_empty (r : re) (s : str) : str := between s 0 (finditer r s).

End Engine.

End Re.

(** ** Patterns with character sets and lazy repetition

    The patterns of [_extract_sender] use bracketed sets, [{2,}] and the lazy
    [+?]; they are matched by the same search over a second syntax.  A set is
    a list of ranges, negated or not, and is compared without regard to the
    case flag: the one pattern with letters in its sets is compiled without
    [re.IGNORECASE], and the sets of the others hold no letter. *)

Module Rx.

Import Re.

Inductive atom : Type :=
| ACls (c : cls)                                  (** as in [Re] *)
| ASet (negated : bool) (ranges : list (char * char)).   (** [[...]], [[^...]] *)

Inductive rx : Type :=
| XEps
| XChr (a : atom)
| XSeq (a b : rx)
| XStar (a : atom)       (** [a*] *)
| XLazyStar (a : atom)   (** [a*?] *)
| XWordB
| XGroup (r : rx).

(** [a+], [a+?], [a{2,}] and a literal string *)
Definition XPlus (a : atom) : rx := XSeq (XChr a) (XStar a).
Definition XLazyPlus (a : atom) : rx := XSeq (XChr a) (XLazyStar a).
Definition XTwoOrMore (a : atom) : rx := XSeq (XChr a) (XSeq (XChr a) (XStar a)).
Fixpoint XLits (s : str) : rx :=
  match s with
  | [] => XEps
  | c :: s' => XSeq (XChr (ACls (CLit c))) (XLits s')
  end.

Fixpoint has_group (r : rx) : bool :=
  match r with
  | XGroup _ => true
  | XSeq a b => has_group a || has_group b
  | _ => false
  end.

Section Engine.

Variable U : ucd.

Definition in_ranges (ranges : list (char * char)) (x : char) : bool :=
  existsb (fun r => (fst r <=? x)%N && (x <=? snd r)%N) ranges.

Definition atom_match (a : atom) (x : char) : bool :=
  match a with
  | ACls c => cls_match U c x
  | ASet negated ranges => xorb negated (in_ranges ranges x)
  end.

Fixpoint star (A : Type) (a : atom) (p : option char) (r : str) (n : nat)
    (g : option (nat * nat)) (k : state -> option A) {struct r} : option A :=
  match r with
  | x :: r' =>
      if atom_match a x then
        match star a (Some x) r' (S n) g k with
        | Some v => Some v
        | None => k (mk p r n g)
        end
      else k (mk p r n g)
  | [] => k (mk p r n g)
  end.

(** [a*?]: as few characters as possible, then one more, ... *)
Fixpoint lazy_star (A : Type) (a : atom) (p : option char) (r : str) (n : nat)
    (g : option (nat * nat)) (k : state -> option A) {struct r} : option A :=
  match k (mk p r n g) with
  | Some v => Some v
  | None =>
      match r with
      | x :: r' =>
          if atom_match a x then lazy_star a (Some x) r' (S n) g k else None
      | [] => None
      end
  end.

Fixpoint run (A : Type) (r : rx) (st : state) (k : state -> option A)
    {struct r} : option A :=
  match r with
  | XEps => k st
  | XChr a =>
      match rest st with
      | x :: r' =>
          if atom_match a x then k (mk (Some x) r' (S (pos st)) (grp st))
          else None
      | [] => None
      end
  | XSeq a b => run a st (fun st' => run b st' k)
  | XStar a => star a (prev st) (rest st) (pos st) (grp st) k
  | XLazyStar a => lazy_star a (prev st) (rest st) (pos st) (grp st) k
  | XWordB => if at_boundary U st then k st else None
  | XGroup r' =>
      run r' st (fun st' =>
        k (mk (prev st') (rest st') (pos st') (Some (pos st, pos st'))))
  end.

Definition match_at (r : rx) (must_advance : bool) (p : option char)
    (s : str) (n : nat) : option rmatch :=
  run r (mk p s n None) (fun st' =>
    if must_advance && (pos st' =? n) then None
    else Some {| m_start := n; m_end := pos st'; m_group := grp st' |}).

Fixpoint search_from (r : rx) (p : option char) (s : str) (n : nat)
    : option rmatch :=
  match match_at r false p s n with
  | Some m => Some m
  | None =>
      match s with
      | x :: s' => search_from r (Some x) s' (S n)
      | [] => None
      end
  end.

Definition search (r : rx) (s : str) : option rmatch := search_from r None s 0.

Fixpoint scan (r : rx) (p : option char) (s : str) (n : nat) (skip : nat)
    {struct s} : list rmatch :=
  let step :=
    match s with
    | x :: s' => scan r (Some x) s' (S n)
    | [] => fun _ => []
    end in
  match skip with
  | S j => step j
  | O =>
      match match_at r false p s n with
      | None => step 0
      | Some m =>
          if m_end m =? n then
            m :: match match_at r true p s n with
                 | None => step 0
                 | Some m' => m' :: step (m_end m' - n - 1)
                 end
          else m :: step (m_end m - n - 1)
      end
  end.

Definition finditer (r : rx) (s : str) : list rmatch := scan r None s 0 0.

Definition findall (r : rx) (s : str) : list str :=
  map (if has_group r then group1 s else group0 s) (finditer r s).

End Engine.

End Rx.

(* ================================================================== *)
(** * Records shared by the two components *)

(** An entry of the price list: [{"price": ..., "unit": ...}]; the unit may
    be missing. *)
Record price_info : Type := {
  price : float;
  pi_unit : option str
}.

(** The price list is a dict in insertion order: its keys are the product
    names, scanned in that order by the parser. *)
Definition price_list_t : Type := list (str * price_info).

Fixpoint lookup (name : str) (pl : price_list_t) : option price_info :=
  match pl with
  | [] => None
  | (k, v) :: pl' => if str_eqb name k then Some v else lookup name pl'
  end.

(** [name in price_list] *)
Definition in_price_list (name : str) (pl : price_list_t) : bool :=
  match lookup name pl with Some _ => true | None => false end.

(** A product mention of a parsed event. *)
Record product : Type := {
  name : str;
  quantity : option float;
  unit : option str;
  confidence : float;
  notes : str
}.

Record sender_t : Type := {
  sender_name : str;
  sender_email : str;
  sender_confidence : float
}.

(** Sequencing of calls that may raise. *)
Definition bind (A B : Type) (x : option A) (f : A -> option B) : option B :=
  match x with
  | Some a => f a
  | None => None
  end.

Notation "x <- e ;; k" := (bind e (fun x => k))
  (at level 61, e at next level, right associativity).

(* ================================================================== *)
(** * [workflow/parser.py]: class [EmailParser] *)

Module EmailParser.

Import Re.

(** [\b(USD|EUR|GBP|CAD|AUD|JPY)\b] *)
Definition currency_pattern : re :=
  Seq WordB (Seq (Group
    (Alt (Lits (lit "USD")) (Alt (Lits (lit "EUR")) (Alt (Lits (lit "GBP"))
    (Alt (Lits (lit "CAD")) (Alt (Lits (lit "AUD")) (Lits (lit "JPY"))))))))
    WordB).

(** [\b(asap|urgent|rush|immediate|quick|fast)\b] *)
Definition urgency_pattern : re :=
  Seq WordB (Seq (Group
    (Alt (Lits (lit "asap")) (Alt (Lits (lit "urgent")) (Alt (Lits (lit "rush"))
    (Alt (Lits (lit "immediate")) (Alt (Lits (lit "quick")) (Lits (lit "fast"))))))))
    WordB).

(** [\d+(?:\.\d+)?] *)
Definition number_pattern : re :=
  Seq (Plus CDigit) (Opt (Seq (Chr (CLit DOT)) (Plus CDigit))).

(** [pcs?|pieces?|units?|kits?|packs?|boxes?|sets?] *)
Definition unit_words_pattern : re :=
  Alt (Seq (Lits (lit "pc")) (Opt (Lits (lit "s"))))
 (Alt (Seq (Lits (lit "piece")) (Opt (Lits (lit "s"))))
 (Alt (Seq (Lits (lit "unit")) (Opt (Lits (lit "s"))))
 (Alt (Seq (Lits (lit "kit")) (Opt (Lits (lit "s"))))
 (Alt (Seq (Lits (lit "pack")) (Opt (Lits (lit "s"))))
 (Alt (Seq (Lits (lit "boxe")) (Opt (Lits (lit "s"))))
      (Seq (Lits (lit "set")) (Opt (Lits (lit "s"))))))))).

(** [\b(\d+(?:\.\d+)?)\s*(?:pcs?|pieces?|units?|kits?|packs?|boxes?|sets?)?\b] *)
Definition quantity_pattern : re :=
  Seq WordB (Seq (Group number_pattern)
    (Seq (Star CSpace) (Seq (Opt unit_words_pattern) WordB))).

(** The patterns of [_clean_content]:
    [--\s*\n.*], [Best regards,.*], [Sincerely,.*], [Thank you,.*], [Regards,.*] *)
Definition signature_patterns : list re :=
  [ Seq (Lits (lit "--")) (Seq (Star CSpace) (Seq (Chr (CLit NL)) (Star CAny)));
    Seq (Lits (lit "Best regards,")) (Star CAny);
    Seq (Lits (lit "Sincerely,")) (Star CAny);
    Seq (Lits (lit "Thank you,")) (Star CAny);
    Seq (Lits (lit "Regards,")) (Star CAny) ].

(** The table of [_extract_unit] *)
Definition unit_patterns : list (re * str) :=
  [ (Alt (Seq (Lits (lit "pc")) (Opt (Lits (lit "s"))))
         (Seq (Lits (lit "piece")) (Opt (Lits (lit "s")))), lit "piece");
    (Seq (Lits (lit "kit")) (Opt (Lits (lit "s"))), lit "kit");
    (Seq (Lits (lit "pack")) (Opt (Lits (lit "s"))), lit "pack");
    (Seq (Lits (lit "boxe")) (Opt (Lits (lit "s"))), lit "box");
    (Seq (Lits (lit "set")) (Opt (Lits (lit "s"))), lit "set");
    (Seq (Lits (lit "unit")) (Opt (Lits (lit "s"))), lit "unit") ].

Definition high_urgency : list str :=
  [lit "asap"; lit "urgent"; lit "rush"; lit "immediate"].
Definition medium_urgency : list str := [lit "quick"; lit "fast"].

Section Parser.

Variable U : ucd.
Variable price_list : price_list_t.

Definition product_names : list str := map fst price_list.

Definition is_quoted (line : str) : bool :=
  startswith GT (strip line) || startswith BAR (strip line).

Definition _clean_content (content : str) : str :=
  let lines := split_lines content in
  let clean_lines := filter (fun line => negb (is_quoted line)) lines in
  let content := join [NL] clean_lines in
  let content :=
    fold_left (fun content pattern => sub_empty U pattern content)
              signature_patterns content in
  strip content.

Fixpoint _extract_unit_from (table : list (re * str)) (text : str)
    : option str :=
  match table with
  | [] => None
  | (pattern, u) :: table' =>
      match search U pattern text with
      | Some _ => Some u
      | None => _extract_unit_from table' text
      end
  end.

Definition _extract_unit (text : str) (quantity : str) : option str :=
  _extract_unit_from unit_patterns text.

Definition _extract_quantity_near_position (text : str) (position : nat)
    : option (option float * option str) :=
  let before_text := slice text (position - 50) position in
  let after_text := slice text position (position + 50) in
  let before_quantities := findall U quantity_pattern before_text in
  match rev before_quantities with
  | q :: _ =>
      quantity <- py_float U q ;;
      Some (Some quantity, _extract_unit before_text q)
  | [] =>
      let after_quantities := findall U quantity_pattern after_text in
      match after_quantities with
      | q :: _ =>
          quantity <- py_float U q ;;
          Some (Some quantity, _extract_unit after_text q)
      | [] => Some (None, None)
      end
  end.

(** The inner loop of [_find_products_in_line]: one entry per match of
    the product name. *)
Fixpoint near_matches (line : str) (product_name : str) (matches : list rmatch)
    : option (list (str * option float * option str)) :=
  match matches with
  | [] => Some []
  | m :: matches' =>
      qu <- _extract_quantity_near_position line (m_start m) ;;
      found <- near_matches line product_name matches' ;;
      Some ((product_name, fst qu, snd qu) :: found)
  end.

Fixpoint _find_products_among (names : list str) (line : str)
    : option (list (str * option float * option str)) :=
  match names with
  | [] => Some []
  | product_name :: names' =>
      let pattern := Lits product_name in   (* re.escape(product_name) *)
      let matches := finditer U pattern line in
      here <- near_matches line product_name matches ;;
      found <- _find_products_among names' line ;;
      Some (here ++ found)
  end.

Definition _find_products_in_line (line : str)
    : option (list (str * option float * option str)) :=
  _find_products_among product_names line.

Definition c0_5 : float := F64.dec 5 1.
Definition c0_3 : float := F64.dec 3 1.
Definition c0_2 : float := F64.dec 2 1.
Definition c0_1 : float := F64.dec 1 1.
Definition c1_0 : float := F64.dec 10 1.
Definition c0_6 : float := F64.dec 6 1.
Definition c0_7 : float := F64.dec 7 1.

Definition _calculate_product_confidence (product_name : str)
    (quantity : option float) (context : str) : float :=
  let confidence := c0_5 in
  let confidence :=
    if str_in product_name product_names then F64.add confidence c0_3
    else confidence in
  let confidence :=
    match quantity with
    | Some _ => F64.add confidence c0_2
    | None => confidence
    end in
  let confidence :=
    if 10 <? length (strip context) then F64.add confidence c0_1
    else confidence in
  F64.min confidence c1_0.

Definition _generate_product_notes (product_name : str)
    (quantity : option float) (unit : option str) : str :=
  let notes := [] in
  let notes :=
    match quantity with
    | None => notes ++ [lit "Quantity not specified"]
    | Some _ => notes
    end in
  let notes :=
    match unit with
    | None => notes ++ [lit "Unit not specified"]
    | Some _ => notes
    end in
  let notes :=
    match notes with
    | [] => notes ++ [lit "Complete information extracted"]
    | _ => notes
    end in
  join (lit "; ") notes.

(** The dict appended for one found product. *)
Definition mention (context : str) (f : str * option float * option str)
    : product :=
  let '(product_name, quantity, unit) := f in
  {| name := product_name;
     quantity := quantity;
     unit := unit;
     confidence := _calculate_product_confidence product_name quantity context;
     notes := _generate_product_notes product_name quantity unit |}.

(** The loop over the lines of [_extract_products]. *)
Fixpoint products_of_lines (lines : list str) : option (list product) :=
  match lines with
  | [] => Some []
  | line :: lines' =>
      let line := strip line in
      match line with
      | [] => products_of_lines lines'
      | _ :: _ =>
          found_products <- _find_products_in_line line ;;
          products <- products_of_lines lines' ;;
          Some (map (mention line) found_products ++ products)
      end
  end.

Definition _extract_products (content : str) : option (list product) :=
  let lines := split_lines content in
  products <- products_of_lines lines ;;
  match products with
  | [] =>
      found_products <- _find_products_in_line content ;;
      Some (map (mention content) found_products)
  | _ :: _ => Some products
  end.

(** The loop of [_extract_urgency] over the matches. *)
Fixpoint urgency_level (urgency_matches : list str) : str :=
  match urgency_matches with
  | [] => lit "low"
  | m :: rest =>
      if str_in m high_urgency then lit "high"
      else if str_in m medium_urgency then lit "medium"
      else urgency_level rest
  end.

Definition _extract_urgency (content : str) : option str :=
  let urgency_matches := findall U urgency_pattern (uc_lower U content) in
  match urgency_matches with
  | [] => None
  | _ :: _ => Some (urgency_level urgency_matches)
  end.

Definition _extract_currency (content : str) : option str :=
  let currency_matches := findall U currency_pattern content in
  match currency_matches with
  | m :: _ => Some (uc_upper U m)
  | [] => None
  end.

(** The loop of [_identify_gaps] over the products. *)
Fixpoint product_gaps (products : list product) : list str :=
  match products with
  | [] => []
  | p :: products' =>
      (match quantity p with
       | None => [lit "Missing quantity for " ++ name p]
       | Some _ => []
       end) ++
      (if F64.ltb (confidence p) c0_6
       then [lit "Low confidence in " ++ name p ++ lit " extraction"]
       else []) ++
      product_gaps products'
  end.

Definition _identify_gaps (products : list product) (sender : sender_t)
    : list str :=
  let gaps := [] in
  let gaps :=
    if F64.ltb (sender_confidence sender) c0_7
    then gaps ++ [lit "Unclear sender information"]
    else gaps in
  match products with
  | [] => gaps ++ [lit "No products identified"]
  | _ :: _ => gaps ++ product_gaps products
  end.

(** The event of [parse_email].  The sender comes from [_extract_sender],
    which reads the cleaned text and nothing else; no property below
    depends on how, so it is a parameter here, as is the clock. *)
Record parsed_event : Type := {
  email_id : str;
  timestamp : Z;
  sender : sender_t;
  products : list product;
  urgency : option str;
  currency : option str;
  gaps : list str;
  raw_content : str
}.

Variable _extract_sender : str -> sender_t.

Definition parse_email (now : Z) (content : str) (email_id : str)
    : option parsed_event :=
  let clean_content := _clean_content content in
  let sender := _extract_sender clean_content in
  products <- _extract_products clean_content ;;
  let urgency := _extract_urgency clean_content in
  let currency := _extract_currency clean_content in
  let gaps := _identify_gaps products sender in
  Some {| email_id := email_id;
          timestamp := now;
          sender := sender;
          products := products;
          urgency := urgency;
          currency := currency;
          gaps := gaps;
          raw_content := content |}.

End Parser.

(** ** [_extract_sender] *)

Import Rx.

Definition upper_az : char * char := (65%N, 90%N).
Definition lower_az : char * char := (97%N, 122%N).
Definition digit_09 : char * char := (48%N, 57%N).
Definition one (c : string) : list (char * char) :=
  map (fun x => (x, x)) (lit c).

(** [\b[A-Za-z0-9._%+-]+@[A-Za-z0-9.-]+\.[A-Z|a-z]{2,}\b], compiled without
    flags *)
Definition email_pattern : rx :=
  XSeq XWordB
 (XSeq (XPlus (ASet false ([upper_az; lower_az; digit_09] ++ one "._%+-")))
 (XSeq (XChr (ACls (CLit 64%N)))
 (XSeq (XPlus (ASet false ([upper_az; lower_az; digit_09] ++ one ".-")))
 (XSeq (XChr (ACls (CLit DOT)))
 (XSeq (XTwoOrMore (ASet false ([upper_az] ++ one "|" ++ [lower_az])))
       XWordB))))).

(** [From:\s*([^<]+?)\s*<[^>]+>] *)
Definition name_pattern : rx :=
  XSeq (XLits (lit "From:"))
 (XSeq (XStar (ACls CSpace))
 (XSeq (XGroup (XLazyPlus (ASet true (one "<"))))
 (XSeq (XStar (ACls CSpace))
 (XSeq (XChr (ACls (CLit 60%N)))
 (XSeq (XPlus (ASet true (one ">")))
       (XChr (ACls (CLit 62%N)))))))).

(** [From:\s*([^<\n]+)] *)
Definition fallback_pattern : rx :=
  XSeq (XLits (lit "From:"))
 (XSeq (XStar (ACls CSpace))
       (XGroup (XPlus (ASet true (one "<" ++ [(NL, NL)]))))).

Definition _extract_sender (U : ucd) (content : str) : sender_t :=
  let emails := Rx.findall U email_pattern content in
  let name_match :=
    match Rx.search U name_pattern content with
    | Some m => Some m
    | None => Rx.search U fallback_pattern content
    end in
  let sender_name := lit "Unknown" in
  let sender_email :=
    match emails with
    | e :: _ => e
    | [] => lit "unknown@example.com"
    end in
  let confidence := c0_5 in
  let '(sender_name, confidence) :=
    match name_match with
    | Some m => (strip (group1 content m), F64.dec 8 1)
    | None => (sender_name, confidence)
    end in
  let confidence :=
    match emails with
    | _ :: _ => F64.min (F64.add confidence c0_2) c1_0
    | [] => confidence
    end in
  {| sender_name := sender_name;
     sender_email := sender_email;
     sender_confidence := confidence |}.

End EmailParser.

(* ================================================================== *)
(** * [workflow/quote.py]: class [QuoteGenerator] *)

Module QuoteGenerator.

(** A tier of the discount rules; each key may be missing. *)
Record tier : Type := {
  min_amount : option float;
  max_amount : option float;
  tier_discount : option float
}.

(** [discount_rules]: the key ["tiers"] may be missing. *)
Record discount_rules_t : Type := {
  tiers : option (list tier)
}.

Record config_t : Type := {
  cfg_tax_rate : option float;
  cfg_default_currency : option str;
  cfg_quote_validity_days : option Z
}.

(** The part of a parsed event that [generate] reads.  The key
    ["currency"] may be missing ([None]) or bound to a value, which may
    itself be [None] ([Some None]). *)
Record event : Type := {
  ev_email_id : str;
  ev_products : list product;
  ev_currency : option (option str)
}.

Record line_item : Type := {
  li_product : str;
  li_quantity : float;
  li_unit_price : float;
  li_total : float;
  li_unit : str
}.

Record quote : Type := {
  q_email_id : str;
  q_timestamp : Z;
  status : str;
  line_items : list line_item;
  subtotal : float;
  discount : float;
  tax : float;
  total : float;
  q_currency : option str;
  pending_reasons : list str;
  valid_until : Z;
  discount_rate : float
}.

Definition day : Z := 86400000000.  (* microseconds *)

Section Generator.

Variable price_list : price_list_t.
Variable discount_rules : discount_rules_t.
Variable config : config_t.

(** The attributes set by [__init__]. *)
Definition tax_rate : float :=
  match cfg_tax_rate config with Some r => r | None => F64.dec 95 3 end.
Definition default_currency : str :=
  match cfg_default_currency config with Some c => c | None => lit "USD" end.
Definition validity_days : Z :=
  match cfg_quote_validity_days config with Some d => d | None => 7%Z end.

Fixpoint _can_generate_complete_quote_loop (products : list product) : bool :=
  match products with
  | [] => true
  | product :: products' =>
      if negb (in_price_list (name product) price_list) then false
      else match quantity product with
           | None => false
           | Some _ => _can_generate_complete_quote_loop products'
           end
  end.

Definition _can_generate_complete_quote (products : list product) : bool :=
  match products with
  | [] => false
  | _ :: _ => _can_generate_complete_quote_loop products
  end.

Definition in_tier (t : tier) (subtotal : float) : bool :=
  let min_amount := match min_amount t with Some m => m | None => F64.zero end in
  let max_amount := match max_amount t with Some m => m | None => F64.inf end in
  F64.leb min_amount subtotal && F64.ltb subtotal max_amount.

Fixpoint _calculate_discount_rate_loop (tiers : list tier) (subtotal : float)
    : float :=
  match tiers with
  | [] => F64.zero
  | t :: tiers' =>
      if in_tier t subtotal
      then match tier_discount t with Some d => d | None => F64.zero end
      else _calculate_discount_rate_loop tiers' subtotal
  end.

Definition _calculate_discount_rate (subtotal : float) : float :=
  let tiers := match tiers discount_rules with Some ts => ts | None => [] end in
  _calculate_discount_rate_loop tiers subtotal.

(** The loop of [_generate_complete_quote]; [None] is the [KeyError] of a
    name missing from the price list or the [TypeError] of a missing
    quantity. *)
Fixpoint line_items_loop (products : list product)
    (line_items : list line_item) (subtotal : float)
    : option (list line_item * float) :=
  match products with
  | [] => Some (line_items, subtotal)
  | product :: products' =>
      let product_name := name product in
      price_info <- lookup product_name price_list ;;
      quantity <- quantity product ;;
      let unit_price := price price_info in
      let unit :=
        match pi_unit price_info with Some u => u | None => lit "piece" end in
      let line_total := F64.mul unit_price quantity in
      line_items_loop products'
        (line_items ++
           [{| li_product := product_name;
               li_quantity := quantity;
               li_unit_price := unit_price;
               li_total := line_total;
               li_unit := unit |}])
        (F64.add subtotal line_total)
  end.

(** [clock] holds the two readings of [datetime.now()], in order. *)
Definition _generate_complete_quote (clock : Z * Z) (email_id : str)
    (products : list product) (currency : option str) : option quote :=
  r <- line_items_loop products [] F64.zero ;;
  let '(line_items, subtotal) := r in
  let discount_rate := _calculate_discount_rate subtotal in
  let discount_amount := F64.mul subtotal discount_rate in
  let taxable_amount := F64.sub subtotal discount_amount in
  let tax_amount := F64.mul taxable_amount tax_rate in
  let total := F64.add (F64.sub subtotal discount_amount) tax_amount in
  let valid_until := (fst clock + validity_days * day)%Z in
  Some {| q_email_id := email_id;
          q_timestamp := snd clock;
          status := lit "complete";
          line_items := line_items;
          subtotal := F64.round subtotal 2;
          discount := F64.round discount_amount 2;
          tax := F64.round tax_amount 2;
          total := F64.round total 2;
          q_currency := currency;
          pending_reasons := [];
          valid_until := valid_until;
          discount_rate := F64.round (F64.mul discount_rate (F64.dec 100 0)) 1 |}.

Fixpoint pending_reasons_loop (products : list product) : list str :=
  match products with
  | [] => []
  | product :: products' =>
      (if negb (in_price_list (name product) price_list)
       then [lit "Unrecognized product: '" ++ name product ++ lit "'"]
       else []) ++
      (match quantity product with
       | None => [lit "Missing quantity for " ++ name product]
       | Some _ => []
       end) ++
      pending_reasons_loop products'
  end.

Definition _generate_pending_quote (clock : Z * Z) (email_id : str)
    (products : list product) (currency : option str) : quote :=
  let pending_reasons :=
    match products with
    | [] => [lit "No products identified in the inquiry"]
    | _ :: _ => pending_reasons_loop products
    end in
  let valid_until := (fst clock + validity_days * day)%Z in
  {| q_email_id := email_id;
     q_timestamp := snd clock;
     status := lit "pending";
     line_items := [];
     subtotal := F64.zero;
     discount := F64.zero;
     tax := F64.zero;
     total := F64.zero;
     q_currency := currency;
     pending_reasons := pending_reasons;
     valid_until := valid_until;
     discount_rate := F64.zero |}.

Definition generate (clock : Z * Z) (parsed_event : event) : option quote :=
  let email_id := ev_email_id parsed_event in
  let products := ev_products parsed_event in
  let currency :=                (* parsed_event.get("currency", default) *)
    match ev_currency parsed_event with
    | Some c => c
    | None => Some default_currency
    end in
  let can_generate_complete := _can_generate_complete_quote products in
  if can_generate_complete
  then _generate_complete_quote clock email_id products currency
  else Some (_generate_pending_quote clock email_id products currency).

End Generator.

(** A quote as [validate_quote] reads it: a dict, any key of which may be
    missing.  Of a line item only the key ["total"] is read. *)
Record item_dict : Type := {
  it_total : option float
}.

Record quote_dict : Type := {
  qd_email_id : option str;
  qd_timestamp : option Z;
  qd_status : option str;
  qd_line_items : option (list item_dict);
  qd_subtotal : option float;
  qd_discount : option float;
  qd_tax : option float;
  qd_total : option float;
  qd_currency : option (option str);
  qd_pending_reasons : option (list str);
  qd_valid_until : option Z
}.

(** The dict that [generate] returns. *)
Definition as_dict (q : quote) : quote_dict :=
  {| qd_email_id := Some (q_email_id q);
     qd_timestamp := Some (q_timestamp q);
     qd_status := Some (status q);
     qd_line_items :=
       Some (map (fun it => {| it_total := Some (li_total it) |}) (line_items q));
     qd_subtotal := Some (subtotal q);
     qd_discount := Some (discount q);
     qd_tax := Some (tax q);
     qd_total := Some (total q);
     qd_currency := Some (q_currency q);
     qd_pending_reasons := Some (pending_reasons q);
     qd_valid_until := Some (valid_until q) |}.

(** [field not in quote] with its error message *)
Definition missing_field (A : Type) (field : string) (v : option A) : list str :=
  match v with
  | None => [lit "Missing required field: " ++ lit field]
  | Some _ => []
  end.

(** [quote.get("status") == s] *)
Definition status_is (quote : quote_dict) (s : str) : bool :=
  match qd_status quote with
  | Some s' => str_eqb s' s
  | None => false
  end.

(** [quote.get(key, 0)] for a number, and [not quote.get(key)] for a list *)
Definition get_number (v : option float) : float :=
  match v with Some x => x | None => F64.zero end.

Definition is_empty (A : Type) (v : option (list A)) : bool :=
  match v with
  | Some (_ :: _) => false
  | _ => true
  end.

(** [sum(item.get("total", 0) for item in items)] *)
Definition sum_totals (items : list item_dict) : float :=
  fold_left (fun acc item => F64.add acc (get_number (it_total item))) items F64.zero.

Definition validate_quote (quote : quote_dict) : list str :=
  let errors :=
    missing_field "email_id" (qd_email_id quote) ++
    missing_field "timestamp" (qd_timestamp quote) ++
    missing_field "status" (qd_status quote) ++
    missing_field "line_items" (qd_line_items quote) ++
    missing_field "subtotal" (qd_subtotal quote) ++
    missing_field "discount" (qd_discount quote) ++
    missing_field "tax" (qd_tax quote) ++
    missing_field "total" (qd_total quote) ++
    missing_field "currency" (qd_currency quote) ++
    missing_field "pending_reasons" (qd_pending_reasons quote) ++
    missing_field "valid_until" (qd_valid_until quote) in
  let errors :=
    if status_is quote (lit "complete") then
      errors ++
      (if is_empty (qd_line_items quote)
       then [lit "Complete quote must have line items"] else []) ++
      (if F64.leb (get_number (qd_total quote)) F64.zero
       then [lit "Complete quote must have positive total"] else [])
    else if status_is quote (lit "pending") then
      errors ++
      (if negb (F64.eqb (get_number (qd_total quote)) F64.zero)
       then [lit "Pending quote must have zero total"] else []) ++
      (if is_empty (qd_pending_reasons quote)
       then [lit "Pending quote must have pending reasons"] else [])
    else errors in
  if status_is quote (lit "complete") && negb (is_empty (qd_line_items quote)) then
    let calculated_subtotal :=
      sum_totals (match qd_line_items quote with Some l => l | None => [] end) in
    if F64.ltb (F64.dec 1 2)
               (SFabs (F64.sub calculated_subtotal (get_number (qd_subtotal quote))))
    then errors ++ [lit "Subtotal calculation mismatch"]
    else errors
  else errors.

End QuoteGenerator.

(* ================================================================== *)
(** * [workflow/acknowledgment.py]: class [AcknowledgmentGenerator] *)

(** [needle in hay] for strings *)
Fixpoint prefixb (a s : str) : bool :=
  match a, s with
  | [], _ => true
  | x :: a', y :: s' => N.eqb x y && prefixb a' s'
  | _ :: _, [] => false
  end.

Fixpoint contains (needle hay : str) : bool :=
  prefixb needle hay ||
  match hay with
  | [] => false
  | _ :: hay' => contains needle hay'
  end.

Module AcknowledgmentGenerator.

Section Questions.

Variable U : ucd.

Definition max_questions : nat := 2.

Definition question_quantity (product : product) : str :=
  lit "What quantity of " ++ name product ++ lit " do you need?".
Definition question_details : str :=
  lit "Could you please provide more details about the specific products you're interested in?".
Definition question_contact : str :=
  lit "Could you please confirm your contact information for our records?".
Definition question_products : str :=
  lit "What products are you interested in purchasing?".
Definition question_delivery : str :=
  lit "Do you have any specific delivery requirements or timeline preferences?".

(** The inner loop: the first product without a quantity. *)
Definition first_without_quantity (products : list product) : option product :=
  find (fun product => match quantity product with None => true | Some _ => false end)
       products.

(** The loop of [_generate_questions] over the gaps, with its two
    variables. *)
Fixpoint questions_loop (gaps : list str) (products : list product)
    (questions : list str) (question_count : nat) : list str * nat :=
  match gaps with
  | [] => (questions, question_count)
  | gap :: gaps' =>
      if max_questions <=? question_count then (questions, question_count)
      else if contains (lit "quantity") (uc_lower U gap) then
        match first_without_quantity products with
        | Some product =>
            questions_loop gaps' products
              (questions ++ [question_quantity product]) (S question_count)
        | None => questions_loop gaps' products questions question_count
        end
      else if contains (lit "product") (uc_lower U gap) &&
              contains (lit "unrecognized") (uc_lower U gap) then
        questions_loop gaps' products (questions ++ [question_details])
                       (S question_count)
      else if contains (lit "sender") (uc_lower U gap) then
        questions_loop gaps' products (questions ++ [question_contact])
                       (S question_count)
      else questions_loop gaps' products questions question_count
  end.

Definition _generate_questions (gaps : list str) (products : list product)
    : list str :=
  let '(questions, question_count) := questions_loop gaps products [] 0 in
  let questions :=
    match questions with
    | [] =>
        if question_count <? max_questions then
          let '(questions, question_count) :=
            match products with
            | [] => (questions ++ [question_products], S question_count)
            | _ :: _ => (questions, question_count)
            end in
          if question_count <? max_questions
          then questions ++ [question_delivery]
          else questions
        else questions
    | _ :: _ => questions
    end in
  firstn max_questions questions.

End Questions.

End AcknowledgmentGenerator.

(* ================================================================== *)
(** * [workflow/logger.py]: class [ActivityLogger] *)

Module ActivityLogger.

Section Log.

(** A log entry is whatever [json.loads] returns; [None] is its
    [JSONDecodeError]. *)
Variable activity : Type.
Variable json_loads : str -> option activity.

(** [lines[start:]] for an integer [start], negative from the end *)
Definition slice_from (A : Type) (lines : list A) (start : Z) : list A :=
  if (start <? 0)%Z
  then skipn (Z.to_nat (Z.max (Z.of_nat (length lines) + start) 0)) lines
  else skipn (Z.to_nat start) lines.

(** The loop over the lines: what does not decode is passed over. *)
Fixpoint decode_lines (lines : list str) : list activity :=
  match lines with
  | [] => []
  | line :: lines' =>
      match json_loads (strip line) with
      | Some a => a :: decode_lines lines'
      | None => decode_lines lines'
      end
  end.

(** [log_file] holds the lines of the file, [None] when there is no file. *)
Definition get_recent_activities (log_file : option (list str)) (limit : Z)
    : list activity :=
  match log_file with
  | None => []
  | Some lines =>
      let recent_lines :=
        if (limit <? Z.of_nat (length lines))%Z
        then slice_from lines (- limit)
        else lines in
      decode_lines recent_lines
  end.

End Log.

End ActivityLogger.

(* ================================================================== *)
(** * [main.py]: the default tables of [WorkflowOrchestrator], and the pipeline *)

Module WorkflowOrchestrator.

Import QuoteGenerator.

Definition _get_default_config : config_t :=
  {| cfg_tax_rate := Some (F64.dec 95 3);
     cfg_default_currency := Some (lit "USD");
     cfg_quote_validity_days := Some 7%Z |}.

Definition _get_default_price_list : price_list_t :=
  [ (lit "Widget Pro", {| price := F64.dec 2500 2; pi_unit := Some (lit "piece") |});
    (lit "Gadget Basic", {| price := F64.dec 1550 2; pi_unit := Some (lit "piece") |});
    (lit "Tool Kit", {| price := F64.dec 4500 2; pi_unit := Some (lit "kit") |});
    (lit "Premium Widget", {| price := F64.dec 7500 2; pi_unit := Some (lit "piece") |});
    (lit "Bulk Pack", {| price := F64.dec 20000 2; pi_unit := Some (lit "pack") |}) ].

Definition mk_tier (lo hi d : float) : tier :=
  {| min_amount := Some lo; max_amount := Some hi; tier_discount := Some d |}.

Definition _get_default_discount_rules : discount_rules_t :=
  {| tiers := Some
       [ mk_tier (F64.dec 0 0) (F64.dec 100 0) (F64.dec 5 2);
         mk_tier (F64.dec 100 0) (F64.dec 500 0) (F64.dec 10 2);
         mk_tier (F64.dec 500 0) (F64.dec 1000 0) (F64.dec 15 2);
         mk_tier (F64.dec 1000 0) F64.inf (F64.dec 20 2) ] |}.

(** The dict that [parse_email] returns, as [generate] reads it: the key
    ["currency"] is always there. *)
Definition as_event (e : EmailParser.parsed_event) : event :=
  {| ev_email_id := EmailParser.email_id e;
     ev_products := EmailParser.products e;
     ev_currency := Some (EmailParser.currency e) |}.

(** The result of [process_inbox]; the key ["total"] may be missing. *)
Record results : Type := {
  r_processed : nat;
  r_failed : nat;
  r_skipped : nat;
  r_total : option nat
}.

Section Inbox.

(** An e-mail file, and [process_email] on it: [Some true], [Some false], or
    [None] when it raises. *)
Variable file : Type.
Variable process_email : file -> option bool.

(** The loop of [process_inbox] over the files, with its counters. *)
Fixpoint count_files (email_files : list file) (processed failed : nat)
    : nat * nat :=
  match email_files with
  | [] => (processed, failed)
  | email_file :: email_files' =>
      match process_email email_file with
      | Some true => count_files email_files' (S processed) failed
      | Some false => count_files email_files' processed (S failed)
      | None => count_files email_files' processed (S failed)
      end
  end.

(** [inbox] holds the [.txt] files of the directory, [None] when the
    directory does not exist; the result [None] is the [ValueError] raised
    then. *)
Definition process_inbox (inbox : option (list file)) : option results :=
  match inbox with
  | None => None
  | Some [] =>
      Some {| r_processed := 0; r_failed := 0; r_skipped := 0; r_total := None |}
  | Some email_files =>
      let '(processed, failed) := count_files email_files 0 0 in
      Some {| r_processed := processed;
              r_failed := failed;
              r_skipped := 0;
              r_total := Some (length email_files) |}
  end.


End Inbox.

End WorkflowOrchestrator.

(* ================================================================== *)
(** * An excerpt of the character database

    The case mappings of Basic Latin (U+0000..U+007F), and the entries of the
    four letters beyond it that [re.IGNORECASE] folds onto ASCII letters:
    U+0130, U+0131, U+017F and U+212A.  Every other code point is left
    without case, digit value or letter status.  It serves to run the program
    on texts written with these characters; the general statements below
    hold for every database. *)

Module BasicLatin.

Definition isalnum (c : char) : bool :=
  ((c =? 304) || (c =? 305) || (c =? 383) || (c =? 8490))%N.

Definition lower1 (c : char) : str :=
  (if is_upper c then [c + 32]
   else if c =? 304 then [105; 775]
   else if c =? 8490 then [107]
   else [c])%N.

Definition upper1 (c : char) : str :=
  (if is_lower c then [c - 32]
   else if c =? 305 then [73]
   else if c =? 383 then [83]
   else [c])%N.

Definition db : ucd :=
  {| uc_isalnum := isalnum;
     uc_decimal := fun _ => None;
     uc_lower := flat_map lower1;
     uc_upper := flat_map upper1;
     uc_ci := N.eqb |}.

End BasicLatin.

(* ================================================================== *)
(** * The specification's notions

    What the specification says in words, written down apart from the
    program, for the program to be compared against. *)

(** Every mention has a catalog entry and a quantity. *)
Definition all_known (price_list : price_list_t) (products : list product) : Prop :=
  forall p, In p products ->
    in_price_list (name p) price_list = true /\ quantity p <> None.

(** ** What a pattern matches

    [matches U r st st']: the pattern [r], started in position [st] of the
    subject, can end in position [st'].  This is the meaning of a pattern
    without the order in which the matcher tries things. *)

Inductive matches (U : ucd) : Re.re -> Re.state -> Re.state -> Prop :=
| M_eps st :
    matches U Re.Eps st st
| M_chr c x s' st :
    Re.rest st = x :: s' -> Re.cls_match U c x = true ->
    matches U (Re.Chr c) st (Re.mk (Some x) s' (S (Re.pos st)) (Re.grp st))
| M_seq a b st st1 st2 :
    matches U a st st1 -> matches U b st1 st2 -> matches U (Re.Seq a b) st st2
| M_alt_l a b st st' :
    matches U a st st' -> matches U (Re.Alt a b) st st'
| M_alt_r a b st st' :
    matches U b st st' -> matches U (Re.Alt a b) st st'
| M_star_0 c st :
    matches U (Re.Star c) st (Re.mk (Re.prev st) (Re.rest st) (Re.pos st) (Re.grp st))
| M_star_S c st st1 st2 :
    matches U (Re.Chr c) st st1 -> matches U (Re.Star c) st1 st2 ->
    matches U (Re.Star c) st st2
| M_wordb st :
    Re.at_boundary U st = true -> matches U Re.WordB st st
| M_group r st st' :
    matches U r st st' ->
    matches U (Re.Group r) st
      (Re.mk (Re.prev st') (Re.rest st') (Re.pos st') (Some (Re.pos st, Re.pos st'))).

(** A number as the quantity pattern writes it: digits, then possibly a
    point and digits. *)
Definition all_digits (U : ucd) (w : str) : Prop :=
  w <> [] /\ Forall (fun x => isdecimal U x = true) w.

Definition is_number (U : ucd) (w : str) : Prop :=
  all_digits U w \/
  exists ip fp, w = ip ++ DOT :: fp /\ all_digits U ip /\ all_digits U fp.

(** ** Occurrences in a text *)

(** [ci_prefix U w s]: the text [s] begins with the word [w], letter case
    aside; the result is the rest of [s]. *)
Fixpoint ci_prefix (U : ucd) (w s : str) : option str :=
  match w with
  | [] => Some s
  | c :: w' =>
      match s with
      | x :: s' => if ci_match U c x then ci_prefix U w' s' else None
      | [] => None
      end
  end.

Definition starts_ci (U : ucd) (w s : str) : bool :=
  match ci_prefix U w s with Some _ => true | None => false end.

(** The last character of [w], or [p] when [w] is empty. *)
Definition last_of (p : option char) (w : str) : option char :=
  fold_left (fun _ x => Some x) w p.

(** A word boundary between two neighbours, either of which may be missing
    at an end of the text. *)
Definition boundary (U : ucd) (a b : option char) : bool :=
  xorb (Re.isword_opt U a) (Re.isword_opt U b).

(** The word [kw] stands at the start of [s] as a whole word, [p] being the
    character before [s]. *)
Definition word_here (U : ucd) (p : option char) (s : str) (kw : str) : bool :=
  boundary U p (hd_error s) &&
  match ci_prefix U kw s with
  | Some s' => boundary U (last_of p (firstn (length kw) s)) (hd_error s')
  | None => false
  end.

(** The part of [s] before the first position at which [here] holds of the
    text from that position on; all of [s] when there is none. *)
Fixpoint cut_at (here : str -> bool) (s : str) : str :=
  if here s then []
  else match s with
       | [] => []
       | x :: s' => x :: cut_at here s'
       end.

(** ** Urgency, as the specification words it *)

(** The urgency vocabulary with the tier of each keyword. *)
Definition urgency_keywords : list (str * str) :=
  [ (lit "asap", lit "high"); (lit "urgent", lit "high");
    (lit "rush", lit "high"); (lit "immediate", lit "high");
    (lit "quick", lit "medium"); (lit "fast", lit "medium") ].

(** The tier of the first keyword occurrence in text order. *)
Fixpoint first_keyword_tier (U : ucd) (p : option char) (s : str) : option str :=
  match find (fun kt => word_here U p s (fst kt)) urgency_keywords with
  | Some kt => Some (snd kt)
  | None =>
      match s with
      | x :: s' => first_keyword_tier U (Some x) s'
      | [] => None
      end
  end.

Definition spec_urgency (U : ucd) (content : str) : option str :=
  first_keyword_tier U None (uc_lower U content).

(** The tier of the first match, read off its spelling: "high" or "medium"
    when the matched text is spelled as a keyword of that tier, "low" for
    any other match. *)
Definition first_match_tier (U : ucd) (content : str) : option str :=
  match Re.findall U EmailParser.urgency_pattern (uc_lower U content) with
  | [] => None
  | m :: _ =>
      Some (if str_in m EmailParser.high_urgency then lit "high"
            else if str_in m EmailParser.medium_urgency then lit "medium"
            else lit "low")
  end.

(** A character of a lowercased text that no ASCII letter of a pattern can
    match other than by being that letter: no uppercase ASCII letter, and
    none of U+0130, U+0131, U+017F, U+212A. *)
Definition plain (x : char) : bool :=
  (negb (is_upper x) && negb (x =? 304) && negb (x =? 305) &&
   negb (x =? 383) && negb (x =? 8490))%N.

(** ** Cleaning, as the program does it and as the specification words it *)

(** A run of whitespace that reaches a line break: what [\s*\n] can match
    at the start of [s]. *)
Fixpoint ws_then_nl (s : str) : bool :=
  match s with
  | x :: s' => (x =? NL)%N || isspace x && ws_then_nl s'
  | [] => false
  end.

(** "--", then whitespace up to a line break. *)
Definition dash_marker (s : str) : bool :=
  match s with
  | 45%N :: 45%N :: s' => ws_then_nl s'
  | _ => false
  end.

Definition salutations : list str :=
  [lit "Best regards,"; lit "Sincerely,"; lit "Thank you,"; lit "Regards,"].

(** What [_clean_content] computes, without patterns: the lines whose first
    character after leading whitespace is '>' or '|' are dropped; the text
    is cut at the first "--" followed by whitespace up to a line break, then
    at the first occurrence of each salutation in turn, wherever in a line
    these stand; the result is stripped. *)
Definition cut_signatures (U : ucd) (text : str) : str :=
  fold_left (fun text w => cut_at (starts_ci U w) text) salutations
            (cut_at dash_marker text).

Definition cut_and_strip (U : ucd) (content : str) : str :=
  let kept := filter (fun line => negb (EmailParser.is_quoted line))
                     (split_lines content) in
  strip (cut_signatures U (join [NL] kept)).

(** The specification's wording of cleaning: lines are dropped or kept
    whole.  A quoted line begins with '>' or '|'; the signature block begins
    at the first line that is "--" alone or begins with a salutation (leading
    and trailing whitespace aside), and runs to the end. *)
Definition marker_line (U : ucd) (line : str) : bool :=
  str_eqb (strip line) (lit "--") ||
  existsb (fun w => starts_ci U w (strip line)) salutations.

Fixpoint before_marker (U : ucd) (lines : list str) : list str :=
  match lines with
  | [] => []
  | line :: lines' =>
      if marker_line U line then [] else line :: before_marker U lines'
  end.

Definition spec_clean_content (U : ucd) (content : str) : str :=
  let kept := filter (fun line => negb (EmailParser.is_quoted line))
                     (split_lines content) in
  strip (join [NL] (before_marker U kept)).

(** ** Mentions *)

(** A float that is zero, positive or plus infinity. *)
Definition nonneg_float (x : float) : Prop :=
  match x with
  | S754_zero _ | S754_infinity false | S754_finite false _ _ => True
  | _ => False
  end.

(** A quantity is absent or a float that is not negative. *)
Definition quantity_ok (q : option float) : Prop :=
  match q with
  | None => True
  | Some v => nonneg_float v
  end.

(** What holds of every mention the extractor produces: its name is a key
    of the price list, its quantity is absent or not negative, and its
    confidence is the score of that name and quantity in some context. *)
Definition mention_ok (price_list : price_list_t) (p : product) : Prop :=
  In (name p) (EmailParser.product_names price_list) /\
  quantity_ok (quantity p) /\
  exists context,
    confidence p =
      EmailParser._calculate_product_confidence price_list (name p) (quantity p)
        context.

(** The gap entry the low-confidence test would add. *)
Definition low_confidence_gap (n : str) : str :=
  lit "Low confidence in " ++ n ++ lit " extraction".

(** ** The texts and tables of the examples *)

(** "Need 10 Widget Pro pieces, asap!" *)
Definition inquiry : str := lit "Need 10 Widget Pro pieces, asap!".

(** A discount table with the 5% tier for subtotals below 100 and no other. *)
Definition five_percent_only : QuoteGenerator.discount_rules_t :=
  {| QuoteGenerator.tiers :=
       Some [WorkflowOrchestrator.mk_tier (F64.dec 0 0) (F64.dec 100 0) (F64.dec 5 2)] |}.

(** The price list of the fixtures of [tests/test_parser.py] and
    [tests/test_quote.py]. *)
Definition fixture_price_list : price_list_t :=
  [ (lit "Widget Pro", {| price := F64.dec 2500 2; pi_unit := Some (lit "piece") |});
    (lit "Gadget Basic", {| price := F64.dec 1550 2; pi_unit := Some (lit "piece") |});
    (lit "Tool Kit", {| price := F64.dec 4500 2; pi_unit := Some (lit "kit") |}) ].

Definition test_parsed (content : str) : option (list (str * option float)) :=
  ps <- EmailParser._extract_products BasicLatin.db fixture_price_list
          (EmailParser._clean_content BasicLatin.db content) ;;
  Some (map (fun p => (name p, quantity p)) ps).

Definition test_quoted (product_name : str) (q : N) : option QuoteGenerator.quote :=
  QuoteGenerator.generate fixture_price_list
    WorkflowOrchestrator._get_default_discount_rules
    WorkflowOrchestrator._get_default_config
    (0, 0)%Z
    {| QuoteGenerator.ev_email_id := lit "test";
       QuoteGenerator.ev_products :=
         [ {| name := product_name; quantity := Some (F64.dec q 0);
              unit := Some (lit "piece"); confidence := F64.dec 10 1;
              notes := [] |} ];
       QuoteGenerator.ev_currency := Some (Some (lit "USD")) |}.

Definition test_amounts (q : option QuoteGenerator.quote)
    : option (str * float * float * float) :=
  q <- q ;;
  Some (QuoteGenerator.status q, QuoteGenerator.subtotal q,
        QuoteGenerator.discount q, QuoteGenerator.tax q).

(** [test_calculate_discount_tier_1] to [_4]: the subtotal, and the discount
    and tax as the tests compute them. *)
Definition test_expected (sub rate : float) : option (str * float * float * float) :=
  let d := F64.mul sub rate in
  Some (lit "complete", sub, F64.round d 2,
        F64.round (F64.mul (F64.sub sub d) (F64.dec 95 3)) 2).

(** The word "rush" written with the long s (U+017F). *)
Definition rush_long_s : str := lit "ru" ++ [383%N] ++ lit "h".

(* ================================================================== *)
(** * Notions of the further properties *)

(** ** Mentions *)

(** The three shapes of what [_extract_quantity_near_position] returns. *)
Definition shape_ok (q : option float) (u : option str) : Prop :=
  (q = None -> u = None) /\
  (forall w, u = Some w -> In w (map snd EmailParser.unit_patterns)).

(** The quantity, unit and notes of a mention go together in one of three
    ways. *)
Definition mention_shape (p : product) : Prop :=
  shape_ok (quantity p) (unit p) /\
  notes p = EmailParser._generate_product_notes (name p) (quantity p) (unit p).

(** What the quote engine needs to know of the mentions of an event. *)
Definition known_and_sure (price_list : price_list_t) (p : product) : Prop :=
  in_price_list (name p) price_list = true /\
  F64.ltb (confidence p) EmailParser.c0_6 = false.

Definition no_quantity (p : product) : bool :=
  match quantity p with None => true | Some _ => false end.

(** The gap entry of a product without a quantity. *)
Definition quantity_gap (p : product) : str :=
  lit "Missing quantity for " ++ name p.

(** ** Quotes *)

(** The line item of a product: the product's name and quantity, the price
    and unit of the price list (the unit "piece" when the list has none),
    and their product as total. *)
Definition priced (price_list : price_list_t) (p : product)
    (it : QuoteGenerator.line_item) : Prop :=
  exists pi q,
    lookup (name p) price_list = Some pi /\ quantity p = Some q /\
    it = {| QuoteGenerator.li_product := name p;
            QuoteGenerator.li_quantity := q;
            QuoteGenerator.li_unit_price := price pi;
            QuoteGenerator.li_total := F64.mul (price pi) q;
            QuoteGenerator.li_unit :=
              match pi_unit pi with Some u => u | None => lit "piece" end |}.

Definition is_nan (x : float) : bool :=
  match x with S754_nan => true | _ => false end.

(** ** The inbox *)

(** [process_email] went through on a file. *)
Definition went_through (file : Type) (process_email : file -> option bool)
    (f : file) : bool :=
  match process_email f with
  | Some true => true
  | _ => false
  end.

(** ** Questions *)

(** The questions that can be asked about [products]: the four fixed ones,
    and the quantity of the first product that has none. *)
Definition askable (products : list product) (q : str) : Prop :=
  q = AcknowledgmentGenerator.question_details \/
  q = AcknowledgmentGenerator.question_contact \/
  q = AcknowledgmentGenerator.question_products \/
  q = AcknowledgmentGenerator.question_delivery \/
  exists p,
    AcknowledgmentGenerator.first_without_quantity products = Some p /\
    q = AcknowledgmentGenerator.question_quantity p.

(** [str.lower] on an ASCII character *)
Definition ascii_lower (c : char) : char :=
  if is_upper c then (c + 32)%N else c.

(** [str.lower] leaves nothing of an ASCII text but its lowercase letters:
    an ASCII text at the start of a text is lowercased character by
    character, whatever follows it. *)
Definition lower_fixes_ascii (U : ucd) : Prop :=
  forall a b, forallb is_ascii a = true ->
    exists r, uc_lower U (a ++ b) = map ascii_lower a ++ r /\ (b = [] -> r = []).

(** ** Texts *)

(** [here] holds somewhere in [s]: of [s] itself or of one of its
    suffixes. *)
Fixpoint anywhere (here : str -> bool) (s : str) : bool :=
  here s || match s with [] => false | _ :: s' => anywhere here s' end.

(** The lines of a text, without the accumulator of [split_lines_from]. *)
Fixpoint lines (s : str) : list str :=
  match s with
  | [] => [[]]
  | c :: s' =>
      if (c =? NL)%N then [] :: lines s'
      else match lines s' with
           | l :: ls => (c :: l) :: ls
           | [] => [[c]]
           end
  end.

(** Some line of [s] is quoted, read in one pass over the text; [ws] tells
    that the line being read holds only whitespace so far. *)
Fixpoint quoted_line (ws : bool) (s : str) : bool :=
  match s with
  | [] => false
  | c :: s' =>
      if (c =? NL)%N then quoted_line true s'
      else if ws then
        if (c =? GT)%N || (c =? BAR)%N then true
        else quoted_line (isspace c) s'
      else quoted_line false s'
  end.

Definition nl_free (l : str) : bool := forallb (fun c => negb (c =? NL)%N) l.

(** A test that, once it holds of a text, holds of every extension of it. *)
Definition monotone (here : str -> bool) : Prop :=
  forall p t, here p = true -> here (p ++ t) = true.

(** ** Currency *)

Definition currency_codes : list str :=
  [lit "USD"; lit "EUR"; lit "GBP"; lit "CAD"; lit "AUD"; lit "JPY"].

(** The first place of a text, in text order, at which one of the codes
    stands as a whole word, letter case aside: the text found there, as it
    is spelled. *)
Fixpoint first_code (U : ucd) (p : option char) (s : str) : option str :=
  match find (fun w => word_here U p s w) currency_codes with
  | Some w => Some (firstn (length w) s)
  | None =>
      match s with
      | x :: s' => first_code U (Some x) s'
      | [] => None
      end
  end.

(** [str.upper] on an ASCII character *)
Definition ascii_upper (c : char) : char :=
  if is_lower c then (c - 32)%N else c.

(** [str.upper] maps an ASCII text character by character. *)
Definition upper_fixes_ascii (U : ucd) : Prop :=
  forall a, forallb is_ascii a = true -> uc_upper U a = map ascii_upper a.

(** An ASCII text naming two currencies. *)
Definition two_currencies_inquiry : str :=
  lit "Quote in eur please, not in USD".

(** ** Texts of the examples *)

(** A text with outer whitespace and a "--" that is no signature marker. *)
Definition padded_inquiry : str :=
  [32%N] ++ lit "Need 5 Widget Pro -- and 3 Tool Kit" ++ [NL].

(** Two products without quantities, and an address. *)
Definition two_products_inquiry : str :=
  lit "We need Widget Pro and Tool Kit - bob@example.com".

(* ================================================================== *)
(** * Properties of the quote engine *)

Section QuoteProperties.

Import QuoteGenerator.

Variable price_list : price_list_t.
Variable discount_rules : discount_rules_t.
Variable config : config_t.

Lemma can_generate_loop_spec (products : list product) :
  _can_generate_complete_quote_loop price_list products = true <->
  all_known price_list products.
Proof.
  unfold all_known. induction products as [|p ps IH]; simpl.
  - split; [intros _ q []|reflexivity].
  - destruct (in_price_list (name p) price_list) eqn:Hin; simpl.
    + destruct (quantity p) as [q|] eqn:Hq.
      * rewrite IH. split.
        -- intros H x [<-|Hx]; [split; [assumption|congruence]|auto].
        -- intros H x Hx. apply H. now right.
      * split; [discriminate|].
        intros H. destruct (H p (or_introl eq_refl)) as [_ Hn]. congruence.
    + split; [discriminate|].
      intros H. destruct (H p (or_introl eq_refl)) as [Hn _]. congruence.
Qed.

Lemma can_generate_spec (products : list product) :
  _can_generate_complete_quote price_list products = true <->
  products <> [] /\ all_known price_list products.
Proof.
  destruct products as [|p ps].
  - simpl. split; [discriminate|intros [H _]; congruence].
  - unfold _can_generate_complete_quote. rewrite can_generate_loop_spec.
    split; [intros H; split; [discriminate|exact H]|intros [_ H]; exact H].
Qed.

(** A list that passes the completeness check is priced without error. *)
Lemma line_items_loop_total (products : list product) :
  _can_generate_complete_quote_loop price_list products = true ->
  forall items sub,
    exists r, line_items_loop price_list products items sub = Some r.
Proof.
  induction products as [|p ps IH]; simpl; intros H items sub.
  - eauto.
  - unfold in_price_list in H.
    destruct (lookup (name p) price_list) as [pi|]; [|discriminate].
    destruct (quantity p) as [q|]; [|discriminate].
    simpl in *. apply IH. exact H.
Qed.

Lemma complete_quote_total clock id (products : list product) cur :
  _can_generate_complete_quote_loop price_list products = true ->
  exists q,
    _generate_complete_quote price_list discount_rules config clock id products cur
      = Some q /\
    status q = lit "complete" /\ pending_reasons q = [] /\ q_currency q = cur.
Proof.
  intros H. unfold _generate_complete_quote.
  destruct (line_items_loop_total _ H [] F64.zero) as [[items sub] ->].
  simpl. eexists. split; [reflexivity|]. simpl. auto.
Qed.

Lemma complete_is_not_pending : lit "complete" <> lit "pending".
Proof. discriminate. Qed.

(** The result of [generate], whichever branch is taken. *)
Lemma generate_cases clock (ev : event) :
  let cur := match ev_currency ev with
             | Some c => c
             | None => Some (default_currency config)
             end in
  (_can_generate_complete_quote price_list (ev_products ev) = true /\
   exists q, generate price_list discount_rules config clock ev = Some q /\
     status q = lit "complete" /\ pending_reasons q = [] /\ q_currency q = cur)
  \/
  (_can_generate_complete_quote price_list (ev_products ev) = false /\
   generate price_list discount_rules config clock ev =
     Some (_generate_pending_quote price_list config clock (ev_email_id ev)
             (ev_products ev) cur)).
Proof.
  intros cur. unfold generate. fold cur.
  destruct (_can_generate_complete_quote price_list (ev_products ev)) eqn:Hc.
  - left. split; [reflexivity|].
    apply complete_quote_total.
    unfold _can_generate_complete_quote in Hc.
    destruct (ev_products ev); [discriminate|exact Hc].
  - right. split; reflexivity.
Qed.

(** C1. For every parsed event [generate] returns a quote; its status is
    "complete" exactly when the product list is non-empty and every
    mention has a name in the price list and a quantity; otherwise the
    status is "pending" and the total is 0. *)
Theorem C1_complete_iff_all_known clock (ev : event) :
  exists q, generate price_list discount_rules config clock ev = Some q /\
    (status q = lit "complete" <->
       ev_products ev <> [] /\ all_known price_list (ev_products ev)) /\
    (~ (ev_products ev <> [] /\ all_known price_list (ev_products ev)) ->
       status q = lit "pending" /\ total q = F64.zero).
Proof.
  destruct (generate_cases clock ev) as [[Hc (q & Hq & Hs & _)]|[Hc Hq]].
  - exists q. split; [exact Hq|]. apply can_generate_spec in Hc.
    split; [split; auto|]. intros Hn. contradiction.
  - eexists. split; [exact Hq|]. simpl.
    assert (Hn : ~ (ev_products ev <> [] /\ all_known price_list (ev_products ev))).
    { rewrite <- can_generate_spec. congruence. }
    split; [|auto].
    split; [intros H; symmetry in H; now apply complete_is_not_pending in H
           |intros H; contradiction].
Qed.

Lemma pending_reasons_loop_missing (products : list product) (p : product) :
  In p products ->
  (in_price_list (name p) price_list = false ->
     In (lit "Unrecognized product: '" ++ name p ++ lit "'")
        (pending_reasons_loop price_list products)) /\
  (quantity p = None ->
     In (lit "Missing quantity for " ++ name p)
        (pending_reasons_loop price_list products)).
Proof.
  induction products as [|x xs IH]; simpl; [intros []|].
  intros [->|Hin].
  - split; intros H; rewrite H; simpl.
    + now left.
    + apply in_or_app. right. now left.
  - destruct (IH Hin) as [H1 H2].
    split; intros H; apply in_or_app; right; apply in_or_app; right; auto.
Qed.

(** A list that fails the completeness check yields at least one reason. *)
Lemma pending_reasons_loop_nonempty (products : list product) :
  _can_generate_complete_quote_loop price_list products = false ->
  pending_reasons_loop price_list products <> [].
Proof.
  induction products as [|x xs IH]; simpl; [discriminate|].
  destruct (in_price_list (name x) price_list); simpl; [|discriminate].
  destruct (quantity x); [|discriminate].
  simpl. exact IH.
Qed.

(** C2. For every parsed event the quote's [pending_reasons] is non-empty
    exactly when its status is "pending", and empty exactly when it is
    "complete"; with an empty product list it is the single entry
    "No products identified in the inquiry"; otherwise every mention with
    no catalog entry, and every mention with no quantity, has its own
    reason in a pending quote. *)
Theorem C2_pending_reasons_iff_pending clock (ev : event) :
  exists q, generate price_list discount_rules config clock ev = Some q /\
    (pending_reasons q <> [] <-> status q = lit "pending") /\
    (pending_reasons q = [] <-> status q = lit "complete") /\
    (ev_products ev = [] ->
       status q = lit "pending" /\
       pending_reasons q = [lit "No products identified in the inquiry"]) /\
    (ev_products ev <> [] -> status q = lit "pending" ->
       forall p, In p (ev_products ev) ->
         (in_price_list (name p) price_list = false ->
            In (lit "Unrecognized product: '" ++ name p ++ lit "'")
               (pending_reasons q)) /\
         (quantity p = None ->
            In (lit "Missing quantity for " ++ name p) (pending_reasons q))).
Proof.
  destruct (generate_cases clock ev) as [[Hc (q & Hq & Hs & Hr & _)]|[Hc Hq]].
  - exists q. split; [exact Hq|]. rewrite Hs, Hr.
    split; [split; [congruence|intros H; now apply complete_is_not_pending in H]|].
    split; [split; reflexivity|].
    split.
    + intros He. rewrite He in Hc. discriminate.
    + intros _ H. now apply complete_is_not_pending in H.
  - eexists. split; [exact Hq|]. simpl.
    assert (Hne : match ev_products ev with
                  | [] => [lit "No products identified in the inquiry"]
                  | _ :: _ => pending_reasons_loop price_list (ev_products ev)
                  end <> []).
    { destruct (ev_products ev) as [|x xs] eqn:He; [discriminate|].
      apply pending_reasons_loop_nonempty. exact Hc. }
    split; [split; [reflexivity|intros _; exact Hne]|].
    split; [split; [intros H; contradiction
                   |intros H; symmetry in H; now apply complete_is_not_pending in H]|].
    split.
    + intros ->. split; reflexivity.
    + intros Hp _ p Hin. destruct (ev_products ev) as [|x xs]; [congruence|].
      apply pending_reasons_loop_missing. exact Hin.
Qed.

(** The loop stops at the first tier that holds the subtotal. *)
Lemma discount_rate_loop_first (ts before after : list tier) (t : tier)
    (subtotal : float) :
  ts = before ++ t :: after ->
  (forall t', In t' before -> in_tier t' subtotal = false) ->
  in_tier t subtotal = true ->
  _calculate_discount_rate_loop ts subtotal =
    match tier_discount t with Some d => d | None => F64.zero end.
Proof.
  intros -> Hb Ht. induction before as [|b bs IH]; simpl.
  - now rewrite Ht.
  - rewrite (Hb b (or_introl eq_refl)). apply IH.
    intros t' Hin. apply Hb. now right.
Qed.

Lemma discount_rate_loop_none (ts : list tier) (subtotal : float) :
  (forall t, In t ts -> in_tier t subtotal = false) ->
  _calculate_discount_rate_loop ts subtotal = F64.zero.
Proof.
  induction ts as [|t ts IH]; simpl; intros H; [reflexivity|].
  rewrite (H t (or_introl eq_refl)). apply IH. intros t' Hin. apply H. now right.
Qed.

(** The currency of the quote is what [.get("currency", default)] reads. *)
Lemma generate_currency clock (ev : event) :
  exists q, generate price_list discount_rules config clock ev = Some q /\
    q_currency q = match ev_currency ev with
                   | Some c => c
                   | None => Some (default_currency config)
                   end.
Proof.
  destruct (generate_cases clock ev) as [[Hc (q & Hq & _ & _ & Hcur)]|[Hc Hq]].
  - exists q. auto.
  - eexists. split; [exact Hq|reflexivity].
Qed.

End QuoteProperties.

Import QuoteGenerator WorkflowOrchestrator.

(** C4. The discount rate is the discount of the first tier, in the given
    order, whose half-open interval [min_amount <= subtotal < max_amount]
    holds the subtotal, and 0 when no tier does; under the default table
    77.50 gives 0.05, 200.00 gives 0.10, 625.00 gives 0.15 and 1250.00 gives
    0.20. *)
Theorem C4_discount_rate_is_first_matching_tier :
  (forall (rules : discount_rules_t) (subtotal : float),
     let ts := match tiers rules with Some ts => ts | None => [] end in
     (forall before t after,
        ts = before ++ t :: after ->
        (forall t', In t' before -> in_tier t' subtotal = false) ->
        in_tier t subtotal = true ->
        _calculate_discount_rate rules subtotal =
          match tier_discount t with Some d => d | None => F64.zero end) /\
     ((forall t, In t ts -> in_tier t subtotal = false) ->
        _calculate_discount_rate rules subtotal = F64.zero)) /\
  _calculate_discount_rate _get_default_discount_rules (F64.dec 7750 2) = F64.dec 5 2 /\
  _calculate_discount_rate _get_default_discount_rules (F64.dec 20000 2) = F64.dec 10 2 /\
  _calculate_discount_rate _get_default_discount_rules (F64.dec 62500 2) = F64.dec 15 2 /\
  _calculate_discount_rate _get_default_discount_rules (F64.dec 125000 2) = F64.dec 20 2.
Proof.
  split.
  - intros rules subtotal ts. split.
    + intros before t after E Hb Ht. unfold _calculate_discount_rate. fold ts.
      now apply discount_rate_loop_first with (before := before) (after := after).
    + intros H. unfold _calculate_discount_rate. fold ts.
      now apply discount_rate_loop_none.
  - repeat split; vm_compute; reflexivity.
Qed.

(* ================================================================== *)
(** * The pipeline on concrete texts *)

Import EmailParser.

(** What the extractor finds in the inquiry. *)
Lemma inquiry_products :
  _extract_products BasicLatin.db _get_default_price_list
      (_clean_content BasicLatin.db inquiry) =
    Some [ {| name := lit "Widget Pro";
              quantity := Some (F64.dec 10 0);
              unit := None;
              confidence := F64.dec 10 1;
              notes := lit "Unit not specified" |} ].
Proof. vm_compute. reflexivity. Qed.

(** C3, as stated, fails: on the inquiry the mention's unit is absent, not
    "piece" (the unit word stands after the product name, and the unit is
    looked for in the 50 characters before the name, where the quantity was
    found); and the subtotal 250.00 lies in the 10% tier of the default
    table, so the discount is 25.00, not 12.50, the tax 21.38, not 22.56, and
    the total 246.38, not 260.06. *)
Lemma C3_inquiry_counterexample :
  (exists m q,
     _extract_products BasicLatin.db _get_default_price_list
         (_clean_content BasicLatin.db inquiry) = Some [m] /\
     unit m = None /\
     generate _get_default_price_list _get_default_discount_rules
         _get_default_config (0, 0)%Z
         {| ev_email_id := lit "e1"; ev_products := [m]; ev_currency := Some None |}
       = Some q /\
     discount q = F64.dec 2500 2 /\
     tax q = F64.dec 2138 2 /\
     total q = F64.dec 24638 2) /\
  F64.eqb (F64.dec 2500 2) (F64.dec 1250 2) = false /\
  F64.eqb (F64.dec 2138 2) (F64.dec 2256 2) = false /\
  F64.eqb (F64.dec 24638 2) (F64.dec 26006 2) = false.
Proof.
  split.
  - eexists. eexists. split; [exact inquiry_products|].
    split; [reflexivity|]. split; [vm_compute; reflexivity|].
    repeat split; vm_compute; reflexivity.
  - repeat split; vm_compute; reflexivity.
Qed.

(** C3, amended.  On "Need 10 Widget Pro pieces, asap!" with the default
    price list (Widget Pro at 25.00 per piece) and tax rate 0.095, the
    extractor yields exactly one mention: Widget Pro, quantity 10, unit
    absent; the urgency is "high"; the quote is complete, with one line item
    in the catalog's unit "piece" and subtotal 250.00.  Under the default
    four-tier table the discount is 25.00, the tax 21.38 and the total
    246.38; under a table holding only the 5% tier below 100 no tier holds
    250.00, and the discount is 0, the tax 23.75 and the total 273.75. *)
Theorem C3_inquiry_end_to_end (extract_sender : str -> sender_t) :
  exists e m q q',
    parse_email BasicLatin.db _get_default_price_list extract_sender 0%Z
        inquiry (lit "e1") = Some e /\
    products e = [m] /\
    name m = lit "Widget Pro" /\ quantity m = Some (F64.dec 10 0) /\ unit m = None /\
    urgency e = Some (lit "high") /\
    generate _get_default_price_list _get_default_discount_rules
        _get_default_config (0, 0)%Z (as_event e) = Some q /\
    status q = lit "complete" /\
    map li_unit (line_items q) = [lit "piece"] /\
    subtotal q = F64.dec 25000 2 /\
    discount q = F64.dec 2500 2 /\
    tax q = F64.dec 2138 2 /\
    total q = F64.dec 24638 2 /\
    generate _get_default_price_list five_percent_only
        _get_default_config (0, 0)%Z (as_event e) = Some q' /\
    status q' = lit "complete" /\
    subtotal q' = F64.dec 25000 2 /\
    discount q' = F64.zero /\
    tax q' = F64.dec 2375 2 /\
    total q' = F64.dec 27375 2.
Proof.
  unfold parse_email. rewrite inquiry_products. simpl bind.
  eexists. eexists. eexists. eexists.
  split; [reflexivity|]. split; [reflexivity|].
  split; [reflexivity|]. split; [reflexivity|]. split; [reflexivity|].
  split; [vm_compute; reflexivity|].
  split; [vm_compute; reflexivity|].
  split; [reflexivity|].
  split; [reflexivity|].
  split; [vm_compute; reflexivity|].
  split; [vm_compute; reflexivity|].
  split; [vm_compute; reflexivity|].
  split; [vm_compute; reflexivity|].
  split; [vm_compute; reflexivity|].
  split; [reflexivity|].
  repeat split; vm_compute; reflexivity.
Qed.

(** C5, at the failing input.  The extractor finds no currency code in
    "Need 10 Widget Pro pieces, asap!" and binds the key to [None]; the
    quote then carries [None], not the default currency "USD". *)
Theorem C5_absent_currency_is_not_defaulted (extract_sender : str -> sender_t) :
  exists e q,
    parse_email BasicLatin.db _get_default_price_list extract_sender 0%Z
        inquiry (lit "e1") = Some e /\
    currency e = None /\
    generate _get_default_price_list _get_default_discount_rules
        _get_default_config (0, 0)%Z (as_event e) = Some q /\
    q_currency q = None /\
    default_currency _get_default_config = lit "USD".
Proof.
  unfold parse_email. rewrite inquiry_products. simpl bind.
  eexists. eexists.
  split; [reflexivity|]. split; [vm_compute; reflexivity|].
  split; [vm_compute; reflexivity|]. split; reflexivity.
Qed.

(* ================================================================== *)
(** * Properties of the matcher *)

Section MatcherProperties.

Import Re.

Variable U : ucd.

Lemma mk_eta (st : state) : mk (prev st) (rest st) (pos st) (grp st) = st.
Proof. destruct st; reflexivity. Qed.

Lemma star_sound (A : Type) (c : cls) (s : str) :
  forall p n g (k : state -> option A) v,
    star U c p s n g k = Some v ->
    exists st', matches U (Star c) (mk p s n g) st' /\ k st' = Some v.
Proof.
  induction s as [|x s IH]; intros p n g k v H; simpl in H.
  - exists (mk p [] n g). split; [apply (@M_star_0 U c (mk p [] n g))|exact H].
  - destruct (cls_match U c x) eqn:Hc.
    + destruct (star U c (Some x) s (S n) g k) as [v'|] eqn:Hs.
      * injection H as <-. destruct (IH _ _ _ _ _ Hs) as (st' & Hm & Hk).
        exists st'. split; [|exact Hk].
        eapply M_star_S; [|exact Hm].
        apply (@M_chr U c x s (mk p (x :: s) n g)); [reflexivity|exact Hc].
      * exists (mk p (x :: s) n g).
        split; [apply (@M_star_0 U c (mk p (x :: s) n g))|exact H].
    + exists (mk p (x :: s) n g).
      split; [apply (@M_star_0 U c (mk p (x :: s) n g))|exact H].
Qed.

(** The matcher is sound: a result comes from a match of the pattern
    followed by the continuation. *)
Lemma run_sound (A : Type) (r : re) :
  forall st (k : state -> option A) v,
    run U r st k = Some v ->
    exists st', matches U r st st' /\ k st' = Some v.
Proof.
  induction r as [|c|a IHa b IHb|a IHa b IHb|c| |r IH]; intros st k v H; simpl in H.
  - exists st. split; [constructor|exact H].
  - destruct (rest st) as [|x s'] eqn:Hr; [discriminate|].
    destruct (cls_match U c x) eqn:Hc; [|discriminate].
    eexists. split; [apply M_chr; eassumption|exact H].
  - destruct (IHa _ _ _ H) as (st1 & H1 & Hk1).
    destruct (IHb _ _ _ Hk1) as (st2 & H2 & Hk2).
    exists st2. split; [econstructor; eassumption|exact Hk2].
  - destruct (run U a st k) as [v'|] eqn:Ha.
    + injection H as <-. destruct (IHa _ _ _ Ha) as (st' & H1 & Hk).
      exists st'. split; [now apply M_alt_l|exact Hk].
    + destruct (IHb _ _ _ H) as (st' & H1 & Hk).
      exists st'. split; [now apply M_alt_r|exact Hk].
  - apply star_sound in H. rewrite mk_eta in H. exact H.
  - destruct (at_boundary U st) eqn:Hb; [|discriminate].
    exists st. split; [now constructor|exact H].
  - destruct (IH _ _ _ H) as (st' & H1 & Hk).
    eexists. split; [apply M_group; exact H1|exact Hk].
Qed.

(** A match consumes a prefix of the text and counts its characters. *)
Lemma matches_consumes (r : re) (st st' : state) :
  matches U r st st' ->
  exists w, rest st = w ++ rest st' /\ pos st' = pos st + length w.
Proof.
  induction 1 as [st|c x s' st Hr Hc|a b st st1 st2 _ IH1 _ IH2
                  |a b st st' _ IH|a b st st' _ IH|c st
                  |c st st1 st2 _ IH1 _ IH2|st Hb|r st st' _ IH].
  - exists []. simpl. split; [reflexivity|lia].
  - exists [x]. simpl. split; [exact Hr|lia].
  - destruct IH1 as (w1 & E1 & P1), IH2 as (w2 & E2 & P2).
    exists (w1 ++ w2). rewrite E1, E2, P2, P1, length_app, <- app_assoc.
    split; [reflexivity|lia].
  - exact IH.
  - exact IH.
  - exists []. simpl. split; [reflexivity|lia].
  - destruct IH1 as (w1 & E1 & P1), IH2 as (w2 & E2 & P2).
    exists (w1 ++ w2). rewrite E1, E2, P2, P1, length_app, <- app_assoc.
    split; [reflexivity|lia].
  - exists []. simpl. split; [reflexivity|lia].
  - exact IH.
Qed.

(** A pattern without a group leaves the group as it was. *)
Lemma matches_keeps_group (r : re) (st st' : state) :
  matches U r st st' -> has_group r = false -> grp st' = grp st.
Proof.
  induction 1 as [st|c x s' st Hr Hc|a b st st1 st2 _ IH1 _ IH2
                  |a b st st' _ IH|a b st st' _ IH|c st
                  |c st st1 st2 _ IH1 _ IH2|st Hb|r st st' _ IH];
    simpl; intros Hg; try reflexivity.
  - apply orb_false_iff in Hg as [Ha Hb]. now rewrite IH2, IH1.
  - apply orb_false_iff in Hg as [Ha Hb]. auto.
  - apply orb_false_iff in Hg as [Ha Hb]. auto.
  - now rewrite IH2, IH1.
  - discriminate.
Qed.

End MatcherProperties.

(* ================================================================== *)
(** * Properties of the floats read from digits *)

Section FloatSign.

Local Open Scope Z_scope.

Lemma shr_1_nonneg (mrs : shr_record) : 0 <= shr_m mrs -> 0 <= shr_m (shr_1 mrs).
Proof.
  destruct mrs as [m r s]. simpl. intros H.
  destruct m as [|p|p]; [simpl; lia| |lia].
  destruct p; simpl; lia.
Qed.

Lemma iter_shr_1_nonneg (p : positive) :
  forall mrs, 0 <= shr_m mrs -> 0 <= shr_m (iter_pos shr_1 p mrs).
Proof.
  induction p as [p IH|p IH|]; simpl; intros mrs H.
  - apply IH, IH, shr_1_nonneg, H.
  - apply IH, IH, H.
  - apply shr_1_nonneg, H.
Qed.

Lemma shr_fexp_nonneg (prec emax m e : Z) (l : location) :
  0 <= m -> 0 <= shr_m (fst (shr_fexp prec emax m e l)).
Proof.
  intros H. unfold shr_fexp, shr.
  assert (H0 : 0 <= shr_m (shr_record_of_loc m l)).
  { destruct l as [|[]]; simpl; exact H. }
  destruct (fexp prec emax (Zdigits2 m + e) - e); simpl; try exact H0.
  apply iter_shr_1_nonneg, H0.
Qed.

Lemma round_nearest_even_nonneg (m : Z) (l : location) :
  0 <= m -> 0 <= round_nearest_even m l.
Proof.
  intros H. destruct l as [|[]]; simpl; try lia.
  destruct (Z.even m); lia.
Qed.

Lemma binary_round_aux_nonneg (prec emax m e : Z) (l : location) :
  0 <= m -> nonneg_float (binary_round_aux prec emax false m e l).
Proof.
  intros H. unfold binary_round_aux.
  pose proof (shr_fexp_nonneg prec emax e l H) as H1.
  destruct (shr_fexp prec emax m e l) as [mrs' e']. simpl in H1.
  pose proof (round_nearest_even_nonneg (loc_of_shr_record mrs') H1) as H2.
  pose proof (shr_fexp_nonneg prec emax e' loc_Exact H2) as H3.
  destruct (shr_fexp prec emax _ e' loc_Exact) as [mrs'' e'']. simpl in H3.
  destruct (shr_m mrs'') as [|p|p]; simpl; [exact I| |lia].
  destruct (e'' <=? emax - prec); exact I.
Qed.

Lemma of_ratio_nonneg (p q : positive) : nonneg_float (F64.of_ratio false p q).
Proof.
  unfold F64.of_ratio, SFdiv, SFdiv_core_binary.
  set (e' := Z.min _ _). set (m' := match _ - e' with Z0 => _ | Zpos _ => _ | Zneg _ => _ end).
  assert (Hm : 0 <= m').
  { unfold m'. destruct (0 - 0 - e'); try lia. apply Z.shiftl_nonneg. lia. }
  pose proof (Z.div_pos m' (Zpos q) Hm ltac:(lia)) as Hq.
  unfold Z.div in Hq. destruct (Z.div_eucl m' (Zpos q)) as [qq r]. simpl in Hq.
  apply binary_round_aux_nonneg. exact Hq.
Qed.

Lemma dec_nonneg (n : N) (k : nat) : nonneg_float (F64.dec n k).
Proof.
  destruct n as [|p]; simpl; [exact I|apply of_ratio_nonneg].
Qed.

Lemma nonneg_float_leb (x : float) : nonneg_float x -> F64.leb F64.zero x = true.
Proof.
  destruct x as [[]|[]| |[] m e]; simpl; intros H; try reflexivity; contradiction.
Qed.

End FloatSign.

(* ================================================================== *)
(** * Properties of the quantity pattern *)

Section QuantityProperties.

Import Re EmailParser.

Variable U : ucd.

(** A pattern character that is no letter matches itself alone. *)
Lemma ci_match_nonletter (p x : char) :
  is_ascii p = true -> is_upper p = false -> is_lower p = false ->
  ci_match U p x = (x =? p)%N.
Proof.
  intros Ha Hu Hl. unfold ci_match, ascii_ci. now rewrite Ha, Hu, Hl.
Qed.

Lemma decimal_not_dot (x : char) : isdecimal U x = true -> (x =? DOT)%N = false.
Proof.
  intros H. destruct (N.eqb_spec x DOT) as [->|]; [|reflexivity].
  vm_compute in H. discriminate.
Qed.

Lemma split_point_digits (w : str) :
  Forall (fun x => isdecimal U x = true) w -> split_point w = (w, None).
Proof.
  induction 1 as [|x w Hx _ IH]; simpl; [reflexivity|].
  now rewrite (decimal_not_dot _ Hx), IH.
Qed.

Lemma split_point_app (ip fp : str) :
  Forall (fun x => isdecimal U x = true) ip ->
  split_point (ip ++ DOT :: fp) = (ip, Some fp).
Proof.
  induction 1 as [|x w Hx _ IH]; simpl; [reflexivity|].
  now rewrite (decimal_not_dot _ Hx), IH.
Qed.

Lemma digits_value_total (w : str) :
  Forall (fun x => isdecimal U x = true) w ->
  forall acc, exists n, digits_value U acc w = Some n.
Proof.
  induction 1 as [|x w Hx _ IH]; simpl; intros acc; [eauto|].
  unfold isdecimal in Hx. destruct (decimal U x); [apply IH|discriminate].
Qed.

(** [float()] accepts every number and reads it as the float nearest to a
    decimal. *)
Lemma py_float_number (w : str) :
  is_number U w -> exists n k, py_float U w = Some (F64.dec n k).
Proof.
  unfold py_float. intros [[Hne Hd]|(ip & fp & -> & [Hi Hdi] & [Hf Hdf])].
  - rewrite (split_point_digits Hd).
    destruct w as [|x w]; [congruence|].
    destruct (digits_value_total Hd 0) as [n ->]. eauto.
  - rewrite (split_point_app fp Hdi).
    destruct ip as [|x ip]; [congruence|].
    destruct fp as [|y fp]; [congruence|].
    assert (Hall : Forall (fun x => isdecimal U x = true) ((x :: ip) ++ y :: fp))
      by (apply Forall_app; split; assumption).
    destruct (digits_value_total Hall 0) as [n ->]. eauto.
Qed.

(** What [\d], [\d*] and [\d+] consume. *)
Lemma matches_digit (st st' : state) :
  matches U (Chr CDigit) st st' ->
  exists x, rest st = x :: rest st' /\ isdecimal U x = true.
Proof.
  inversion 1; subst. simpl in *. eauto.
Qed.

Lemma matches_digits (st st' : state) :
  matches U (Star CDigit) st st' ->
  exists w, rest st = w ++ rest st' /\ Forall (fun x => isdecimal U x = true) w.
Proof.
  remember (Star CDigit) as r eqn:Er. intros H.
  induction H as [| | | | |c st|c st st1 st2 H1 _ H2 IH2| |]; try discriminate.
  - exists []. split; [reflexivity|constructor].
  - injection Er as ->.
    destruct (matches_digit H1) as (x & E1 & Hx).
    destruct (IH2 eq_refl) as (w & E2 & Hw).
    exists (x :: w). rewrite E1, E2. split; [reflexivity|now constructor].
Qed.

Lemma matches_plus_digits (st st' : state) :
  matches U (Plus CDigit) st st' ->
  exists w, rest st = w ++ rest st' /\ all_digits U w.
Proof.
  unfold Plus. inversion 1 as [| |a b s0 st1 s2 H1 H2| | | | | |]; subst.
  destruct (matches_digit H1) as (x & E1 & Hx).
  destruct (matches_digits H2) as (w & E2 & Hw).
  exists (x :: w). rewrite E1, E2.
  split; [reflexivity|]. split; [discriminate|now constructor].
Qed.

(** What [\d+(?:\.\d+)?] consumes is a number. *)
Lemma matches_number (st st' : state) :
  matches U number_pattern st st' ->
  exists w, rest st = w ++ rest st' /\ is_number U w.
Proof.
  unfold number_pattern, Opt.
  inversion 1 as [| |a b s0 st1 s2 H1 H2| | | | | |]; subst.
  destruct (matches_plus_digits H1) as (ip & E1 & Hip).
  inversion H2 as [| | |a b s0 s1 Ha|a b s0 s1 Hb| | | |]; subst.
  - inversion Ha as [| |a b s0 st2 s2 Hd Hf| | | | | |]; subst.
    inversion Hd as [|c x s' s0 Hr Hc| | | | | | |]; subst.
    destruct (matches_plus_digits Hf) as (fp & E2 & Hfp). simpl in E2.
    assert (x = DOT) as ->.
    { simpl in Hc. rewrite ci_match_nonletter in Hc by reflexivity.
      now apply N.eqb_eq. }
    exists (ip ++ DOT :: fp). rewrite E1, Hr, E2, <- app_assoc.
    split; [reflexivity|]. right. eauto.
  - inversion Hb; subst. exists ip. split; [exact E1|]. now left.
Qed.

End QuantityProperties.

(* ================================================================== *)
(** * Properties of the product extraction *)

Section ExtractionProperties.

Import Re EmailParser.

Variable U : ucd.

(** Every match that [finditer] yields is the result of one attempt at a
    position [k] of the text. *)
Lemma scan_In (r : re) (s : str) :
  forall p n skip m,
    In m (scan U r p s n skip) ->
    exists b p' k, match_at U r b p' (skipn k s) (n + k) = Some m.
Proof.
  induction s as [|x s IH]; intros p n skip m Hin.
  - simpl in Hin. destruct skip; [|contradiction].
    destruct (match_at U r false p [] n) as [m0|] eqn:H0; [|contradiction].
    assert (Hor : m = m0 \/ exists m', match_at U r true p [] n = Some m' /\ m = m').
    { destruct (m_end m0 =? n).
      - destruct Hin as [<-|Hin]; [now left|].
        destruct (match_at U r true p [] n) as [m'|]; [|contradiction].
        destruct Hin as [<-|[]]. right. eauto.
      - destruct Hin as [<-|[]]. now left. }
    destruct Hor as [->|(m' & H1 & ->)].
    + exists false, p, 0. now rewrite Nat.add_0_r.
    + exists true, p, 0. now rewrite Nat.add_0_r.
  - assert (Hstep : forall j, In m (scan U r (Some x) s (S n) j) ->
              exists b p' k, match_at U r b p' (skipn k (x :: s)) (n + k) = Some m).
    { intros j Hj. destruct (IH _ _ _ _ Hj) as (b & p' & k & Hk).
      exists b, p', (S k). simpl. now rewrite Nat.add_succ_r. }
    simpl in Hin. destruct skip as [|j]; [|now apply Hstep with j].
    destruct (match_at U r false p (x :: s) n) as [m0|] eqn:H0;
      [|now apply Hstep with 0].
    assert (Hor : m = m0 \/
              (exists m', match_at U r true p (x :: s) n = Some m' /\ m = m') \/
              exists j, In m (scan U r (Some x) s (S n) j)).
    { destruct (m_end m0 =? n).
      - destruct Hin as [<-|Hin]; [now left|]. right.
        destruct (match_at U r true p (x :: s) n) as [m'|].
        + destruct Hin as [<-|Hin]; [left; eauto|right; eauto].
        + right; eauto.
      - destruct Hin as [<-|Hin]; [now left|]. right. right. eauto. }
    destruct Hor as [->|[(m' & H1 & ->)|[j Hj]]].
    + exists false, p, 0. now rewrite Nat.add_0_r.
    + exists true, p, 0. now rewrite Nat.add_0_r.
    + now apply Hstep with j.
Qed.

Lemma slice_skipn (t w tl : str) (k : nat) :
  skipn k t = w ++ tl -> slice t k (k + length w) = w.
Proof.
  intros E. unfold slice. rewrite E.
  replace (k + length w - k) with (length w) by lia.
  rewrite firstn_app, firstn_all, Nat.sub_diag. simpl. apply app_nil_r.
Qed.

(** The group of a match of the quantity pattern holds a number. *)
Lemma quantity_match_group (b : bool) (p : option char) (t : str) (k : nat)
    (m : rmatch) :
  match_at U quantity_pattern b p (skipn k t) k = Some m ->
  is_number U (group1 t m).
Proof.
  unfold match_at. intros H. apply run_sound in H.
  destruct H as (st' & Hm & Hk).
  destruct (b && (pos st' =? k)); [discriminate|]. injection Hk as <-.
  unfold quantity_pattern in Hm.
  inversion Hm as [| |a0 b0 s0 st1 s2 Hw Hrest| | | | | |]; subst.
  inversion Hw; subst.
  inversion Hrest as [| |a0 b0 s0 st2 s2 Hg Htail| | | | | |]; subst.
  inversion Hg as [| | | | | | | |r0 s0 st3 Hn]; subst.
  apply matches_keeps_group in Htail; [|reflexivity].
  unfold group1. simpl. rewrite Htail. simpl.
  destruct (matches_consumes Hn) as (w0 & E0 & P0).
  destruct (matches_number Hn) as (w & E & Hnum). simpl in *.
  assert (w0 = w) as ->.
  { rewrite E in E0. apply app_inv_tail in E0. auto. }
  rewrite P0, (@slice_skipn t w _ k E). exact Hnum.
Qed.

Lemma findall_quantity_numbers (t : str) (q : str) :
  In q (findall U quantity_pattern t) -> is_number U q.
Proof.
  unfold findall, finditer. simpl has_group. cbv iota.
  intros Hin. apply in_map_iff in Hin as (m & <- & Hm).
  apply scan_In in Hm as (b & p' & k & Hk). simpl in Hk.
  eapply quantity_match_group. exact Hk.
Qed.

Lemma py_float_quantity (t q : str) :
  In q (findall U quantity_pattern t) ->
  exists v, py_float U q = Some v /\ nonneg_float v.
Proof.
  intros H. apply findall_quantity_numbers, py_float_number in H.
  destruct H as (n & k & ->). eexists. split; [reflexivity|apply dec_nonneg].
Qed.

(** [_extract_quantity_near_position] never raises, and its quantity is
    absent or not negative. *)
Lemma extract_quantity_total (text : str) (position : nat) :
  exists q u,
    _extract_quantity_near_position U text position = Some (q, u) /\
    quantity_ok q.
Proof.
  unfold _extract_quantity_near_position.
  set (before := findall U quantity_pattern _).
  destruct (rev before) as [|q l] eqn:Hr.
  - set (after := findall U quantity_pattern _).
    destruct after as [|q l] eqn:Ha.
    + exists None, None. split; [reflexivity|exact I].
    + assert (Hin : In q after) by (rewrite Ha; now left).
      destruct (py_float_quantity _ _ Hin) as (v & -> & Hv).
      simpl. eexists (Some v), _. split; [reflexivity|exact Hv].
  - assert (Hin : In q before).
    { apply in_rev. rewrite Hr. now left. }
    destruct (py_float_quantity _ _ Hin) as (v & -> & Hv).
    simpl. eexists (Some v), _. split; [reflexivity|exact Hv].
Qed.

Variable price_list : price_list_t.

Lemma near_matches_total (line product_name : str) (ms : list rmatch) :
  exists found,
    near_matches U line product_name ms = Some found /\
    Forall (fun f => fst (fst f) = product_name /\ quantity_ok (snd (fst f))) found.
Proof.
  induction ms as [|m ms (found & Hf & IH)]; simpl.
  - exists []. split; [reflexivity|constructor].
  - destruct (extract_quantity_total line (m_start m)) as (q & u & -> & Hq).
    rewrite Hf. simpl. eexists. split; [reflexivity|]. constructor; [split; [reflexivity|exact Hq]|exact IH].
Qed.

Lemma find_products_among_total (names : list str) (line : str) :
  exists found,
    _find_products_among U names line = Some found /\
    Forall (fun f => In (fst (fst f)) names /\ quantity_ok (snd (fst f))) found.
Proof.
  induction names as [|nm names (found & Hf & IH)]; simpl.
  - exists []. split; [reflexivity|constructor].
  - destruct (near_matches_total line nm (finditer U (Lits nm) line))
      as (here & -> & Hh).
    rewrite Hf. simpl. eexists. split; [reflexivity|].
    apply Forall_app. split.
    + eapply Forall_impl; [|exact Hh]. intros f [<- Hq]. split; [now left|exact Hq].
    + eapply Forall_impl; [|exact IH]. intros f [Hin Hq]. split; [now right|exact Hq].
Qed.

Lemma mention_is_ok (context : str) (f : str * option float * option str) :
  In (fst (fst f)) (product_names price_list) -> quantity_ok (snd (fst f)) ->
  mention_ok price_list (mention price_list context f).
Proof.
  destruct f as [[nm q] u]. simpl. intros Hin Hq.
  split; [exact Hin|]. split; [exact Hq|]. now exists context.
Qed.

Lemma mentions_are_ok (context : str)
    (found : list (str * option float * option str)) :
  Forall (fun f => In (fst (fst f)) (product_names price_list) /\
                   quantity_ok (snd (fst f))) found ->
  Forall (mention_ok price_list) (map (mention price_list context) found).
Proof.
  induction 1 as [|f found [Hin Hq] _ IH]; simpl; constructor;
    [now apply mention_is_ok|exact IH].
Qed.

Lemma products_of_lines_total (lines : list str) :
  exists products,
    products_of_lines U price_list lines = Some products /\
    Forall (mention_ok price_list) products.
Proof.
  induction lines as [|line lines (products & Hp & IH)]; simpl.
  - exists []. split; [reflexivity|constructor].
  - destruct (strip line) as [|c l] eqn:Hs; [eauto|].
    unfold _find_products_in_line.
    destruct (find_products_among_total (product_names price_list) (c :: l))
      as (found & -> & Hf).
    rewrite Hp. simpl. eexists. split; [reflexivity|].
    apply Forall_app. split; [now apply mentions_are_ok|exact IH].
Qed.

(** [_extract_products] never raises, and every mention it returns is as
    [mention_ok] says. *)
Lemma extract_products_total (content : str) :
  exists products,
    _extract_products U price_list content = Some products /\
    Forall (mention_ok price_list) products.
Proof.
  unfold _extract_products.
  destruct (products_of_lines_total (split_lines content)) as (products & -> & Hp).
  simpl. destruct products as [|p ps]; [|eauto].
  unfold _find_products_in_line.
  destruct (find_products_among_total (product_names price_list) content)
    as (found & -> & Hf).
  simpl. eexists. split; [reflexivity|now apply mentions_are_ok].
Qed.

Lemma str_eqb_refl (a : str) : str_eqb a a = true.
Proof.
  induction a as [|x a IH]; simpl; [reflexivity|].
  now rewrite N.eqb_refl, IH.
Qed.

Lemma str_in_In (x : str) (xs : list str) : In x xs -> str_in x xs = true.
Proof.
  intros H. unfold str_in. apply existsb_exists. exists x.
  split; [exact H|apply str_eqb_refl].
Qed.

(** The score of a name of the price list is 0.8, 0.9 or 1.0: never below
    0.8, and never below the threshold 0.6 of the low-confidence gap. *)
Lemma confidence_of_known_name (product_name : str) (q : option float)
    (context : str) :
  In product_name (product_names price_list) ->
  let c := _calculate_product_confidence price_list product_name q context in
  F64.leb (F64.dec 8 1) c = true /\ F64.ltb c c0_6 = false.
Proof.
  intros Hin. unfold _calculate_product_confidence.
  rewrite (str_in_In _ _ Hin).
  destruct q as [v|]; destruct (10 <? length (strip context));
    vm_compute; split; reflexivity.
Qed.

Lemma mention_ok_confidence (p : product) :
  mention_ok price_list p ->
  F64.leb (F64.dec 8 1) (confidence p) = true /\ F64.ltb (confidence p) c0_6 = false.
Proof.
  intros (Hin & _ & context & ->). now apply confidence_of_known_name.
Qed.

End ExtractionProperties.

(* ================================================================== *)
(** * Properties of the parsed event *)

Import Re.

Lemma product_gaps_no_low (products : list product) (n : str) :
  Forall (fun p => F64.ltb (confidence p) c0_6 = false) products ->
  ~ In (low_confidence_gap n) (product_gaps products).
Proof.
  induction 1 as [|p ps Hp _ IH]; simpl; [tauto|].
  rewrite Hp. simpl. intros Hin. apply in_app_or in Hin as [Hin|Hin]; [|tauto].
  destruct (quantity p); [contradiction|].
  destruct Hin as [E|[]]. discriminate E.
Qed.

Lemma identify_gaps_no_low (products : list product) (sender : sender_t) (n : str) :
  Forall (fun p => F64.ltb (confidence p) c0_6 = false) products ->
  ~ In (low_confidence_gap n) (_identify_gaps products sender).
Proof.
  intros H Hin. unfold _identify_gaps in Hin.
  assert (Hs : ~ In (low_confidence_gap n)
                 (if F64.ltb (sender_confidence sender) c0_7
                  then [] ++ [lit "Unclear sender information"] else [])).
  { destruct (F64.ltb _ c0_7); simpl; [|tauto]. intros [E|[]]. discriminate E. }
  destruct products as [|p ps]; apply in_app_or in Hin as [Hin|Hin];
    try contradiction.
  - destruct Hin as [E|[]]. discriminate E.
  - revert Hin. now apply product_gaps_no_low.
Qed.

(** C8. Every product mention of a parsed event has confidence at least
    0.8 (0.5, plus 0.3 for the catalog name that every mention carries), so
    the gap "Low confidence in {name} extraction", kept for a confidence
    below 0.6, is in no parsed event; and [parse_email] does return an
    event for every text. *)
Theorem C8_confidence_at_least_0_8 (U : ucd) (price_list : price_list_t)
    (extract_sender : str -> sender_t) (now : Z) (content email_id : str) :
  exists e,
    parse_email U price_list extract_sender now content email_id = Some e /\
    (forall p, In p (products e) -> F64.leb (F64.dec 8 1) (confidence p) = true) /\
    (forall n, ~ In (lit "Low confidence in " ++ n ++ lit " extraction") (gaps e)).
Proof.
  unfold parse_email.
  destruct (extract_products_total U price_list (_clean_content U content))
    as (ps & -> & Hok).
  simpl. eexists. split; [reflexivity|]. simpl.
  assert (Hc : Forall (fun p => F64.leb (F64.dec 8 1) (confidence p) = true /\
                                F64.ltb (confidence p) c0_6 = false) ps).
  { eapply Forall_impl; [|exact Hok]. intros p. apply mention_ok_confidence. }
  split.
  - intros p Hin. rewrite Forall_forall in Hc. now apply Hc.
  - intros n. apply identify_gaps_no_low.
    eapply Forall_impl; [|exact Hc]. now intros p [_ H].
Qed.

(** C10. Every quantity of a product mention of a parsed event is absent or
    a float that is not negative; and [parse_email] does return an event for
    every text: [float()] never raises on what the quantity pattern
    captures. *)
Theorem C10_quantity_absent_or_nonnegative (U : ucd) (price_list : price_list_t)
    (extract_sender : str -> sender_t) (now : Z) (content email_id : str) :
  exists e,
    parse_email U price_list extract_sender now content email_id = Some e /\
    forall p, In p (products e) ->
      quantity p = None \/
      exists q, quantity p = Some q /\ F64.leb F64.zero q = true /\
                F64.ltb q F64.zero = false.
Proof.
  unfold parse_email.
  destruct (extract_products_total U price_list (_clean_content U content))
    as (ps & -> & Hok).
  simpl. eexists. split; [reflexivity|]. simpl.
  intros p Hin. rewrite Forall_forall in Hok.
  destruct (Hok p Hin) as (_ & Hq & _).
  destruct (quantity p) as [q|]; [right|now left].
  exists q. split; [reflexivity|]. simpl in Hq.
  split; [now apply nonneg_float_leb|].
  destruct q as [[]|[]| |[] m e]; simpl in *; try reflexivity; contradiction.
Qed.

(* ================================================================== *)
(** * The matcher on literal words *)

Section MatcherEquations.

Variable U : ucd.

(** A literal word matches where the text begins with it, case aside. *)
Lemma run_Lits (A : Type) (w : str) :
  forall p s n g (k : state -> option A),
    run U (Lits w) (mk p s n g) k =
      match ci_prefix U w s with
      | Some s' => k (mk (last_of p (firstn (length w) s)) s' (n + length w) g)
      | None => None
      end.
Proof.
  induction w as [|c w IH]; intros p s n g k; simpl.
  - now rewrite Nat.add_0_r.
  - destruct s as [|x s]; [reflexivity|].
    destruct (ci_match U c x); [|reflexivity].
    rewrite IH. simpl. now rewrite Nat.add_succ_r.
Qed.

Lemma ci_prefix_length (w s s' : str) :
  ci_prefix U w s = Some s' ->
  s = firstn (length w) s ++ s' /\ length s = length w + length s'.
Proof.
  revert s. induction w as [|c w IH]; intros s H; simpl in H.
  - injection H as ->. now split.
  - destruct s as [|x s]; [discriminate|].
    destruct (ci_match U c x); [|discriminate].
    destruct (IH _ H) as [E L]. simpl. split; [now rewrite <- E|now rewrite L].
Qed.

(** [.*] runs to the end of the text when what follows accepts that. *)
Lemma star_any (A : Type) (s : str) :
  forall p n g (k : state -> option A) v,
    k (mk (last_of p s) [] (n + length s) g) = Some v ->
    star U CAny p s n g k = Some v.
Proof.
  induction s as [|x s IH]; intros p n g k v H; simpl in *.
  - now rewrite Nat.add_0_r in H.
  - rewrite (IH (Some x) (S n) g k v); [reflexivity|].
    now rewrite Nat.add_succ_r in H.
Qed.

Lemma advance_check (b : bool) (n l : nat) : 0 < l -> b && (n + l =? n) = false.
Proof.
  intros H. destruct (Nat.eqb_spec (n + l) n); [lia|apply andb_false_r].
Qed.

(** A literal word followed by [.*]: a match wherever the word stands,
    from there to the end of the text. *)
Lemma match_at_word_any (w : str) (b : bool) (p : option char) (s : str) (n : nat) :
  w <> [] ->
  match_at U (Seq (Lits w) (Star CAny)) b p s n =
    if starts_ci U w s
    then Some {| m_start := n; m_end := n + length s; m_group := None |}
    else None.
Proof.
  intros Hw. unfold match_at, starts_ci. simpl. rewrite run_Lits.
  destruct (ci_prefix U w s) as [s'|] eqn:Hp; [|reflexivity].
  destruct (ci_prefix_length _ _ Hp) as [_ L].
  apply star_any. simpl.
  rewrite <- Nat.add_assoc, <- L.
  rewrite advance_check; [reflexivity|].
  destruct w; [congruence|simpl in L; lia].
Qed.

(** [\s*] before a line break and a rest that accepts: a result when a run
    of whitespace reaches a line break.  [e] is the length of the text. *)
Lemma star_space_nl (A : Type) (K : state -> option A) (v : A)
    (g : option (nat * nat)) (e : nat) :
  (forall p n, K (mk p [] n g) = None) ->
  (forall p x s n, n + length (x :: s) = e ->
     K (mk p (x :: s) n g) = if (x =? NL)%N then Some v else None) ->
  forall s p n, n + length s = e ->
    star U CSpace p s n g K = if ws_then_nl s then Some v else None.
Proof.
  intros K0 K1. induction s as [|x s IH]; intros p n E.
  - simpl. apply K0.
  - cbn [star cls_match ws_then_nl].
    rewrite (IH (Some x) (S n)) by (simpl in E; lia).
    rewrite (K1 p x s n E).
    destruct (isspace x) eqn:Hsp.
    + destruct (ws_then_nl s); [now rewrite orb_true_r|].
      now rewrite andb_false_r, orb_false_r.
    + rewrite andb_false_l, orb_false_r.
      destruct (N.eqb_spec x NL) as [->|]; [discriminate|reflexivity].
Qed.

Lemma ci_prefix_dashes (s : str) :
  ci_prefix U (lit "--") s =
    match s with
    | 45%N :: 45%N :: s' => Some s'
    | _ => None
    end.
Proof.
  assert (Hci : forall x, ci_match U 45%N x = (x =? 45)%N) by reflexivity.
  simpl. destruct s as [|x s]; [reflexivity|]. rewrite Hci.
  destruct (N.eqb_spec x 45%N) as [->|Hx].
  - destruct s as [|y s]; [reflexivity|]. rewrite Hci.
    destruct (N.eqb_spec y 45%N) as [->|Hy]; [reflexivity|].
    destruct y as [|y]; [reflexivity|].
    do 6 (destruct y as [y|y|]; try reflexivity). congruence.
  - destruct x as [|x]; [reflexivity|].
    do 6 (destruct x as [x|x|]; try reflexivity). congruence.
Qed.

Lemma match_at_dashes (b : bool) (p : option char) (s : str) (n : nat) :
  match_at U
    (Seq (Lits (lit "--")) (Seq (Star CSpace) (Seq (Chr (CLit NL)) (Star CAny))))
    b p s n =
    if dash_marker s
    then Some {| m_start := n; m_end := n + length s; m_group := None |}
    else None.
Proof.
  unfold match_at.
  change (run U (Seq ?a ?b) ?st ?k) with (run U a st (fun st' => run U b st' k)).
  rewrite run_Lits, ci_prefix_dashes. unfold dash_marker.
  destruct s as [|x s]; [reflexivity|].
  destruct x as [|x]; [reflexivity|].
  do 6 (destruct x as [x|x|]; try reflexivity).
  destruct s as [|y s]; [reflexivity|].
  destruct y as [|y]; [reflexivity|].
  do 6 (destruct y as [y|y|]; try reflexivity).
  change (run U (Seq (Star CSpace) ?b) ?st ?k)
    with (star U CSpace (prev st) (rest st) (pos st) (grp st)
            (fun st' => run U b st' k)).
  cbn [prev rest pos grp mk].
  apply star_space_nl with (e := n + length (45%N :: 45%N :: s)).
  - reflexivity.
  - intros p' x s' n' E. cbn [run rest mk pos grp cls_match].
    change (ci_match U NL x) with (x =? NL)%N.
    destruct (x =? NL)%N; [|reflexivity].
    apply star_any. cbn beta. cbn [pos grp mk].
    assert (Hpos : S n' + length s' = n + length (45%N :: 45%N :: s))
      by (simpl in *; unfold char in *; lia).
    rewrite Hpos.
    rewrite advance_check by (simpl; lia). reflexivity.
  - simpl. unfold char. lia.
Qed.

End MatcherEquations.

(* ================================================================== *)
(** * Properties of the cleaning *)

Section CleanProperties.

Import EmailParser.

Variable U : ucd.

Lemma scan_skip_all (r : re) (s : str) :
  (forall b p n, match_at U r b p [] n = None) ->
  forall p n, scan U r p s n (length s) = [].
Proof.
  intros H. induction s as [|x s IH]; intros p n; simpl.
  - now rewrite H.
  - apply IH.
Qed.

(** Removing the matches of a pattern that matches from wherever [here]
    holds to the end of the text cuts the text at the first such place. *)
Lemma between_scan_cut (r : re) (here : str -> bool) :
  (forall b p s n,
     match_at U r b p s n =
       if here s
       then Some {| m_start := n; m_end := n + length s; m_group := None |}
       else None) ->
  here [] = false ->
  forall s pre p,
    between (pre ++ s) 0 (scan U r p s (length pre) 0) = pre ++ cut_at here s.
Proof.
  intros H H0. induction s as [|x s IH]; intros pre p.
  - simpl. rewrite H, H0. simpl. reflexivity.
  - cbn [scan cut_at]. rewrite H. destruct (here (x :: s)) eqn:Hh.
    + cbn [m_end m_start].
      assert (Hne : (length pre + length (x :: s) =? length pre) = false)
        by (apply Nat.eqb_neq; simpl; lia).
      rewrite Hne.
      replace (length pre + length (x :: s) - length pre - 1) with (length s)
        by (simpl; lia).
      rewrite scan_skip_all by (intros; now rewrite H, H0).
      cbn [between m_start m_end]. unfold slice.
      rewrite Nat.sub_0_r. simpl skipn at 1.
      rewrite firstn_app, firstn_all, Nat.sub_diag. simpl firstn.
      rewrite <- length_app, skipn_all. now rewrite !app_nil_r.
    + specialize (IH (pre ++ [x]) (Some x)).
      rewrite length_app, Nat.add_1_r, <- app_assoc in IH. simpl in IH.
      rewrite IH. now rewrite <- app_assoc.
Qed.

Lemma sub_empty_cut (r : re) (here : str -> bool) :
  (forall b p s n,
     match_at U r b p s n =
       if here s
       then Some {| m_start := n; m_end := n + length s; m_group := None |}
       else None) ->
  here [] = false ->
  forall t, sub_empty U r t = cut_at here t.
Proof.
  intros H H0 t. unfold sub_empty, finditer.
  exact (@between_scan_cut r here H H0 t [] None).
Qed.

Lemma sub_empty_word (w t : str) :
  w <> [] ->
  sub_empty U (Seq (Lits w) (Star CAny)) t = cut_at (starts_ci U w) t.
Proof.
  intros Hw. apply sub_empty_cut.
  - intros b p s n. now apply match_at_word_any.
  - destruct w; [congruence|reflexivity].
Qed.

Lemma sub_empty_dashes (t : str) :
  sub_empty U
    (Seq (Lits (lit "--")) (Seq (Star CSpace) (Seq (Chr (CLit NL)) (Star CAny)))) t
  = cut_at dash_marker t.
Proof.
  apply sub_empty_cut; [apply match_at_dashes|reflexivity].
Qed.

(** The five substitutions of [_clean_content] are five cuts. *)
Lemma signature_patterns_cut (t : str) :
  fold_left (fun content pattern => sub_empty U pattern content)
            signature_patterns t = cut_signatures U t.
Proof.
  unfold signature_patterns, cut_signatures, salutations. cbn [fold_left].
  rewrite sub_empty_dashes.
  rewrite !sub_empty_word by discriminate. reflexivity.
Qed.

(** [cut_at] is what its name says: the text is the cut followed by a rest
    at which [here] holds (or by nothing), and [here] holds at no earlier
    place. *)
Lemma cut_at_spec (here : str -> bool) (s : str) :
  exists post,
    s = cut_at here s ++ post /\
    (post = [] \/ here post = true) /\
    forall a b, cut_at here s = a ++ b -> b <> [] -> here (b ++ post) = false.
Proof.
  induction s as [|x s (post & E & Hp & Hb)]; simpl.
  - destruct (here []) eqn:H0.
    + exists []. split; [reflexivity|]. split; [now left|].
      intros a b Eab Hne. destruct a, b; simpl in Eab; congruence.
    + exists []. split; [reflexivity|]. split; [now left|].
      intros a b Eab Hne. destruct a, b; simpl in Eab; congruence.
  - destruct (here (x :: s)) eqn:Hh.
    + exists (x :: s). split; [reflexivity|]. split; [now right|].
      intros a b Eab Hne. destruct a, b; simpl in Eab; congruence.
    + exists post. split; [simpl; now rewrite <- E|]. split; [exact Hp|].
      intros a b Eab Hne. destruct a as [|y a]; simpl in Eab.
      * subst b. simpl. now rewrite <- E.
      * injection Eab as -> Eab. now apply Hb with a.
Qed.

End CleanProperties.

(** C7, amended.  For every raw text, cleaning (1) drops exactly the lines
    whose first character after leading whitespace is '>' or '|'; (2) cuts
    the remaining text at the first "--" that is followed by whitespace up
    to a line break, wherever in its line that "--" stands, removing it and
    all that follows; (3) then cuts at the first occurrence, letter case
    aside and wherever in a line, of "Best regards,", then of "Sincerely,",
    of "Thank you," and of "Regards,", removing the salutation and all that
    follows; (4) and strips leading and trailing whitespace from what is
    left.  A "--" followed on its line by anything but whitespace is not a
    cut point, nor is a "--" that ends the text. *)
Theorem C7_clean_content_is_cut_and_strip (U : ucd) (content : str) :
  EmailParser._clean_content U content = cut_and_strip U content /\
  (forall x s, isspace x = false -> dash_marker (45%N :: 45%N :: x :: s) = false) /\
  dash_marker [45%N; 45%N] = false.
Proof.
  split.
  - unfold EmailParser._clean_content, cut_and_strip.
    now rewrite signature_patterns_cut.
  - split; [|reflexivity]. intros x s Hx. simpl. rewrite Hx.
    destruct (N.eqb_spec x NL) as [->|]; [discriminate|reflexivity].
Qed.

(* ================================================================== *)
(** * Properties of the urgency extraction *)

Section UrgencyProperties.

Import EmailParser.

Variable U : ucd.

(** One attempt of the urgency pattern: the first keyword of the vocabulary
    that stands here as a whole word. *)
Lemma match_at_urgency (b : bool) (p : option char) (s : str) (n : nat) :
  match_at U urgency_pattern b p s n =
    match find (fun kt => word_here U p s (fst kt)) urgency_keywords with
    | Some kt =>
        Some {| m_start := n;
                m_end := n + length (fst kt);
                m_group := Some (n, n + length (fst kt)) |}
    | None => None
    end.
Proof.
  unfold match_at, urgency_pattern, urgency_keywords, word_here, boundary.
  cbn [run find fst]. unfold at_boundary. cbn [prev rest pos grp mk].
  destruct (xorb (isword_opt U p) (isword_opt U (hd_error s))); [|reflexivity].
  cbn [andb].
  rewrite !run_Lits. cbn [prev rest pos grp mk].
  repeat
    match goal with
    | |- context [ci_prefix U ?w s] =>
        destruct (ci_prefix U w s);
        [ match goal with
          | |- context [xorb ?x ?y] => destruct (xorb x y)
          end
        | ]
    end;
    rewrite ?advance_check by (simpl; lia); reflexivity.
Qed.

(** A lowercase ASCII letter of a pattern matches a plain character only
    by being it. *)
Lemma ci_match_plain (c x : char) :
  is_lower c = true -> plain x = true -> ci_match U c x = true -> x = c.
Proof.
  unfold ci_match, ascii_ci, plain, is_ascii, is_upper, is_lower.
  intros Hc Hx H.
  apply andb_prop in Hc as [Hc1 Hc2].
  apply N.leb_le in Hc1. apply N.leb_le in Hc2.
  destruct (N.ltb_spec c 128) as [_|Hge]; [|lia].
  destruct (N.leb_spec 65 c) as [_|Hlt]; [|lia].
  destruct (N.leb_spec c 90) as [Hle|_]; [lia|]. cbn [andb] in H.
  destruct (N.leb_spec 97 c) as [_|Hlt]; [|lia].
  destruct (N.leb_spec c 122) as [_|Hgt]; [|lia]. cbn [andb] in H.
  repeat (apply andb_prop in Hx as [Hx ?]).
  repeat match goal with
         | H' : negb _ = true |- _ => apply negb_true_iff in H'
         end.
  destruct (N.eqb_spec x c) as [E|_]; [exact E|].
  destruct (N.eqb_spec x (c - 32)) as [E|_].
  { subst x. destruct (N.leb_spec 65 (c - 32)); [|lia].
    destruct (N.leb_spec (c - 32) 90); [discriminate|lia]. }
  destruct (N.eqb_spec x 304); [discriminate|].
  destruct (N.eqb_spec x 305); [discriminate|].
  destruct (N.eqb_spec x 383); [discriminate|].
  destruct (N.eqb_spec x 8490); [discriminate|].
  rewrite !andb_false_r in H. discriminate.
Qed.

(** In a plain text a lowercase keyword is matched by its own spelling. *)
Lemma ci_prefix_plain (kw s s' : str) :
  forallb is_lower kw = true -> forallb plain s = true ->
  ci_prefix U kw s = Some s' -> firstn (length kw) s = kw.
Proof.
  revert s. induction kw as [|c kw IH]; intros s Hk Hs H; [reflexivity|].
  simpl in *. destruct s as [|x s]; [discriminate|].
  apply andb_prop in Hk as [Hc Hk]. simpl in Hs. apply andb_prop in Hs as [Hx Hs].
  destruct (ci_match U c x) eqn:Hm; [|discriminate].
  rewrite (@ci_match_plain c x Hc Hx Hm). f_equal. now apply IH.
Qed.

Lemma forallb_skipn (A : Type) (f : A -> bool) (n : nat) (l : list A) :
  forallb f l = true -> forallb f (skipn n l) = true.
Proof.
  revert l. induction n as [|n IH]; intros l H; [exact H|].
  destruct l as [|x l]; [reflexivity|]. simpl in *.
  apply andb_prop in H as [_ H]. now apply IH.
Qed.

Lemma skipn_cons_S (A : Type) (n : nat) (l : list A) (x : A) (l' : list A) :
  skipn n l = x :: l' -> skipn (S n) l = l'.
Proof.
  revert l. induction n as [|n IH]; intros l H.
  - simpl in H. subst l. reflexivity.
  - destruct l as [|y l]; [discriminate|]. simpl in H. now apply IH in H.
Qed.

(** The keywords and their tiers, as the two lists of [_extract_urgency]
    sort them. *)
Lemma keyword_tier (kt : str * str) (l : list str) :
  In kt urgency_keywords ->
  forallb is_lower (fst kt) = true /\
  urgency_level (fst kt :: l) = snd kt /\
  (snd kt = lit "high" \/ snd kt = lit "medium").
Proof.
  intros H. simpl in H.
  repeat (destruct H as [<-|H]; [split; [reflexivity|split; [reflexivity|auto]]|]).
  contradiction.
Qed.

(** In a plain text the loop over the matches returns the tier of the first
    keyword occurrence. *)
Lemma urgency_scan (t : str) :
  forallb plain t = true ->
  forall s p n, skipn n t = s ->
    match map (group1 t) (scan U urgency_pattern p s n 0) with
    | [] => None
    | m :: l => Some (urgency_level (m :: l))
    end = first_keyword_tier U p s.
Proof.
  intros Ht. induction s as [|x s IH]; intros p n Hs.
  - cbn [scan first_keyword_tier]. rewrite match_at_urgency.
    destruct (find _ urgency_keywords) as [kt|] eqn:Hf; [|reflexivity].
    apply find_some in Hf as [Hin Hw]. exfalso.
    unfold word_here in Hw. apply andb_prop in Hw as [_ Hw].
    simpl in Hin.
    repeat (destruct Hin as [<-|Hin]; [simpl in Hw; discriminate|]).
    contradiction.
  - cbn [scan first_keyword_tier]. rewrite match_at_urgency.
    destruct (find _ urgency_keywords) as [kt|] eqn:Hf.
    + apply find_some in Hf as [Hin Hw].
      unfold word_here in Hw. apply andb_prop in Hw as [_ Hw].
      destruct (ci_prefix U (fst kt) (x :: s)) as [s'|] eqn:Hp; [|discriminate].
      assert (Hplain : forallb plain (x :: s) = true).
      { rewrite <- Hs. now apply forallb_skipn. }
      cbn [m_end m_start].
      assert (Hg : forall m, m_group m = Some (n, n + length (fst kt)) ->
                             group1 t m = fst kt).
      { intros m Hm. unfold group1, slice. rewrite Hm, Hs.
        replace (n + length (fst kt) - n) with (length (fst kt)) by lia.
        destruct (keyword_tier [] Hin) as (Hl & _ & _).
        exact (@ci_prefix_plain _ _ _ Hl Hplain Hp). }
      destruct (n + length (fst kt) =? n);
        cbn [map]; rewrite Hg by reflexivity;
        now destruct (keyword_tier
          (map (group1 t)
               (match match_at U urgency_pattern true p (x :: s) n with
                | Some m' => m' :: scan U urgency_pattern (Some x) s (S n)
                                     (m_end m' - n - 1)
                | None => scan U urgency_pattern (Some x) s (S n) 0
                end)) Hin) as (_ & -> & _)
        || now destruct (keyword_tier
          (map (group1 t)
               (scan U urgency_pattern (Some x) s (S n)
                     (n + length (fst kt) - n - 1))) Hin) as (_ & -> & _).
    + apply IH. now apply skipn_cons_S with x.
Qed.

(** The extraction on a text whose lowercased form is plain. *)
Lemma extract_urgency_plain (content : str) :
  forallb plain (uc_lower U content) = true ->
  _extract_urgency U content = spec_urgency U content.
Proof.
  intros H. unfold _extract_urgency, spec_urgency, findall, finditer.
  cbn [has_group urgency_pattern orb].
  change (has_group urgency_pattern) with true. cbn iota.
  pose proof (@urgency_scan _ H _ None 0 eq_refl) as E.
  cbn [skipn] in E. rewrite <- E.
  now destruct (map _ _).
Qed.

Lemma first_keyword_tier_range (s : str) :
  forall p x, first_keyword_tier U p s = Some x ->
    x = lit "high" \/ x = lit "medium".
Proof.
  induction s as [|c s IH]; intros p x; cbn [first_keyword_tier];
    destruct (find _ urgency_keywords) as [kt|] eqn:Hf;
    try discriminate; try apply IH.
  - intros [= <-]. apply find_some in Hf as [Hin _].
    now destruct (keyword_tier [] Hin) as (_ & _ & H).
  - intros [= <-]. apply find_some in Hf as [Hin _].
    now destruct (keyword_tier [] Hin) as (_ & _ & H).
Qed.

(** In a plain text the first match is spelled as a keyword. *)
Lemma urgency_scan_head (t : str) :
  forallb plain t = true ->
  forall s p n, skipn n t = s ->
    match map (group1 t) (scan U urgency_pattern p s n 0) with
    | [] => True
    | m :: _ => exists kt, In kt urgency_keywords /\ m = fst kt
    end.
Proof.
  intros Ht. induction s as [|x s IH]; intros p n Hs.
  - cbn [scan]. rewrite match_at_urgency.
    destruct (find _ urgency_keywords) as [kt|] eqn:Hf; [|exact I].
    apply find_some in Hf as [Hin Hw]. exfalso.
    unfold word_here in Hw. apply andb_prop in Hw as [_ Hw].
    simpl in Hin.
    repeat (destruct Hin as [<-|Hin]; [simpl in Hw; discriminate|]).
    contradiction.
  - cbn [scan]. rewrite match_at_urgency.
    destruct (find _ urgency_keywords) as [kt|] eqn:Hf.
    + apply find_some in Hf as [Hin Hw].
      unfold word_here in Hw. apply andb_prop in Hw as [_ Hw].
      destruct (ci_prefix U (fst kt) (x :: s)) as [s'|] eqn:Hp; [|discriminate].
      assert (Hplain : forallb plain (x :: s) = true).
      { rewrite <- Hs. now apply forallb_skipn. }
      cbn [m_end m_start].
      assert (Hg : forall m, m_group m = Some (n, n + length (fst kt)) ->
                             group1 t m = fst kt).
      { intros m Hm. unfold group1, slice. rewrite Hm, Hs.
        replace (n + length (fst kt) - n) with (length (fst kt)) by lia.
        destruct (keyword_tier [] Hin) as (Hl & _ & _).
        exact (@ci_prefix_plain _ _ _ Hl Hplain Hp). }
      destruct (n + length (fst kt) =? n);
        cbn [map]; rewrite Hg by reflexivity; eauto.
    + apply IH. now apply skipn_cons_S with x.
Qed.

Lemma extract_urgency_first_match (content : str) :
  forallb plain (uc_lower U content) = true ->
  _extract_urgency U content = first_match_tier U content.
Proof.
  intros H. unfold _extract_urgency, first_match_tier, findall, finditer.
  change (has_group urgency_pattern) with true. cbn iota.
  pose proof (@urgency_scan_head _ H _ None 0 eq_refl) as E.
  cbn [skipn] in E.
  destruct (map _ _) as [|m l]; [reflexivity|].
  destruct E as (kt & Hin & ->). f_equal.
  destruct (keyword_tier l Hin) as (_ & -> & _).
  simpl in Hin.
  repeat (destruct Hin as [<-|Hin]; [reflexivity|]). contradiction.
Qed.

End UrgencyProperties.

Import EmailParser.

(** C6, as stated, fails.  The pattern, being case-insensitive, matches
    "rush" written with the long s, and the matched text is in neither tier
    list.  In that word followed by " asap" the first match is of no tier
    ("low" by the specification), and the result is "high", the tier of the
    later match "asap".  In that word alone the keyword "rush" occurs, and
    the result is "low". *)
Lemma C6_first_match_counterexample :
  _extract_urgency BasicLatin.db (rush_long_s ++ lit " asap") = Some (lit "high") /\
  first_match_tier BasicLatin.db (rush_long_s ++ lit " asap") = Some (lit "low") /\
  _extract_urgency BasicLatin.db rush_long_s = Some (lit "low") /\
  spec_urgency BasicLatin.db rush_long_s = Some (lit "high").
Proof. repeat split; vm_compute; reflexivity. Qed.

(** C6, amended.  For every text whose lowercased form is plain (it holds
    neither the long s U+017F nor the dotless i U+0131; and, as no lowercased
    text does, no uppercase ASCII letter, U+0130 or U+212A), the urgency is
    the tier of the first keyword occurrence in text order: "high" for asap,
    urgent, rush, immediate, "medium" for quick, fast, absent when no
    keyword occurs as a whole word; it is also the tier read off the first
    match, so never a tier found later in the text. *)
Theorem C6_urgency_is_first_keyword_tier (U : ucd) (content : str) :
  forallb plain (uc_lower U content) = true ->
  _extract_urgency U content = spec_urgency U content /\
  _extract_urgency U content = first_match_tier U content.
Proof.
  intros H. split;
    [now apply extract_urgency_plain|now apply extract_urgency_first_match].
Qed.

Lemma C6_urgency_witness :
  forallb plain (uc_lower BasicLatin.db (lit "Be quick, ASAP if you can")) = true /\
  (_extract_urgency BasicLatin.db (lit "Be quick, ASAP if you can") =
     spec_urgency BasicLatin.db (lit "Be quick, ASAP if you can") /\
   _extract_urgency BasicLatin.db (lit "Be quick, ASAP if you can") =
     first_match_tier BasicLatin.db (lit "Be quick, ASAP if you can")).
Proof.
  split; [reflexivity|].
  apply (@C6_urgency_is_first_keyword_tier BasicLatin.db
           (lit "Be quick, ASAP if you can")).
  reflexivity.
Defined.

(** C9, as stated, fails: for "rush" written with the long s the result is
    "low". *)
Lemma C9_low_is_reachable :
  _extract_urgency BasicLatin.db rush_long_s = Some (lit "low").
Proof. vm_compute. reflexivity. Qed.

(** C9, amended.  For every text whose lowercased form is plain (neither
    U+017F nor U+0131 in it), the urgency is absent, "high" or "medium",
    never "low": every plain spelling the pattern matches is one of the six
    keywords, each of the high or the medium tier. *)
Theorem C9_urgency_never_low_on_plain_text (U : ucd) (content : str) :
  forallb plain (uc_lower U content) = true ->
  (_extract_urgency U content = None \/
   _extract_urgency U content = Some (lit "high") \/
   _extract_urgency U content = Some (lit "medium")) /\
  _extract_urgency U content <> Some (lit "low").
Proof.
  intros H. rewrite (extract_urgency_plain U content H). unfold spec_urgency.
  destruct (first_keyword_tier U None (uc_lower U content)) as [x|] eqn:E.
  - apply first_keyword_tier_range in E. destruct E as [-> | ->].
    + split; [auto|discriminate].
    + split; [auto|discriminate].
  - split; [auto|discriminate].
Qed.

Lemma C9_urgency_witness :
  forallb plain (uc_lower BasicLatin.db (lit "No RUSH, but be fast")) = true /\
  ((_extract_urgency BasicLatin.db (lit "No RUSH, but be fast") = None \/
    _extract_urgency BasicLatin.db (lit "No RUSH, but be fast") = Some (lit "high") \/
    _extract_urgency BasicLatin.db (lit "No RUSH, but be fast") = Some (lit "medium")) /\
   _extract_urgency BasicLatin.db (lit "No RUSH, but be fast") <> Some (lit "low")).
Proof.
  split; [reflexivity|].
  apply (@C9_urgency_never_low_on_plain_text BasicLatin.db
           (lit "No RUSH, but be fast")).
  reflexivity.
Defined.

(** C7, as stated, fails.  Neither text has a line that begins with '>' or
    '|', a line that is "--" alone, or a line that begins with a salutation;
    yet the first is cut at the "--" that ends its first line, and the second
    at the "regards," in the middle of its only line. *)
Lemma C7_clean_content_counterexample :
  _clean_content BasicLatin.db (lit "Price--" ++ [NL] ++ lit "Need 5 Widget Pro")
    = lit "Price" /\
  spec_clean_content BasicLatin.db
      (lit "Price--" ++ [NL] ++ lit "Need 5 Widget Pro")
    = lit "Price--" ++ [NL] ++ lit "Need 5 Widget Pro" /\
  _clean_content BasicLatin.db (lit "Send my regards, then quote 5 Widget Pro")
    = lit "Send my" /\
  spec_clean_content BasicLatin.db
      (lit "Send my regards, then quote 5 Widget Pro")
    = lit "Send my regards, then quote 5 Widget Pro".
Proof. repeat split; vm_compute; reflexivity. Qed.

(* ================================================================== *)
(** * The assertions of the repository's tests, on the embedding *)

Section RepositoryTests.

Import Re.

Example test_parse_complete_email :
  let content := lit "
        From: John Smith <john@example.com>
        
        Hi, I need 10 Widget Pro pieces for our project.
        Please quote in USD.
        " in
  test_parsed content = Some [(lit "Widget Pro", Some (F64.dec 100 1))] /\
  _extract_currency BasicLatin.db (_clean_content BasicLatin.db content)
    = Some (lit "USD").
Proof. split; vm_compute; reflexivity. Qed.

Example test_parse_email_with_missing_quantity :
  test_parsed (lit "
        From: Jane Doe <jane@example.com>
        
        I'm interested in Gadget Basic. Can you quote me?
        ") = Some [(lit "Gadget Basic", None)].
Proof. vm_compute. reflexivity. Qed.

Example test_parse_email_with_multiple_products :
  test_parsed (lit "
        From: Bob Wilson <bob@example.com>
        
        Need 5 Widget Pro and 2 Tool Kit for our project.
        ") = Some [(lit "Widget Pro", Some (F64.dec 50 1));
                   (lit "Tool Kit", Some (F64.dec 20 1))].
Proof. vm_compute. reflexivity. Qed.

Example test_parse_email_with_urgency :
  let content := lit "
        From: Alice Brown <alice@example.com>
        
        Need 3 Gadget Basic asap! This is urgent.
        " in
  _extract_urgency BasicLatin.db (_clean_content BasicLatin.db content)
    = Some (lit "high") /\
  test_parsed content = Some [(lit "Gadget Basic", Some (F64.dec 30 1))].
Proof. split; vm_compute; reflexivity. Qed.

Example test_parse_email_with_unrecognized_product :
  test_parsed (lit "
        From: Charlie Davis <charlie@example.com>
        
        I need 5 Custom Product units.
        ") = Some [].
Proof. vm_compute. reflexivity. Qed.

Example test_parse_email_with_quoted_content :
  test_parsed (lit "
        From: Diana Evans <diana@example.com>
        
        > On Mon, Jan 15, 2024 at 10:00 AM, Sales wrote:
        > > Thank you for your inquiry
        
        Hi, I need 2 Tool Kit for our workshop.
        ") = Some [(lit "Tool Kit", Some (F64.dec 20 1))].
Proof. vm_compute. reflexivity. Qed.

Example test_parse_email_with_signature :
  test_parsed (lit "
        From: Frank Miller <frank@example.com>
        
        Please quote 10 Widget Pro.
        
        --
        Frank Miller
        CEO, Miller Corp
        Phone: (555) 123-4567
        ") = Some [(lit "Widget Pro", Some (F64.dec 100 1))].
Proof. vm_compute. reflexivity. Qed.

Example test_calculate_discount_tiers :
  test_amounts (test_quoted (lit "Gadget Basic") 5) = test_expected (F64.dec 7750 2) (F64.dec 5 2) /\
  test_amounts (test_quoted (lit "Widget Pro") 8) = test_expected (F64.dec 20000 2) (F64.dec 10 2) /\
  test_amounts (test_quoted (lit "Widget Pro") 25) = test_expected (F64.dec 62500 2) (F64.dec 15 2) /\
  test_amounts (test_quoted (lit "Widget Pro") 50) = test_expected (F64.dec 125000 2) (F64.dec 20 2).
Proof. repeat split; vm_compute; reflexivity. Qed.

Example test_generate_pending_quote_unrecognized_product :
  option_map (fun q => (status q, total q, pending_reasons q))
             (test_quoted (lit "Custom Product") 5) =
    Some (lit "pending", F64.zero, [lit "Unrecognized product: 'Custom Product'"]).
Proof. vm_compute. reflexivity. Qed.

End RepositoryTests.

(* ================================================================== *)
(** * Further properties of the extractor *)

Section MentionShape.

Import EmailParser.

Variable U : ucd.
Variable price_list : price_list_t.

(** X1. The confidence of a mention, whatever the name, quantity and
    context, lies between 0.5 and 1.0. *)
Theorem X1_product_confidence_range (product_name : str) (q : option float)
    (context : str) :
  let c := _calculate_product_confidence price_list product_name q context in
  F64.leb (F64.dec 5 1) c = true /\ F64.leb c (F64.dec 10 1) = true.
Proof.
  unfold _calculate_product_confidence.
  destruct (str_in product_name (product_names price_list));
    destruct q as [v|]; destruct (10 <? length (strip context));
    vm_compute; split; reflexivity.
Qed.

Lemma extract_unit_from_range (table : list (re * str)) (text : str) (u : str) :
  _extract_unit_from U table text = Some u -> In u (map snd table).
Proof.
  induction table as [|[pattern u'] table IH]; simpl; [discriminate|].
  destruct (search U pattern text); [intros [= <-]; now left|].
  intros H. right. now apply IH.
Qed.

Lemma extract_quantity_shape (text : str) (position : nat) q u :
  _extract_quantity_near_position U text position = Some (q, u) -> shape_ok q u.
Proof.
  unfold _extract_quantity_near_position, _extract_unit, shape_ok.
  remember (_extract_unit_from U unit_patterns
              (slice text (position - 50) position)) as ub eqn:Eb.
  remember (_extract_unit_from U unit_patterns
              (slice text position (position + 50))) as ua eqn:Ea.
  symmetry in Eb, Ea.
  destruct (rev (findall U quantity_pattern _)) as [|w l].
  - destruct (findall U quantity_pattern _) as [|w l].
    + intros [= <- <-]. split; [reflexivity|discriminate].
    + destruct (py_float U w) as [v|]; [|discriminate]. unfold bind.
      intros [= <- <-]. split; [discriminate|].
      intros w' ->. now apply extract_unit_from_range in Ea.
  - destruct (py_float U w) as [v|]; [|discriminate]. unfold bind.
    intros [= <- <-]. split; [discriminate|].
    intros w' ->. now apply extract_unit_from_range in Eb.
Qed.

Lemma near_matches_shape (line product_name : str) (ms : list rmatch) :
  forall found, near_matches U line product_name ms = Some found ->
    Forall (fun f => shape_ok (snd (fst f)) (snd f)) found.
Proof.
  induction ms as [|m ms IH]; simpl; intros found.
  - intros [= <-]. constructor.
  - destruct (_extract_quantity_near_position U line (m_start m))
      as [[q u]|] eqn:Hq; [|discriminate]. simpl.
    destruct (near_matches U line product_name ms) as [rest|]; [|discriminate].
    simpl. intros [= <-]. constructor; [|now apply IH].
    simpl. now apply extract_quantity_shape with line (m_start m).
Qed.

Lemma find_products_among_shape (names : list str) (line : str) :
  forall found, _find_products_among U names line = Some found ->
    Forall (fun f => shape_ok (snd (fst f)) (snd f)) found.
Proof.
  induction names as [|nm names IH]; simpl; intros found.
  - intros [= <-]. constructor.
  - destruct (near_matches U line nm (finditer U (Lits nm) line))
      as [here|] eqn:Hh; [|discriminate]. simpl.
    destruct (_find_products_among U names line) as [rest|]; [|discriminate].
    simpl. intros [= <-]. apply Forall_app. split.
    + now apply near_matches_shape in Hh.
    + now apply IH.
Qed.

Lemma mentions_shape (context : str)
    (found : list (str * option float * option str)) :
  Forall (fun f => shape_ok (snd (fst f)) (snd f)) found ->
  Forall mention_shape (map (mention price_list context) found).
Proof.
  induction 1 as [|[[nm q] u] found H _ IH]; simpl; constructor;
    [split; [exact H|reflexivity]|exact IH].
Qed.

Lemma products_of_lines_shape (lines : list str) :
  forall products, products_of_lines U price_list lines = Some products ->
    Forall mention_shape products.
Proof.
  induction lines as [|line lines IH]; simpl; intros products.
  - intros [= <-]. constructor.
  - destruct (strip line) as [|c l]; [apply IH|].
    destruct (_find_products_in_line U price_list (c :: l)) as [found|] eqn:Hf;
      [|discriminate]. simpl.
    destruct (products_of_lines U price_list lines) as [rest|]; [|discriminate].
    simpl. intros [= <-]. apply Forall_app. split; [|now apply IH].
    apply mentions_shape. now apply find_products_among_shape in Hf.
Qed.

Lemma extract_products_shape (content : str) :
  forall products, _extract_products U price_list content = Some products ->
    Forall mention_shape products.
Proof.
  unfold _extract_products. intros products.
  destruct (products_of_lines U price_list (split_lines content)) as [ps|] eqn:Hp;
    [|discriminate]. simpl.
  destruct ps as [|p ps].
  - destruct (_find_products_in_line U price_list content) as [found|] eqn:Hf;
      [|discriminate]. simpl. intros [= <-].
    apply mentions_shape. now apply find_products_among_shape in Hf.
  - intros [= <-]. now apply products_of_lines_shape in Hp.
Qed.

End MentionShape.

Import EmailParser.

(** X2. In every parsed event a mention without a quantity has no unit, and
    its notes say what is missing: "Complete information extracted" with
    both, "Unit not specified" with a quantity alone, and "Quantity not
    specified; Unit not specified" with neither. *)
Theorem X2_unit_needs_quantity (U : ucd) (price_list : price_list_t)
    (extract_sender : str -> sender_t) (now : Z) (content email_id : str) :
  exists e,
    parse_email U price_list extract_sender now content email_id = Some e /\
    forall p, In p (products e) ->
      (quantity p = None -> unit p = None) /\
      notes p =
        match quantity p, unit p with
        | Some _, Some _ => lit "Complete information extracted"
        | Some _, None => lit "Unit not specified"
        | None, _ => lit "Quantity not specified; Unit not specified"
        end.
Proof.
  unfold parse_email.
  destruct (extract_products_total U price_list (_clean_content U content))
    as (ps & Hps & _).
  pose proof (extract_products_shape U price_list _ Hps) as Hs.
  rewrite Hps. simpl. eexists. split; [reflexivity|]. simpl.
  intros p Hin. rewrite Forall_forall in Hs.
  destruct (Hs p Hin) as [[Hq _] Hn]. split; [exact Hq|].
  rewrite Hn. destruct (quantity p) as [v|].
  - destruct (unit p); reflexivity.
  - rewrite (Hq eq_refl). reflexivity.
Qed.

(** X3. The unit of a mention is absent or one of the six names of the unit
    table: piece, kit, pack, box, set, unit. *)
Theorem X3_unit_is_from_the_table (U : ucd) (price_list : price_list_t)
    (extract_sender : str -> sender_t) (now : Z) (content email_id : str) :
  exists e,
    parse_email U price_list extract_sender now content email_id = Some e /\
    forall p w, In p (products e) -> unit p = Some w ->
      In w [lit "piece"; lit "kit"; lit "pack"; lit "box"; lit "set"; lit "unit"].
Proof.
  unfold parse_email.
  destruct (extract_products_total U price_list (_clean_content U content))
    as (ps & Hps & _).
  pose proof (extract_products_shape U price_list _ Hps) as Hs.
  rewrite Hps. simpl. eexists. split; [reflexivity|]. simpl.
  intros p w Hin Hu. rewrite Forall_forall in Hs.
  destruct (Hs p Hin) as [[_ Hw] _]. exact (Hw w Hu).
Qed.

(** X4. [_identify_gaps] returns no gap exactly when the sender's confidence
    is not below 0.7, there is a product, and every product has a quantity
    and a confidence not below 0.6. *)
Theorem X4_no_gaps_iff (products : list product) (sender : sender_t) :
  _identify_gaps products sender = [] <->
  F64.ltb (sender_confidence sender) c0_7 = false /\
  products <> [] /\
  forall p, In p products ->
    quantity p <> None /\ F64.ltb (confidence p) c0_6 = false.
Proof.
  unfold _identify_gaps.
  assert (Hg : forall ps,
            product_gaps ps = [] <->
            forall p, In p ps ->
              quantity p <> None /\ F64.ltb (confidence p) c0_6 = false).
  { induction ps as [|p ps IH]; simpl.
    - split; [intros _ p []|reflexivity].
    - split.
      + intros H. apply app_eq_nil in H as [Hq H].
        apply app_eq_nil in H as [Hc H].
        intros x [<-|Hx].
        * split; [destruct (quantity p); [discriminate|discriminate Hq]|].
          destruct (F64.ltb (confidence p) c0_6); [discriminate Hc|reflexivity].
        * now apply IH.
      + intros H. destruct (H p (or_introl eq_refl)) as [Hq Hc].
        rewrite Hc. destruct (quantity p); [|congruence]. simpl.
        apply IH. intros x Hx. apply H. now right. }
  destruct (F64.ltb (sender_confidence sender) c0_7).
  - split; [|intros [H _]; discriminate].
    destruct products; discriminate.
  - destruct products as [|p ps]; cbn [app].
    + split; [discriminate|]. intros (_ & H & _). congruence.
    + rewrite Hg. split.
      * intros H. split; [reflexivity|]. split; [discriminate|exact H].
      * intros (_ & _ & H). exact H.
Qed.

(* ================================================================== *)
(** * Properties of the pipeline: extractor, then quote engine *)

Section PipelineProperties.

Import QuoteGenerator WorkflowOrchestrator.

Variable U : ucd.
Variable price_list : price_list_t.
Variable discount_rules : discount_rules_t.
Variable config : config_t.

Lemma lookup_key (n : str) (pl : price_list_t) :
  In n (map fst pl) -> in_price_list n pl = true.
Proof.
  unfold in_price_list. induction pl as [|[k v] pl IH]; simpl; [intros []|].
  intros [->|H].
  - now rewrite str_eqb_refl.
  - destruct (str_eqb n k); [reflexivity|now apply IH].
Qed.

Lemma mention_ok_known (p : product) :
  mention_ok price_list p -> known_and_sure price_list p.
Proof.
  intros H. split.
  - destruct H as (Hin & _). now apply lookup_key.
  - now apply mention_ok_confidence in H.
Qed.

Lemma all_known_of_sure (ps : list product) :
  Forall (known_and_sure price_list) ps ->
  (all_known price_list ps <-> forall p, In p ps -> quantity p <> None).
Proof.
  intros H. rewrite Forall_forall in H. unfold all_known. split.
  - intros Ha p Hin. now destruct (Ha p Hin).
  - intros Hq p Hin. split; [now destruct (H p Hin)|now apply Hq].
Qed.

(** For such mentions the reasons of a pending quote and the product gaps
    of the event are the same list. *)
Lemma pending_reasons_are_gaps (ps : list product) :
  Forall (known_and_sure price_list) ps ->
  pending_reasons_loop price_list ps = product_gaps ps.
Proof.
  induction 1 as [|p ps [Hk Hc] _ IH]; simpl; [reflexivity|].
  now rewrite Hk, Hc, IH.
Qed.

Lemma product_gaps_nil (ps : list product) :
  Forall (known_and_sure price_list) ps ->
  (product_gaps ps = [] <-> forall p, In p ps -> quantity p <> None).
Proof.
  induction 1 as [|p ps [Hk Hc] _ IH]; simpl.
  - split; [intros _ p []|reflexivity].
  - rewrite Hc. simpl. split.
    + intros H. apply app_eq_nil in H as [Hq H].
      intros x [<-|Hx]; [destruct (quantity p); [discriminate|discriminate Hq]|].
      now apply IH.
    + intros H. destruct (quantity p) eqn:Hq.
      * simpl. apply IH. intros x Hx. apply H. now right.
      * exfalso. now apply (H p (or_introl eq_refl)).
Qed.

Lemma product_gaps_not_sender (ps : list product) :
  Forall (known_and_sure price_list) ps ->
  (forall g, In g (product_gaps ps) -> g = lit "Unclear sender information") ->
  product_gaps ps = [].
Proof.
  induction 1 as [|p ps [Hk Hc] _ IH]; simpl; [reflexivity|].
  rewrite Hc. simpl. intros H. destruct (quantity p).
  - simpl in *. now apply IH.
  - exfalso. specialize (H _ (or_introl eq_refl)). discriminate H.
Qed.

Variable extract_sender : str -> sender_t.

(** The event of a text and its quote, with what is known of the
    mentions. *)
Lemma pipeline_cases (now : Z) (clock : Z * Z) (content email_id : str) :
  exists e q,
    parse_email U price_list extract_sender now content email_id = Some e /\
    generate price_list discount_rules config clock (as_event e) = Some q /\
    Forall (known_and_sure price_list) (products e) /\
    gaps e = _identify_gaps (products e) (sender e) /\
    (status q = lit "complete" <->
       products e <> [] /\ forall p, In p (products e) -> quantity p <> None) /\
    (status q = lit "complete" \/
     status q = lit "pending" /\
     pending_reasons q =
       match products e with
       | [] => [lit "No products identified in the inquiry"]
       | _ :: _ => pending_reasons_loop price_list (products e)
       end).
Proof.
  unfold parse_email.
  destruct (extract_products_total U price_list (_clean_content U content))
    as (ps & -> & Hok).
  cbn [bind]. eexists.
  set (e := {| email_id := email_id; products := ps |}).
  assert (Hsure : Forall (known_and_sure price_list) ps).
  { eapply Forall_impl; [|exact Hok]. apply mention_ok_known. }
  destruct (generate_cases price_list discount_rules config clock (as_event e))
    as [[Hc (q & Hq & Hs & _)]|[Hc Hq]].
  - exists q. split; [reflexivity|]. split; [exact Hq|].
    split; [exact Hsure|]. split; [reflexivity|].
    apply can_generate_spec in Hc. simpl in Hc.
    rewrite (all_known_of_sure Hsure) in Hc.
    split; [split; [intros _; exact Hc|intros _; exact Hs]|now left].
  - eexists. split; [reflexivity|]. split; [exact Hq|].
    split; [exact Hsure|]. split; [reflexivity|].
    simpl. split; [|right; split; reflexivity].
    split.
    + intros H. symmetry in H. now apply complete_is_not_pending in H.
    + intros H. exfalso.
      assert (Ht : _can_generate_complete_quote price_list ps = true).
      { apply can_generate_spec. now rewrite (all_known_of_sure Hsure). }
      simpl in Hc. congruence.
Qed.

End PipelineProperties.

Import QuoteGenerator WorkflowOrchestrator.


(** X6. On a parsed event a pending quote gives the reasons the parser gave
    as gaps, the sender's apart: with products, its reasons are the product
    gaps of the event; "Unrecognized product" is never among them. *)
Theorem X6_pipeline_pending_reasons
  (U : ucd) (price_list : price_list_t) (discount_rules : discount_rules_t)
  (config : config_t) (extract_sender : str -> sender_t)
  (now : Z) (clock : Z * Z) (content email_id : str) :
  exists e q,
    parse_email U price_list extract_sender now content email_id = Some e /\
    generate price_list discount_rules config clock (as_event e) = Some q /\
    (status q = lit "complete" \/
     status q = lit "pending" /\
     pending_reasons q =
       match products e with
       | [] => [lit "No products identified in the inquiry"]
       | _ :: _ => product_gaps (products e)
       end /\
     forall n, ~ In (lit "Unrecognized product: " ++ n) (pending_reasons q)).
Proof.
  destruct (pipeline_cases U price_list discount_rules config extract_sender
              now clock content email_id)
    as (e & q & He & Hq & Hsure & _ & _ & Hp).
  exists e, q. split; [exact He|]. split; [exact Hq|].
  destruct Hp as [Hp|[Hs Hr]]; [now left|right].
  split; [exact Hs|].
  assert (Hr' : pending_reasons q =
            match products e with
            | [] => [lit "No products identified in the inquiry"]
            | _ :: _ => product_gaps (products e)
            end).
  { rewrite Hr. destruct (products e) eqn:E; [reflexivity|].
    rewrite <- E in *. now apply pending_reasons_are_gaps. }
  split; [exact Hr'|].
  intros n Hin. rewrite Hr' in Hin.
  destruct (products e) as [|p0 ps] eqn:E.
  - destruct Hin as [H|[]]. discriminate H.
  - rewrite <- E in *. clear E Hr Hr'.
    induction Hsure as [|x xs [_ Hc] _ IH]; simpl in Hin; [exact Hin|].
    rewrite Hc in Hin. simpl in Hin.
    apply in_app_or in Hin as [Hin|Hin]; [|now apply IH].
    destruct (quantity x); [exact Hin|].
    destruct Hin as [H|[]]. discriminate H.
Qed.

(** X7. The parser's gaps decide the quote: the quote of a parsed event is
    complete exactly when the event has no gap other than "Unclear sender
    information". *)
Theorem X7_pipeline_gaps_decide
  (U : ucd) (price_list : price_list_t) (discount_rules : discount_rules_t)
  (config : config_t) (extract_sender : str -> sender_t)
  (now : Z) (clock : Z * Z) (content email_id : str) :
  exists e q,
    parse_email U price_list extract_sender now content email_id = Some e /\
    generate price_list discount_rules config clock (as_event e) = Some q /\
    (status q = lit "complete" <->
       forall g, In g (gaps e) -> g = lit "Unclear sender information").
Proof.
  destruct (pipeline_cases U price_list discount_rules config extract_sender
              now clock content email_id)
    as (e & q & He & Hq & Hsure & Hg & Hc & _).
  exists e, q. split; [exact He|]. split; [exact Hq|].
  rewrite Hc, Hg. unfold _identify_gaps.
  set (s := if F64.ltb (sender_confidence (sender e)) c0_7
            then [lit "Unclear sender information"] else []).
  assert (Hs : forall g, In g s -> g = lit "Unclear sender information").
  { subst s. destruct (F64.ltb _ _); intros g [].
    - now subst. - contradiction. }
  destruct (products e) as [|p0 ps] eqn:E.
  - split; [intros [H _]; congruence|].
    intros H. exfalso.
    assert (Hin : In (lit "No products identified") (s ++ [lit "No products identified"])).
    { apply in_or_app. right. now left. }
    apply H in Hin. discriminate Hin.
  - rewrite <- E in *. split.
    + intros [_ H] g Hin. apply (product_gaps_nil Hsure) in H.
      rewrite H, app_nil_r in Hin. now apply Hs.
    + intros H. split; [rewrite E; discriminate|].
      apply (product_gaps_nil Hsure).
      apply (product_gaps_not_sender Hsure).
      intros g Hin. apply H. apply in_or_app. now right.
Qed.

(* ================================================================== *)
(** * Further properties of the quote engine *)

Section QuoteInvariants.

Variable price_list : price_list_t.
Variable discount_rules : discount_rules_t.
Variable config : config_t.

Lemma line_items_loop_spec (products : list product) :
  forall items sub items' sub',
    line_items_loop price_list products items sub = Some (items', sub') ->
    exists new,
      items' = items ++ new /\ Forall2 (priced price_list) products new /\
      sub' = fold_left F64.add (map li_total new) sub.
Proof.
  induction products as [|p ps IH]; intros items sub items' sub' H.
  - simpl in H. injection H as <- <-. exists []. rewrite app_nil_r. auto.
  - cbn [line_items_loop] in H. unfold bind in H.
    destruct (lookup (name p) price_list) as [pi|] eqn:Hl; [|discriminate].
    destruct (quantity p) as [q|] eqn:Hq; [|discriminate].
    apply IH in H as (new & -> & Hf & ->).
    eexists (_ :: new). rewrite <- app_assoc. split; [reflexivity|].
    split; [|reflexivity].
    constructor; [|exact Hf]. exists pi, q. auto.
Qed.

Lemma sum_totals_as_dict (items : list line_item) (acc : float) :
  fold_left (fun acc item => F64.add acc (get_number (it_total item)))
    (map (fun it => {| it_total := Some (li_total it) |}) items) acc =
  fold_left F64.add (map li_total items) acc.
Proof.
  revert acc. induction items as [|it items IH]; intros acc; simpl;
    [reflexivity|apply IH].
Qed.

(** The quote of an event, by cases. *)
Lemma generate_shape (clock : Z * Z) (ev : event) :
  exists q,
    generate price_list discount_rules config clock ev = Some q /\
    ((status q = lit "pending" /\ line_items q = [] /\
      subtotal q = F64.zero /\ discount q = F64.zero /\ tax q = F64.zero /\
      total q = F64.zero /\ pending_reasons q <> []) \/
     (status q = lit "complete" /\ pending_reasons q = [] /\
      ev_products ev <> [] /\
      Forall2 (priced price_list) (ev_products ev) (line_items q) /\
      let s := fold_left F64.add (map li_total (line_items q)) F64.zero in
      let d := F64.mul s (_calculate_discount_rate discount_rules s) in
      let t := F64.mul (F64.sub s d) (tax_rate config) in
      subtotal q = F64.round s 2 /\ discount q = F64.round d 2 /\
      tax q = F64.round t 2 /\ total q = F64.round (F64.add (F64.sub s d) t) 2)).
Proof.
  unfold generate.
  destruct (_can_generate_complete_quote price_list (ev_products ev)) eqn:Hc.
  - unfold _can_generate_complete_quote in Hc.
    destruct (ev_products ev) as [|p ps] eqn:E; [discriminate|].
    unfold _generate_complete_quote.
    destruct (line_items_loop_total _ _ Hc [] F64.zero) as [[items sub] Hl].
    rewrite Hl. cbn [bind]. eexists. split; [reflexivity|]. right.
    apply line_items_loop_spec in Hl as (new & -> & Hf & ->).
    cbn [app status pending_reasons line_items subtotal discount tax total].
    repeat split; try reflexivity; [discriminate|exact Hf].
  - eexists. split; [reflexivity|]. left.
    cbn [_generate_pending_quote status pending_reasons line_items subtotal
         discount tax total].
    repeat split; try reflexivity.
    unfold _can_generate_complete_quote in Hc.
    destruct (ev_products ev); [discriminate|].
    now apply pending_reasons_loop_nonempty.
Qed.

End QuoteInvariants.


(** X9. What [validate_quote] says of the quotes that [generate] returns: a
    pending quote has no error; a complete quote has no missing field and
    does not lack line items, so that its only possible errors are
    "Complete quote must have positive total", given exactly when its total
    is at most 0, and "Subtotal calculation mismatch". *)
Theorem X9_generated_quotes_validate
  (price_list : price_list_t) (discount_rules : discount_rules_t)
  (config : config_t) (clock : Z * Z) (ev : event) :
  exists q,
    generate price_list discount_rules config clock ev = Some q /\
    ((status q = lit "pending" /\ validate_quote (as_dict q) = []) \/
     (status q = lit "complete" /\
      validate_quote (as_dict q) =
        (if F64.leb (total q) F64.zero
         then [lit "Complete quote must have positive total"] else []) ++
        (if F64.ltb (F64.dec 1 2)
              (SFabs (F64.sub
                 (fold_left F64.add (map li_total (line_items q)) F64.zero)
                 (subtotal q)))
         then [lit "Subtotal calculation mismatch"] else []))).
Proof.
  destruct (generate_shape price_list discount_rules config clock ev)
    as (q & Hq & [H|H]); exists q; (split; [exact Hq|]).
  - left. destruct H as (Hs & Hl & _ & _ & _ & Ht & Hr). split; [exact Hs|].
    unfold validate_quote, status_is, as_dict. simpl.
    rewrite Hs, Ht. simpl.
    destruct (pending_reasons q); [congruence|reflexivity].
  - right. destruct H as (Hs & _ & Hne & Hf & _). split; [exact Hs|].
    unfold validate_quote, status_is, as_dict. simpl.
    rewrite Hs. simpl.
    destruct (line_items q) as [|it its] eqn:E.
    + inversion Hf. congruence.
    + cbn [map is_empty negb app]. unfold sum_totals.
      rewrite <- (map_cons (fun it => {| it_total := Some (li_total it) |})).
      rewrite sum_totals_as_dict.
      destruct (F64.leb (total q) F64.zero), (F64.ltb _ _); reflexivity.
Qed.

(* ================================================================== *)
(** * Properties of the inbox loop *)

Section InboxProperties.

Import WorkflowOrchestrator.

Variable file : Type.
Variable process_email : file -> option bool.

Lemma count_files_spec (email_files : list file) (processed failed : nat) :
  count_files process_email email_files processed failed =
    (processed + length (filter (went_through process_email) email_files),
     failed + length (filter (fun f => negb (went_through process_email f)) email_files)).
Proof.
  revert processed failed.
  induction email_files as [|f fs IH]; intros processed failed.
  - simpl. f_equal; lia.
  - cbn [count_files filter].
    assert (W : went_through process_email f =
                match process_email f with Some true => true | _ => false end)
      by reflexivity.
    destruct (process_email f) as [[|]|]; rewrite IH, W; simpl; f_equal; lia.
Qed.

Lemma filter_split_length (l : list file) :
  length (filter (went_through process_email) l) +
  length (filter (fun f => negb (went_through process_email f)) l) = length l.
Proof.
  induction l as [|f fs IH]; simpl; [reflexivity|].
  destruct (went_through process_email f); simpl; lia.
Qed.


End InboxProperties.

Import WorkflowOrchestrator.

(** X10. The counters of [process_inbox] on a directory that has files:
    every file is counted once, as processed when [process_email] returns
    true and as failed when it returns false or raises; nothing is ever
    counted as skipped, and the total is the number of files. *)
Theorem X10_process_inbox_counts (file : Type) (process_email : file -> option bool)
  (f : file) (fs : list file) :
  exists r,
    process_inbox process_email (Some (f :: fs)) = Some r /\
    r_processed r = length (filter (went_through process_email) (f :: fs)) /\
    r_failed r =
      length (filter (fun x => negb (went_through process_email x)) (f :: fs)) /\
    r_processed r + r_failed r = length (f :: fs) /\
    r_skipped r = 0 /\
    r_total r = Some (length (f :: fs)).
Proof.
  unfold process_inbox. rewrite count_files_spec.
  eexists. split; [reflexivity|].
  cbn [r_processed r_failed r_skipped r_total].
  repeat split. apply filter_split_length.
Qed.


(* ================================================================== *)
(** * Properties of the activity log *)

Section LogProperties.

Import ActivityLogger.

Variable activity : Type.
Variable json_loads : str -> option activity.

Lemma decode_lines_length (lines : list str) :
  length (decode_lines json_loads lines) <= length lines.
Proof.
  induction lines as [|l ls IH]; simpl; [lia|].
  destruct (json_loads (strip l)); simpl; lia.
Qed.

Lemma decode_lines_app (a b : list str) :
  decode_lines json_loads (a ++ b) =
  decode_lines json_loads a ++ decode_lines json_loads b.
Proof.
  induction a as [|l ls IH]; simpl; [reflexivity|].
  destruct (json_loads (strip l)); simpl; now rewrite IH.
Qed.

End LogProperties.

Import ActivityLogger.

(** X12. [get_recent_activities] by the sign of its limit.  With a positive
    limit it decodes the last [limit] lines of the log, so that it returns at
    most [limit] entries; with the limit 0 it returns the entries of the
    whole log, not none; with a negative limit [-k] it drops the first [k]
    lines.  Lines that do not decode are passed over, and without a log file
    the result is empty. *)
Theorem X12_recent_activities_by_limit (activity : Type)
  (json_loads : str -> option activity) (lines : list str) (p : positive) :
  let recent := get_recent_activities json_loads (Some lines) in
  recent (Z.pos p) =
    decode_lines json_loads (skipn (length lines - Pos.to_nat p) lines) /\
  length (recent (Z.pos p)) <= Pos.to_nat p /\
  recent 0%Z = decode_lines json_loads lines /\
  recent (Z.neg p) = decode_lines json_loads (skipn (Pos.to_nat p) lines) /\
  forall limit, get_recent_activities json_loads None limit = [].
Proof.
  intros recent.
  assert (E : recent (Z.pos p) =
    decode_lines json_loads (skipn (length lines - Pos.to_nat p) lines)).
  { subst recent. unfold get_recent_activities, slice_from.
    destruct (Z.ltb_spec (Z.pos p) (Z.of_nat (length lines))) as [H|H].
    - change (- Z.pos p <? 0)%Z with true. cbn iota. repeat f_equal; lia.
    - replace (length lines - Pos.to_nat p) with 0 by lia. reflexivity. }
  split; [exact E|]. split; [|split; [|split]].
  - rewrite E.
    etransitivity; [apply decode_lines_length|].
    rewrite length_skipn. lia.
  - subst recent. unfold get_recent_activities, slice_from.
    destruct (0 <? Z.of_nat (length lines))%Z; reflexivity.
  - subst recent. unfold get_recent_activities, slice_from.
    assert (H : (Z.neg p <? Z.of_nat (length lines))%Z = true)
      by (apply Z.ltb_lt; lia).
    rewrite H. change (- Z.neg p)%Z with (Z.pos p).
    change (Z.pos p <? 0)%Z with false. cbn iota. repeat f_equal; lia.
  - reflexivity.
Qed.

(* ================================================================== *)
(** * Properties of the questions of an acknowledgment *)

Section QuestionProperties.

Import AcknowledgmentGenerator.

Variable U : ucd.
Variable products : list product.

Lemma questions_loop_inv (gaps : list str) :
  forall questions question_count,
    question_count = length questions -> question_count <= max_questions ->
    Forall (askable products) questions ->
    forall qs n, questions_loop U gaps products questions question_count = (qs, n) ->
    n = length qs /\ n <= max_questions /\ Forall (askable products) qs.
Proof.
  induction gaps as [|gap gaps IH]; intros questions question_count Hn Hle Hq qs n.
  - simpl. intros [= <- <-]. auto.
  - cbn [questions_loop].
    assert (Step : forall q, askable products q -> (max_questions <=? question_count) = false ->
              questions_loop U gaps products (questions ++ [q]) (S question_count)
                = (qs, n) ->
              n = length qs /\ n <= max_questions /\ Forall (askable products) qs).
    { intros q Ha Hlt. apply IH.
      - rewrite length_app. simpl. lia.
      - apply Nat.leb_gt in Hlt. lia.
      - apply Forall_app. split; [exact Hq|]. constructor; [exact Ha|constructor]. }
    destruct (max_questions <=? question_count) eqn:Hlt.
    { intros [= <- <-]. auto. }
    destruct (contains (lit "quantity") (uc_lower U gap)).
    { destruct (first_without_quantity products) as [p|] eqn:Hp.
      - apply Step; [|reflexivity]. do 4 right. exists p. auto.
      - now apply IH. }
    destruct (contains (lit "product") (uc_lower U gap) &&
              contains (lit "unrecognized") (uc_lower U gap)).
    { apply Step; [|reflexivity]. now left. }
    destruct (contains (lit "sender") (uc_lower U gap)).
    { apply Step; [|reflexivity]. right. now left. }
    now apply IH.
Qed.

End QuestionProperties.

Import AcknowledgmentGenerator.

(** X13. [_generate_questions] always asks one or two questions.  Each is
    one of the four fixed questions or the quantity question of the first
    product without a quantity: no other product is ever asked about,
    however many gaps name a missing quantity.  Without gaps it asks for the
    delivery requirements, after asking what products are wanted when there
    are none. *)
Theorem X13_one_or_two_questions (U : ucd) (gaps : list str) (products : list product) :
  let qs := _generate_questions U gaps products in
  1 <= length qs <= 2 /\
  Forall (askable products) qs /\
  _generate_questions U [] products =
    match products with
    | [] => [question_products; question_delivery]
    | _ :: _ => [question_delivery]
    end.
Proof.
  intros qs. split; [|split].
  - subst qs. unfold _generate_questions.
    destruct (questions_loop U gaps products [] 0) as [questions n] eqn:E.
    apply questions_loop_inv in E as (Hn & Hle & _);
      [|reflexivity|unfold max_questions; lia|constructor].
    unfold max_questions in *.
    destruct questions as [|q [|q' [|q'' questions]]]; simpl in *; subst n;
      try lia.
    destruct products; simpl; lia.
  - subst qs. unfold _generate_questions.
    destruct (questions_loop U gaps products [] 0) as [questions n] eqn:E.
    apply questions_loop_inv in E as (Hn & Hle & Hq);
      [|reflexivity|unfold max_questions; lia|constructor].
    destruct questions as [|q questions].
    + simpl in Hn. subst n. simpl.
      destruct products; simpl;
        repeat (apply Forall_cons || apply Forall_nil); unfold askable; auto 6.
    + rewrite firstn_all2; [exact Hq|]. now rewrite <- Hn.
  - destruct products; reflexivity.
Qed.

(* ================================================================== *)
(** * Properties of the sender *)

Import EmailParser.

(** X14. The confidence of [_extract_sender] takes four values: 0.5 with
    neither a name nor an address, 0.7 with an address only, 0.8 with a name
    only, 1.0 with both.  So the sender is reported as unclear (confidence
    below 0.7) exactly when the text holds no e-mail address and no "From:"
    line that either name pattern matches; an address alone is enough. *)
Theorem X14_sender_unclear_iff (U : ucd) (content : str) (products : list product) :
  let s := _extract_sender U content in
  let emails := Rx.findall U email_pattern content in
  let named := match Rx.search U name_pattern content with
               | Some _ => true
               | None => match Rx.search U fallback_pattern content with
                         | Some _ => true
                         | None => false
                         end
               end in
  sender_confidence s =
    match named, emails with
    | false, [] => F64.dec 5 1
    | false, _ :: _ => F64.dec 7 1
    | true, [] => F64.dec 8 1
    | true, _ :: _ => F64.dec 10 1
    end /\
  (F64.ltb (sender_confidence s) c0_7 = true <-> named = false /\ emails = []) /\
  (In (lit "Unclear sender information") (_identify_gaps products s) <->
   named = false /\ emails = []).
Proof.
  intros s emails named.
  assert (E : sender_confidence s =
    match named, emails with
    | false, [] => F64.dec 5 1
    | false, _ :: _ => F64.dec 7 1
    | true, [] => F64.dec 8 1
    | true, _ :: _ => F64.dec 10 1
    end).
  { subst s emails named. unfold _extract_sender.
    destruct (Rx.search U name_pattern content) as [m|];
      [|destruct (Rx.search U fallback_pattern content) as [m|]];
      destruct (Rx.findall U email_pattern content);
      cbn [sender_confidence]; try reflexivity; now vm_compute. }
  assert (L : F64.ltb (sender_confidence s) c0_7 = true <->
              named = false /\ emails = []).
  { rewrite E. destruct named, emails as [|e es]; vm_compute;
      split; try discriminate; try (intros [? ?]; discriminate); auto. }
  split; [exact E|]. split; [exact L|].
  etransitivity; [|exact L]. clear E L. unfold _identify_gaps.
  destruct (F64.ltb (sender_confidence s) c0_7).
  - split; [reflexivity|]. intros _.
    destruct products; apply in_or_app; left; now left.
  - split; [|discriminate]. intros H. exfalso.
    destruct products as [|p ps]; cbn [app] in H.
    + destruct H as [H|[]]. discriminate H.
    + revert H. generalize (p :: ps). intros l.
      induction l as [|x xs IH]; simpl; [auto|].
      intros H. apply in_app_or in H as [H|H].
      * destruct (quantity x); [exact H|]. destruct H as [H|[]]. discriminate H.
      * apply in_app_or in H as [H|H]; [|now apply IH].
        destruct (F64.ltb (confidence x) c0_6); [|exact H].
        destruct H as [H|[]]. discriminate H.
Qed.

(* ================================================================== *)
(** * Properties of the default discount table *)

Section FloatOrder.

(** Away from NaN the comparisons of floats are those of a total order. *)
Lemma ltb_negb_leb (x y : float) :
  is_nan x = false -> is_nan y = false ->
  F64.ltb x y = negb (F64.leb y x).
Proof.
  unfold F64.ltb, F64.leb, SFltb, SFleb.
  destruct x as [sx|sx| |sx mx ex], y as [sy|sy| |sy my ey];
    try discriminate; intros _ _; simpl;
    try (destruct sx); try (destruct sy); try reflexivity.
  - rewrite (Z.compare_antisym ex ey).
    destruct (ex ?= ey)%Z; simpl; try reflexivity.
    assert (A := Pos.compare_cont_antisym mx my Eq). cbn [CompOpp] in A.
    rewrite <- A.
    destruct (Pos.compare_cont Eq mx my); reflexivity.
  - rewrite (Z.compare_antisym ex ey).
    destruct (ex ?= ey)%Z; simpl; try reflexivity.
    assert (A := Pos.compare_cont_antisym mx my Eq). cbn [CompOpp] in A.
    rewrite <- A.
    destruct (Pos.compare_cont Eq mx my); reflexivity.
Qed.

End FloatOrder.

Import QuoteGenerator WorkflowOrchestrator.

(** X15. The default discount table leaves no gap: every subtotal from 0 up
    to, not including, infinity gets a rate, 0.05 below 100, 0.10 below 500,
    0.15 below 1000 and 0.20 from there on.  A negative subtotal, infinity
    and NaN get the rate 0. *)
Theorem X15_default_tiers_cover (subtotal : float) :
  _calculate_discount_rate _get_default_discount_rules subtotal =
    if F64.leb F64.zero subtotal && F64.ltb subtotal F64.inf then
      if F64.ltb subtotal (F64.dec 100 0) then F64.dec 5 2
      else if F64.ltb subtotal (F64.dec 500 0) then F64.dec 10 2
      else if F64.ltb subtotal (F64.dec 1000 0) then F64.dec 15 2
      else F64.dec 20 2
    else F64.zero.
Proof.
  unfold _calculate_discount_rate, _get_default_discount_rules, mk_tier.
  cbn [tiers _calculate_discount_rate_loop]. unfold in_tier.
  cbn [min_amount max_amount tier_discount].
  assert (N100 : is_nan (F64.dec 100 0) = false) by reflexivity.
  assert (N500 : is_nan (F64.dec 500 0) = false) by reflexivity.
  assert (N1000 : is_nan (F64.dec 1000 0) = false) by reflexivity.
  assert (Z0 : F64.dec 0 0 = F64.zero) by reflexivity.
  assert (F100 : exists m e, F64.dec 100 0 = S754_finite false m e)
    by (vm_compute; eauto).
  assert (F500 : exists m e, F64.dec 500 0 = S754_finite false m e)
    by (vm_compute; eauto).
  assert (F1000 : exists m e, F64.dec 1000 0 = S754_finite false m e)
    by (vm_compute; eauto).
  rewrite Z0.
  destruct subtotal as [b|b| |b m e].
  - destruct F100 as (m1 & e1 & ->). destruct b; reflexivity.
  - destruct F100 as (m1 & e1 & ->), F500 as (m2 & e2 & ->),
      F1000 as (m3 & e3 & ->).
    destruct b; reflexivity.
  - destruct F100 as (m1 & e1 & ->), F500 as (m2 & e2 & ->),
      F1000 as (m3 & e3 & ->).
    reflexivity.
  - destruct b.
    + destruct F100 as (m1 & e1 & ->), F500 as (m2 & e2 & ->),
        F1000 as (m3 & e3 & ->).
      reflexivity.
    + set (s := S754_finite false m e).
      assert (Ns : is_nan s = false) by reflexivity.
      rewrite (@ltb_negb_leb s (F64.dec 100 0) Ns N100),
        (@ltb_negb_leb s (F64.dec 500 0) Ns N500),
        (@ltb_negb_leb s (F64.dec 1000 0) Ns N1000).
      change (F64.leb F64.zero s) with true.
      change (F64.ltb s F64.inf) with true.
      cbn [andb].
      destruct (F64.leb (F64.dec 100 0) s), (F64.leb (F64.dec 500 0) s),
        (F64.leb (F64.dec 1000 0) s); reflexivity.
Qed.

(* ================================================================== *)
(** * Further properties of cleaning *)

Section StripProperties.

Lemma lstrip_idem (s : str) : lstrip (lstrip s) = lstrip s.
Proof.
  induction s as [|c s IH]; simpl; [reflexivity|].
  destruct (isspace c) eqn:E; [exact IH|]. simpl. now rewrite E.
Qed.

Lemma lstrip_head (s : str) (c : char) (r : str) :
  lstrip s = c :: r -> isspace c = false.
Proof.
  induction s as [|x s IH]; simpl; [discriminate|].
  destruct (isspace x) eqn:E; [exact IH|]. intros [= <- _]. exact E.
Qed.

Lemma lstrip_suffix (s : str) : exists a, s = a ++ lstrip s.
Proof.
  induction s as [|x s [a IH]]; simpl; [now exists []|].
  destruct (isspace x).
  - exists (x :: a). simpl. now rewrite <- IH.
  - now exists [].
Qed.

Lemma lstrip_app_ink (a : str) (c : char) :
  isspace c = false -> exists u, lstrip (a ++ [c]) = u ++ [c].
Proof.
  intros Hc. induction a as [|x a IH]; simpl.
  - rewrite Hc. now exists [].
  - destruct (isspace x); [exact IH|]. now exists (x :: a).
Qed.

Lemma rstrip_cons_ink (c : char) (t : str) :
  isspace c = false -> exists t', rstrip (c :: t) = c :: t'.
Proof.
  intros Hc. unfold rstrip. simpl rev.
  destruct (@lstrip_app_ink (rev t) c Hc) as [u ->].
  rewrite rev_app_distr. simpl. now exists (rev u).
Qed.

Lemma rstrip_prefix (s : str) : exists b, s = rstrip s ++ b.
Proof.
  unfold rstrip. destruct (lstrip_suffix (rev s)) as [a E].
  exists (rev a). rewrite <- rev_app_distr, <- E. now rewrite rev_involutive.
Qed.

Lemma rstrip_idem (s : str) : rstrip (rstrip s) = rstrip s.
Proof. unfold rstrip. now rewrite rev_involutive, lstrip_idem. Qed.

Lemma lstrip_strip (s : str) : lstrip (strip s) = strip s.
Proof.
  unfold strip. destruct (lstrip s) as [|c r] eqn:E; [reflexivity|].
  apply lstrip_head in E.
  destruct (@rstrip_cons_ink c r E) as [t' ->]. simpl. now rewrite E.
Qed.

Lemma strip_idem (s : str) : strip (strip s) = strip s.
Proof.
  unfold strip at 1. rewrite lstrip_strip. unfold strip. apply rstrip_idem.
Qed.

Lemma strip_middle (s : str) : exists a b, s = a ++ strip s ++ b.
Proof.
  unfold strip. destruct (lstrip_suffix s) as [a Ea].
  destruct (rstrip_prefix (lstrip s)) as [b Eb].
  exists a, b. now rewrite <- Eb.
Qed.

Lemma strip_head (k : char) (l : str) :
  startswith k (strip l) = startswith k (lstrip l).
Proof.
  unfold strip. destruct (lstrip l) as [|c r] eqn:E; [reflexivity|].
  apply lstrip_head in E. now destruct (@rstrip_cons_ink c r E) as [t' ->].
Qed.

Lemma is_quoted_cons (c : char) (l : str) :
  EmailParser.is_quoted (c :: l) =
    if isspace c then EmailParser.is_quoted l
    else ((c =? GT)%N || (c =? BAR)%N).
Proof.
  unfold EmailParser.is_quoted. rewrite !strip_head. simpl.
  destruct (isspace c); reflexivity.
Qed.

End StripProperties.

Section LineProperties.

Lemma lines_nonempty (s : str) : lines s <> [].
Proof.
  destruct s as [|c s]; simpl; [discriminate|].
  destruct (c =? NL)%N; [discriminate|]. destruct (lines s); discriminate.
Qed.

Lemma split_lines_from_lines (s : str) :
  forall cur,
    split_lines_from cur s = (rev cur ++ hd [] (lines s)) :: tl (lines s).
Proof.
  induction s as [|c s IH]; intros cur; simpl.
  - now rewrite app_nil_r.
  - destruct (c =? NL)%N.
    + rewrite IH. simpl. rewrite app_nil_r. f_equal.
      pose proof (lines_nonempty s). now destruct (lines s).
    + rewrite IH. simpl. rewrite <- app_assoc. now destruct (lines s).
Qed.

Lemma split_lines_lines (s : str) : split_lines s = lines s.
Proof.
  unfold split_lines. rewrite split_lines_from_lines. simpl.
  pose proof (lines_nonempty s). now destruct (lines s).
Qed.

Lemma join_lines (s : str) : join [NL] (lines s) = s.
Proof.
  induction s as [|c s IH]; [reflexivity|].
  cbn [lines]. destruct (N.eqb_spec c NL) as [->|Hc].
  - pose proof (lines_nonempty s). destruct (lines s) as [|l ls]; [congruence|].
    change (join [NL] ([] :: l :: ls)) with ([] ++ [NL] ++ join [NL] (l :: ls)).
    now rewrite IH.
  - destruct (lines s) as [|l ls].
    + simpl in IH. now subst s.
    + destruct ls as [|l2 ls]; [simpl in *; now subst s|].
      change (join [NL] ((c :: l) :: l2 :: ls))
        with ((c :: l) ++ [NL] ++ join [NL] (l2 :: ls)).
      rewrite <- IH. reflexivity.
Qed.

Lemma lines_nl_free (s : str) : Forall (fun l => nl_free l = true) (lines s).
Proof.
  induction s as [|c s IH]; simpl; [now constructor|].
  destruct (c =? NL)%N eqn:E.
  - now constructor.
  - destruct (lines s) as [|l ls].
    + constructor; [|constructor]. simpl. now rewrite E.
    + inversion IH; subst. constructor; [|assumption]. simpl. now rewrite E.
Qed.

(** The one-pass reading agrees with the test of each line. *)
Lemma quoted_line_lines (s : str) :
  existsb EmailParser.is_quoted (lines s) = quoted_line true s /\
  existsb EmailParser.is_quoted (tl (lines s)) = quoted_line false s.
Proof.
  induction s as [|c s [IHa IHb]]; [split; reflexivity|].
  cbn [lines quoted_line]. destruct (c =? NL)%N eqn:E.
  - split; [exact IHa|exact IHa].
  - pose proof (lines_nonempty s) as Hne.
    destruct (lines s) as [|l ls]; [congruence|].
    cbn [tl existsb] in *. split; [|exact IHb].
    rewrite is_quoted_cons.
    destruct ((c =? GT)%N || (c =? BAR)%N) eqn:Eq.
    + assert (Hs : isspace c = false).
      { apply orb_true_iff in Eq as [H|H]; apply N.eqb_eq in H; now subst c. }
      now rewrite Hs.
    + destruct (isspace c); [exact IHa|exact IHb].
Qed.

Lemma quoted_line_prefix (p t : str) :
  forall ws, quoted_line ws (p ++ t) = false -> quoted_line ws p = false.
Proof.
  induction p as [|c p IH]; intros ws; simpl; [reflexivity|].
  destruct (c =? NL)%N; [apply IH|].
  destruct ws; [|apply IH].
  destruct ((c =? GT)%N || (c =? BAR)%N); [discriminate|apply IH].
Qed.

Lemma quoted_line_lstrip (s : str) :
  quoted_line true s = false -> quoted_line true (lstrip s) = false.
Proof.
  induction s as [|c s IH]; [reflexivity|].
  cbn [lstrip]. destruct (isspace c) eqn:Hs; [|trivial].
  cbn [quoted_line]. rewrite Hs.
  destruct (c =? NL)%N; [exact IH|].
  destruct ((c =? GT)%N || (c =? BAR)%N); [discriminate|exact IH].
Qed.

Lemma quoted_line_strip (s : str) :
  quoted_line true s = false -> quoted_line true (strip s) = false.
Proof.
  intros H. apply quoted_line_lstrip in H. unfold strip.
  destruct (rstrip_prefix (lstrip s)) as [b E]. rewrite E in H.
  now apply quoted_line_prefix in H.
Qed.

End LineProperties.

Section KeptLines.

Lemma quoted_line_text (l r : str) :
  nl_free l = true ->
  quoted_line false l = false /\
  quoted_line false (l ++ NL :: r) = quoted_line true r.
Proof.
  induction l as [|c l IH]; simpl; [auto|].
  destruct (c =? NL)%N; [discriminate|]. exact IH.
Qed.

Lemma quoted_line_line (l r : str) :
  nl_free l = true ->
  quoted_line true l = EmailParser.is_quoted l /\
  quoted_line true (l ++ NL :: r) =
    EmailParser.is_quoted l || quoted_line true r.
Proof.
  induction l as [|c l IH]; [simpl; auto|].
  intros H. rewrite is_quoted_cons.
  pose proof (@quoted_line_text l r) as T.
  simpl in H |- *. destruct (c =? NL)%N; [discriminate|]. simpl in H.
  destruct ((c =? GT)%N || (c =? BAR)%N) eqn:Eq.
  - assert (Hs : isspace c = false).
    { apply orb_true_iff in Eq as [E|E]; apply N.eqb_eq in E; now subst c. }
    now rewrite Hs.
  - destruct (isspace c); [now apply IH|].
    destruct (T H) as [-> ->]. auto.
Qed.

Lemma quoted_line_join (ls : list str) :
  Forall (fun l => nl_free l = true) ls ->
  Forall (fun l => EmailParser.is_quoted l = false) ls ->
  quoted_line true (join [NL] ls) = false.
Proof.
  induction ls as [|l ls IH]; [reflexivity|].
  intros Hn Hq. inversion Hn as [|? ? Hl Hn']; inversion Hq as [|? ? Hql Hq']; subst.
  destruct ls as [|l2 ls].
  - simpl. destruct (@quoted_line_line l [] Hl) as [-> _]. exact Hql.
  - change (join [NL] (l :: l2 :: ls)) with (l ++ NL :: join [NL] (l2 :: ls)).
    destruct (@quoted_line_line l (join [NL] (l2 :: ls)) Hl) as [_ ->].
    rewrite Hql. simpl. now apply IH.
Qed.

Lemma kept_lines_unquoted (content : str) :
  quoted_line true
    (join [NL] (filter (fun line => negb (EmailParser.is_quoted line))
                       (split_lines content))) = false.
Proof.
  rewrite split_lines_lines. apply quoted_line_join.
  - pose proof (lines_nl_free content) as H.
    induction H as [|l ls Hl _ IH]; simpl; [constructor|].
    destruct (EmailParser.is_quoted l); simpl; [exact IH|now constructor].
  - induction (lines content) as [|l ls IH]; simpl; [constructor|].
    destruct (EmailParser.is_quoted l) eqn:E; simpl; [exact IH|now constructor].
Qed.

End KeptLines.

Section MarkerProperties.

Variable U : ucd.

Lemma ws_then_nl_mono : monotone ws_then_nl.
Proof.
  intros p t. induction p as [|x p IH]; simpl; [discriminate|].
  destruct (x =? NL)%N; [reflexivity|]. simpl.
  destruct (isspace x); [exact IH|discriminate].
Qed.

Lemma dash_marker_mono : monotone dash_marker.
Proof.
  intros p t. unfold dash_marker.
  destruct p as [|a p]; [discriminate|].
  destruct (N.eq_dec a 45) as [->|Ha].
  - destruct p as [|b p]; [discriminate|].
    destruct (N.eq_dec b 45) as [->|Hb].
    + apply ws_then_nl_mono.
    + simpl. destruct b as [|b]; [discriminate|].
      do 6 (destruct b as [b|b|]; try discriminate); congruence.
  - simpl. destruct a as [|a]; [discriminate|].
    do 6 (destruct a as [a|a|]; try discriminate); congruence.
Qed.

Lemma ci_prefix_mono (w p t r : str) :
  ci_prefix U w p = Some r -> ci_prefix U w (p ++ t) = Some (r ++ t).
Proof.
  revert p. induction w as [|c w IH]; intros p; simpl.
  - now intros [= ->].
  - destruct p as [|x p]; [discriminate|]. simpl.
    destruct (ci_match U c x); [apply IH|discriminate].
Qed.

Lemma starts_ci_mono (w : str) : monotone (starts_ci U w).
Proof.
  intros p t. unfold starts_ci.
  destruct (ci_prefix U w p) as [r|] eqn:E; [|discriminate].
  now rewrite (ci_prefix_mono _ _ t E).
Qed.

Lemma anywhere_prefix (here : str -> bool) (p t : str) :
  monotone here -> anywhere here (p ++ t) = false -> anywhere here p = false.
Proof.
  intros Hm. induction p as [|x p IH]; simpl.
  - intros H. destruct (here []) eqn:E; [|reflexivity].
    apply (Hm [] t) in E. simpl in E.
    destruct t; simpl in H; rewrite E in H; discriminate.
  - intros H. apply orb_false_iff in H as [H1 H2].
    rewrite (IH H2), orb_false_r.
    destruct (here (x :: p)) eqn:E; [|reflexivity].
    apply (Hm (x :: p) t) in E. simpl in E. congruence.
Qed.

Lemma anywhere_suffix (here : str -> bool) (p t : str) :
  anywhere here (p ++ t) = false -> anywhere here t = false.
Proof.
  induction p as [|x p IH]; simpl; [trivial|].
  intros H. apply orb_false_iff in H as [_ H]. now apply IH.
Qed.

Lemma anywhere_strip (here : str -> bool) (s : str) :
  monotone here -> anywhere here s = false -> anywhere here (strip s) = false.
Proof.
  intros Hm H. destruct (strip_middle s) as (a & b & E).
  rewrite E in H. apply anywhere_suffix in H. now apply anywhere_prefix in H.
Qed.

Lemma cut_at_prefix (here : str -> bool) (s : str) :
  exists t, s = cut_at here s ++ t.
Proof. destruct (cut_at_spec here s) as (post & E & _). now exists post. Qed.

Lemma anywhere_cut (here : str -> bool) (s : str) :
  monotone here -> here [] = false -> anywhere here (cut_at here s) = false.
Proof.
  intros Hm H0. induction s as [|x s IH]; simpl.
  - rewrite H0. simpl. now rewrite H0.
  - destruct (here (x :: s)) eqn:E; [simpl; now rewrite H0|].
    simpl. rewrite IH, orb_false_r.
    destruct (here (x :: cut_at here s)) eqn:E'; [|reflexivity].
    destruct (cut_at_prefix here s) as [t Et].
    apply (Hm _ t) in E'. simpl in E'. rewrite <- Et in E'. congruence.
Qed.

Lemma anywhere_cut_other (here other : str -> bool) (s : str) :
  monotone other -> anywhere other s = false ->
  anywhere other (cut_at here s) = false.
Proof.
  intros Hm H. destruct (cut_at_prefix here s) as [t Et].
  rewrite Et in H. now apply anywhere_prefix in H.
Qed.

Lemma cut_at_id (here : str -> bool) (s : str) :
  anywhere here s = false -> cut_at here s = s.
Proof.
  induction s as [|x s IH]; simpl.
  - now destruct (here []).
  - intros H. apply orb_false_iff in H as [-> H]. now rewrite IH.
Qed.

Lemma anywhere_skipn (here : str -> bool) (s : str) :
  anywhere here s = false -> forall i, here (skipn i s) = false.
Proof.
  induction s as [|x s IH]; simpl; intros H i.
  - rewrite orb_false_r in H. now destruct i.
  - apply orb_false_iff in H as [H1 H2].
    destruct i as [|i]; [exact H1|]. simpl. now apply IH.
Qed.

Lemma quoted_line_cut (here : str -> bool) (s : str) :
  quoted_line true s = false -> quoted_line true (cut_at here s) = false.
Proof.
  intros H. destruct (cut_at_prefix here s) as [t Et].
  rewrite Et in H. now apply quoted_line_prefix in H.
Qed.

(** What holds of every cleaned text. *)
Lemma clean_facts (content : str) :
  let out := EmailParser._clean_content U content in
  strip out = out /\
  quoted_line true out = false /\
  anywhere dash_marker out = false /\
  Forall (fun w => anywhere (starts_ci U w) out = false) salutations.
Proof.
  intros out. subst out. unfold EmailParser._clean_content.
  rewrite signature_patterns_cut.
  set (t := join [NL] _).
  assert (Hq : quoted_line true t = false) by apply kept_lines_unquoted.
  clearbody t. split; [apply strip_idem|].
  unfold cut_signatures, salutations. cbn [fold_left].
  split; [|split].
  - apply quoted_line_strip. now do 5 apply quoted_line_cut.
  - apply anywhere_strip; [apply dash_marker_mono|].
    do 4 (apply anywhere_cut_other; [apply dash_marker_mono|]).
    apply anywhere_cut; [apply dash_marker_mono|reflexivity].
  - repeat constructor; (apply anywhere_strip; [apply starts_ci_mono|]).
    + do 3 (apply anywhere_cut_other; [apply starts_ci_mono|]).
      apply anywhere_cut; [apply starts_ci_mono|reflexivity].
    + do 2 (apply anywhere_cut_other; [apply starts_ci_mono|]).
      apply anywhere_cut; [apply starts_ci_mono|reflexivity].
    + do 1 (apply anywhere_cut_other; [apply starts_ci_mono|]).
      apply anywhere_cut; [apply starts_ci_mono|reflexivity].
    + apply anywhere_cut; [apply starts_ci_mono|reflexivity].
Qed.

(** A text without quoted line and without marker is only stripped. *)
Lemma clean_untouched (s : str) :
  quoted_line true s = false ->
  anywhere dash_marker s = false ->
  Forall (fun w => anywhere (starts_ci U w) s = false) salutations ->
  EmailParser._clean_content U s = strip s.
Proof.
  intros Hq Hd Hs. unfold EmailParser._clean_content.
  rewrite signature_patterns_cut, split_lines_lines.
  assert (F : filter (fun line => negb (EmailParser.is_quoted line)) (lines s)
              = lines s).
  { destruct (quoted_line_lines s) as [E _]. rewrite Hq in E.
    induction (lines s) as [|l ls IH]; [reflexivity|].
    simpl in E. apply orb_false_iff in E as [E1 E2].
    simpl. rewrite E1. simpl. now rewrite IH. }
  rewrite F, join_lines. f_equal.
  rewrite Forall_forall in Hs.
  unfold cut_signatures. rewrite (cut_at_id _ _ Hd).
  assert (K : forall ws, (forall w, In w ws -> In w salutations) ->
            fold_left (fun text w => cut_at (starts_ci U w) text) ws s = s).
  { induction ws as [|w ws IH]; intros Hin; [reflexivity|].
    cbn [fold_left]. rewrite cut_at_id.
    - apply IH. intros w' Hw'. apply Hin. now right.
    - apply Hs, Hin. now left. }
  apply K. auto.
Qed.

End MarkerProperties.

Import EmailParser.

(** X16. A cleaned text holds no signature marker and no outer whitespace:
    stripping it again changes nothing, and at no position does it have "--"
    followed by whitespace up to a line break, or one of the four
    salutations in any letter case. *)
Theorem X16_cleaned_text_has_no_marker (U : ucd) (content : str) :
  let out := _clean_content U content in
  strip out = out /\
  forall i,
    dash_marker (skipn i out) = false /\
    forall w, In w salutations -> starts_ci U w (skipn i out) = false.
Proof.
  intros out. destruct (clean_facts U content) as (Hs & _ & Hd & Hw).
  fold out in Hs, Hd, Hw. split; [exact Hs|].
  intros i. split; [now apply anywhere_skipn|].
  intros w Hin. rewrite Forall_forall in Hw. apply anywhere_skipn. now apply Hw.
Qed.

(** X17. No line of a cleaned text is quoted: split at line breaks again,
    none of its lines begins, after leading whitespace, with '>' or '|'. *)
Theorem X17_cleaned_text_has_no_quoted_line (U : ucd) (content : str) :
  Forall (fun line => is_quoted line = false)
         (split_lines (_clean_content U content)).
Proof.
  destruct (clean_facts U content) as (_ & Hq & _).
  apply Forall_forall. intros line Hin. rewrite split_lines_lines in Hin.
  destruct (quoted_line_lines (_clean_content U content)) as [E _].
  rewrite Hq in E.
  destruct (is_quoted line) eqn:El; [|reflexivity].
  assert (X : existsb is_quoted (lines (_clean_content U content)) = true).
  { apply existsb_exists. now exists line. }
  congruence.
Qed.

(** X18. Cleaning is idempotent: cleaning a cleaned text returns it
    unchanged. *)
Theorem X18_clean_content_idempotent (U : ucd) (content : str) :
  _clean_content U (_clean_content U content) = _clean_content U content.
Proof.
  destruct (clean_facts U content) as (Hs & Hq & Hd & Hw).
  rewrite clean_untouched by assumption. exact Hs.
Qed.

(** X19. Cleaning removes nothing but quoted lines, signature blocks and
    outer whitespace: a text in which no line is quoted and which holds
    neither "--" followed by whitespace up to a line break nor a salutation
    is only stripped. *)
Theorem X19_clean_content_only_strips (U : ucd) (content : str) :
  forallb (fun line => negb (is_quoted line)) (split_lines content) = true ->
  anywhere dash_marker content = false ->
  forallb (fun w => negb (anywhere (starts_ci U w) content)) salutations = true ->
  _clean_content U content = strip content.
Proof.
  intros Hq Hd Hw. apply clean_untouched.
  - rewrite split_lines_lines in Hq.
    destruct (quoted_line_lines content) as [<- _].
    induction (lines content) as [|l ls IH]; [reflexivity|].
    simpl in Hq |- *. apply andb_true_iff in Hq as [H1 H2].
    apply negb_true_iff in H1. rewrite H1. now apply IH.
  - exact Hd.
  - rewrite forallb_forall in Hw. apply Forall_forall. intros w Hin.
    apply negb_true_iff. now apply Hw.
Qed.

Lemma X19_clean_content_witness :
  forallb (fun line => negb (is_quoted line)) (split_lines padded_inquiry) = true /\
  anywhere dash_marker padded_inquiry = false /\
  forallb (fun w => negb (anywhere (starts_ci BasicLatin.db w) padded_inquiry))
          salutations = true /\
  _clean_content BasicLatin.db padded_inquiry = strip padded_inquiry.
Proof.
  repeat (split; [reflexivity|]).
  apply (@X19_clean_content_only_strips BasicLatin.db padded_inquiry);
    reflexivity.
Defined.

(* ================================================================== *)
(** * The questions asked about a parsed event *)

Section ParsedQuestions.

Import AcknowledgmentGenerator.

Variable U : ucd.
Hypothesis lower_ascii : lower_fixes_ascii U.

Lemma prefixb_app (n a r : str) :
  prefixb n a = true -> prefixb n (a ++ r) = true.
Proof.
  revert a. induction n as [|x n IH]; intros a; [reflexivity|].
  destruct a as [|y a]; simpl; [discriminate|].
  destruct (N.eqb x y); [apply IH|discriminate].
Qed.

Lemma contains_app (n a r : str) :
  contains n a = true -> contains n (a ++ r) = true.
Proof.
  induction a as [|y a IH].
  - simpl. rewrite orb_false_r. intros H.
    destruct n; [now destruct r|discriminate].
  - intros H. cbn [contains] in H. apply orb_true_iff in H as [H|H].
    + change ((y :: a) ++ r) with (y :: (a ++ r)). cbn [contains].
      change (y :: (a ++ r)) with ((y :: a) ++ r).
      now rewrite (prefixb_app _ _ r H).
    + change ((y :: a) ++ r) with (y :: (a ++ r)). cbn [contains].
      rewrite (IH H). apply orb_true_r.
Qed.

Lemma lower_of_ascii (a : str) :
  forallb is_ascii a = true -> uc_lower U a = map ascii_lower a.
Proof.
  intros Ha. destruct (lower_ascii a [] Ha) as (r & E & Hr).
  rewrite app_nil_r in E. now rewrite E, (Hr eq_refl), app_nil_r.
Qed.

Lemma gap_is_about_quantity (n : str) :
  contains (lit "quantity") (uc_lower U (lit "Missing quantity for " ++ n)) = true.
Proof.
  destruct (lower_ascii (lit "Missing quantity for ") n eq_refl) as (r & -> & _).
  now apply contains_app.
Qed.

Lemma product_gaps_missing (price_list : price_list_t) (ps : list product) :
  Forall (mention_ok price_list) ps ->
  EmailParser.product_gaps ps = map quantity_gap (filter no_quantity ps).
Proof.
  induction 1 as [|p ps Hp _ IH]; [reflexivity|].
  apply mention_ok_confidence in Hp as [_ Hc].
  cbn [EmailParser.product_gaps filter]. rewrite Hc, IH. unfold no_quantity at 2.
  destruct (quantity p); reflexivity.
Qed.

Lemma first_without_quantity_hd (ps : list product) :
  first_without_quantity ps = hd_error (filter no_quantity ps).
Proof.
  unfold first_without_quantity.
  induction ps as [|p ps IH]; [reflexivity|].
  simpl. unfold no_quantity at 1. destruct (quantity p); [exact IH|reflexivity].
Qed.

(** The loop over gaps that all name a missing quantity. *)
Lemma questions_loop_quantity (products : list product) (p : product) :
  first_without_quantity products = Some p ->
  forall ms questions,
    length questions <= 2 ->
    let asked := firstn 2 (questions ++ repeat (question_quantity p) (length ms)) in
    questions_loop U (map quantity_gap ms) products questions (length questions)
      = (asked, length asked).
Proof.
  intros Hp. induction ms as [|m ms IH]; intros questions Hle asked; subst asked.
  - cbn [map questions_loop length repeat].
    rewrite app_nil_r, firstn_all2 by exact Hle. reflexivity.
  - cbn [map questions_loop]. unfold max_questions.
    destruct (Nat.leb_spec 2 (length questions)) as [H2|H2].
    + assert (E : firstn 2 (questions ++
                     repeat (question_quantity p) (length (m :: ms))) = questions).
      { rewrite firstn_app. replace (2 - length questions) with 0 by lia.
        rewrite firstn_all2 by exact Hle. simpl. apply app_nil_r. }
      now rewrite E.
    + unfold quantity_gap at 1. rewrite gap_is_about_quantity, Hp.
      replace (S (length questions))
        with (length (questions ++ [question_quantity p]))
        by (rewrite length_app; simpl; lia).
      rewrite IH by (rewrite length_app; simpl; lia).
      rewrite <- app_assoc. reflexivity.
Qed.

End ParsedQuestions.

Section ParsedQuestionSteps.

Import AcknowledgmentGenerator.

Variable U : ucd.
Hypothesis lower_ascii : lower_fixes_ascii U.

Lemma questions_loop_sender (gaps : list str) (products : list product) :
  questions_loop U (lit "Unclear sender information" :: gaps) products [] 0 =
  questions_loop U gaps products [question_contact] 1.
Proof.
  cbn [questions_loop].
  rewrite (lower_of_ascii lower_ascii (lit "Unclear sender information") eq_refl).
  reflexivity.
Qed.

Lemma questions_loop_no_products (products : list product)
    (questions : list str) (question_count : nat) :
  questions_loop U [lit "No products identified"] products questions question_count
    = (questions, question_count).
Proof.
  cbn [questions_loop].
  rewrite (lower_of_ascii lower_ascii (lit "No products identified") eq_refl).
  destruct (max_questions <=? question_count); reflexivity.
Qed.

End ParsedQuestionSteps.

Lemma basic_latin_lower_fixes_ascii : lower_fixes_ascii BasicLatin.db.
Proof.
  intros a b Ha. exists (uc_lower BasicLatin.db b). split; [|now intros ->].
  change (uc_lower BasicLatin.db) with (flat_map BasicLatin.lower1).
  rewrite flat_map_app. f_equal.
  induction a as [|c a IH]; [reflexivity|].
  simpl in Ha. apply andb_true_iff in Ha as [Hc Ha].
  simpl. rewrite (IH Ha). unfold BasicLatin.lower1, ascii_lower.
  destruct (is_upper c); [reflexivity|].
  unfold is_ascii in Hc. apply N.ltb_lt in Hc.
  destruct (N.eqb_spec c 304); [lia|].
  destruct (N.eqb_spec c 8490); [lia|]. reflexivity.
Qed.

Import AcknowledgmentGenerator.

(** X20. The questions put to the sender of a parsed e-mail, when
    [str.lower] lowercases ASCII text character by character.  They are the
    first two of: the request to confirm the contact information, when the
    sender is unclear, followed by one quantity question for each product
    without a quantity, every one of them naming the first such product, so
    that with two products lacking a quantity the same question is asked
    twice and the second product is never asked about.  When that gives no
    question, the delivery question is asked, after the question what
    products are wanted when none was found. *)
Theorem X20_questions_of_a_parsed_event (U : ucd) (price_list : price_list_t)
    (extract_sender : str -> sender_t) (now : Z) (content email_id : str) :
  lower_fixes_ascii U ->
  exists e,
    parse_email U price_list extract_sender now content email_id = Some e /\
    let missing := filter no_quantity (products e) in
    let asked :=
      (if F64.ltb (sender_confidence (sender e)) c0_7
       then [question_contact] else []) ++
      match missing with
      | [] => []
      | p :: _ => repeat (question_quantity p) (length missing)
      end in
    _generate_questions U (gaps e) (products e) =
      match asked with
      | [] => match products e with
              | [] => [question_products; question_delivery]
              | _ :: _ => [question_delivery]
              end
      | _ :: _ => firstn 2 asked
      end.
Proof.
  intros Hl. unfold parse_email.
  destruct (extract_products_total U price_list (_clean_content U content))
    as (ps & -> & Hok).
  cbn [bind]. eexists. split; [reflexivity|].
  cbn [gaps products sender].
  set (s := extract_sender _). clearbody s.
  unfold _identify_gaps, _generate_questions.
  destruct ps as [|p0 ps].
  - cbn [filter length app].
    destruct (F64.ltb (sender_confidence s) c0_7); cbn [app].
    + rewrite (questions_loop_sender Hl), (questions_loop_no_products Hl).
      reflexivity.
    + rewrite (questions_loop_no_products Hl). reflexivity.
  - rewrite (product_gaps_missing Hok).
    pose proof (first_without_quantity_hd (p0 :: ps)) as Hf.
    set (products := p0 :: ps) in *.
    destruct (filter no_quantity products) as [|p ms] eqn:Em.
    + destruct (F64.ltb (sender_confidence s) c0_7); cbn [app map].
      * rewrite (questions_loop_sender Hl). reflexivity.
      * cbn [questions_loop]. subst products. reflexivity.
    + cbn [hd_error] in Hf.
      destruct (F64.ltb (sender_confidence s) c0_7); cbn [app].
      * rewrite (questions_loop_sender Hl).
        change 1 with (length [question_contact]).
        rewrite (questions_loop_quantity Hl _ Hf (p :: ms) [question_contact])
          by (simpl; lia).
        cbn [length repeat app firstn]. reflexivity.
      * change 0 with (@length str []) at 1.
        rewrite (questions_loop_quantity Hl _ Hf (p :: ms) []) by (simpl; lia).
        cbn [length repeat app firstn].
        destruct (repeat (question_quantity p) (length ms)); reflexivity.
Qed.

Lemma X20_questions_witness :
  lower_fixes_ascii BasicLatin.db /\
  exists e,
    parse_email BasicLatin.db fixture_price_list (_extract_sender BasicLatin.db)
      0%Z two_products_inquiry (lit "id")
      = Some e /\
    _generate_questions BasicLatin.db (gaps e) (products e) =
      [lit "What quantity of Widget Pro do you need?";
       lit "What quantity of Widget Pro do you need?"].
Proof.
  split; [exact basic_latin_lower_fixes_ascii|].
  destruct (@X20_questions_of_a_parsed_event BasicLatin.db fixture_price_list
              (_extract_sender BasicLatin.db) 0%Z
              two_products_inquiry (lit "id")
              basic_latin_lower_fixes_ascii) as (e & He & Hq).
  exists e. split; [exact He|].
  rewrite Hq. vm_compute in He. injection He as <-. vm_compute. reflexivity.
Defined.

(* ================================================================== *)
(** * Properties of the currency extraction *)

Section CurrencyProperties.

Import Re EmailParser.

Variable U : ucd.

(** One attempt of the currency pattern: the first code of the list that
    stands here as a whole word. *)
Lemma match_at_currency (b : bool) (p : option char) (s : str) (n : nat) :
  match_at U currency_pattern b p s n =
    match find (fun w => word_here U p s w) currency_codes with
    | Some w =>
        Some {| m_start := n;
                m_end := n + length w;
                m_group := Some (n, n + length w) |}
    | None => None
    end.
Proof.
  unfold match_at, currency_pattern, currency_codes, word_here, boundary.
  cbn [run find]. unfold at_boundary. cbn [prev rest pos grp mk].
  destruct (xorb (isword_opt U p) (isword_opt U (hd_error s))); [|reflexivity].
  cbn [andb].
  rewrite !run_Lits. cbn [prev rest pos grp mk].
  repeat
    match goal with
    | |- context [ci_prefix U ?w s] =>
        destruct (ci_prefix U w s);
        [ match goal with
          | |- context [xorb ?x ?y] => destruct (xorb x y)
          end
        | ]
    end;
    rewrite ?advance_check by (simpl; lia); reflexivity.
Qed.

(** The first match of the scan is the first code in text order. *)
Lemma currency_scan (t : str) :
  forall s p n, skipn n t = s ->
    hd_error (map (group1 t) (scan U currency_pattern p s n 0)) =
    first_code U p s.
Proof.
  induction s as [|x s IH]; intros p n Hs.
  - cbn [scan first_code]. rewrite match_at_currency.
    destruct (find _ currency_codes) as [w|] eqn:Hf; [|reflexivity].
    apply find_some in Hf as [Hin Hw]. exfalso.
    unfold word_here in Hw. apply andb_prop in Hw as [_ Hw].
    simpl in Hin.
    repeat (destruct Hin as [<-|Hin]; [simpl in Hw; discriminate|]).
    contradiction.
  - cbn [scan first_code]. rewrite match_at_currency.
    destruct (find _ currency_codes) as [w|] eqn:Hf.
    + cbn [m_end m_start].
      assert (Hg : forall m, m_group m = Some (n, n + length w) ->
                             group1 t m = firstn (length w) (x :: s)).
      { intros m Hm. unfold group1, slice. rewrite Hm, Hs.
        now replace (n + length w - n) with (length w) by lia. }
      destruct (n + length w =? n); cbn [map hd_error];
        now rewrite Hg by reflexivity.
    + apply IH. now apply skipn_cons_S with x.
Qed.

Lemma extract_currency_first_code (content : str) :
  _extract_currency U content =
    option_map (uc_upper U) (first_code U None content).
Proof.
  unfold _extract_currency, findall, finditer.
  change (has_group currency_pattern) with true. cbn iota.
  pose proof (@currency_scan content content None 0 eq_refl) as E.
  rewrite <- E. now destruct (map _ _).
Qed.

Lemma ci_match_ascii_upper (c x : char) :
  is_upper c = true -> is_ascii x = true -> ci_match U c x = true ->
  ascii_upper x = c.
Proof.
  unfold ci_match, ascii_ci, ascii_upper, is_ascii, is_upper, is_lower.
  intros Hc Hx H.
  apply andb_prop in Hc as [Hc1 Hc2].
  apply N.leb_le in Hc1. apply N.leb_le in Hc2. apply N.ltb_lt in Hx.
  destruct (N.ltb_spec c 128) as [_|Hge]; [|lia].
  destruct (N.leb_spec 65 c) as [_|Hlt]; [|lia].
  destruct (N.leb_spec c 90) as [_|Hgt]; [|lia]. cbn [andb] in H.
  destruct (N.leb_spec 97 (c + 32)) as [_|Hlt]; [|lia].
  destruct (N.leb_spec (c + 32) 122) as [_|Hgt]; [|lia]. cbn [andb] in H.
  destruct (N.eqb_spec x (c + 32)) as [->|N1].
  { destruct (N.leb_spec 97 (c + 32)) as [_|Hlt]; [|lia].
    destruct (N.leb_spec (c + 32) 122) as [_|Hgt]; [|lia]. simpl. lia. }
  destruct (N.eqb_spec x (c + 32 - 32)) as [->|N2].
  { destruct (N.leb_spec 97 (c + 32 - 32)) as [Hge|_]; [lia|]. simpl. lia. }
  destruct (N.eqb_spec x 304) as [->|_]; [lia|].
  destruct (N.eqb_spec x 305) as [->|_]; [lia|].
  destruct (N.eqb_spec x 8490) as [->|_]; [lia|].
  destruct (N.eqb_spec x 383) as [->|_]; [lia|].
  simpl in H. rewrite !andb_false_r in H. discriminate.
Qed.

Lemma ci_prefix_ascii_upper (w : str) :
  forall s s',
    forallb is_upper w = true -> forallb is_ascii s = true ->
    ci_prefix U w s = Some s' ->
    map ascii_upper (firstn (length w) s) = w /\
    forallb is_ascii (firstn (length w) s) = true.
Proof.
  induction w as [|c w IH]; intros s s' Hw Hs H; [now split|].
  simpl in *. destruct s as [|x s]; [discriminate|].
  apply andb_prop in Hw as [Hc Hw]. simpl in Hs. apply andb_prop in Hs as [Hx Hs].
  destruct (ci_match U c x) eqn:Hm; [|discriminate].
  destruct (IH s s' Hw Hs H) as [E1 E2].
  simpl. rewrite (@ci_match_ascii_upper c x Hc Hx Hm), E1, Hx, E2. now split.
Qed.

Lemma first_code_ascii (s : str) :
  forall p m,
    forallb is_ascii s = true -> first_code U p s = Some m ->
    In (map ascii_upper m) currency_codes /\ forallb is_ascii m = true.
Proof.
  induction s as [|x s IH]; intros p m Hs; cbn [first_code];
    destruct (find _ currency_codes) as [w|] eqn:Hf; try discriminate.
  - intros [= <-]. apply find_some in Hf as [Hin Hw].
    unfold word_here in Hw. apply andb_prop in Hw as [_ Hw].
    simpl in Hin.
    repeat (destruct Hin as [<-|Hin]; [simpl in Hw; discriminate|]).
    contradiction.
  - intros [= <-]. apply find_some in Hf as [Hin Hw].
    unfold word_here in Hw. apply andb_prop in Hw as [_ Hw].
    destruct (ci_prefix U w (x :: s)) as [s'|] eqn:Hp; [|discriminate].
    assert (Hu : forallb is_upper w = true).
    { simpl in Hin.
      repeat (destruct Hin as [<-|Hin]; [reflexivity|]). contradiction. }
    destruct (@ci_prefix_ascii_upper w (x :: s) s' Hu Hs Hp) as [E1 E2].
    rewrite E1. now split.
  - simpl in Hs. apply andb_prop in Hs as [_ Hs]. now apply IH.
Qed.

End CurrencyProperties.

Import EmailParser.

(** X21. The currency of a text is the uppercased spelling of the first
    place, in text order, at which one of USD, EUR, GBP, CAD, AUD, JPY stands
    as a whole word, letter case aside; it is absent when there is no such
    place.  The order of the codes in the pattern plays no part. *)
Theorem X21_currency_is_first_code (U : ucd) (content : str) :
  _extract_currency U content =
    option_map (uc_upper U) (first_code U None content).
Proof. apply extract_currency_first_code. Qed.

(** X22. On an ASCII text, with [str.upper] mapping ASCII text character by
    character, the currency is absent or one of the six codes, in upper
    case. *)
Theorem X22_currency_of_ascii_text (U : ucd) (content : str) :
  upper_fixes_ascii U ->
  forallb is_ascii content = true ->
  _extract_currency U content = None \/
  exists w, In w currency_codes /\ _extract_currency U content = Some w.
Proof.
  intros Hu Hc. rewrite extract_currency_first_code.
  destruct (first_code U None content) as [m|] eqn:E; [right|now left].
  destruct (@first_code_ascii U content None m Hc E) as [Hin Ha].
  exists (map ascii_upper m). split; [exact Hin|].
  simpl. now rewrite (Hu m Ha).
Qed.

Lemma basic_latin_upper_fixes_ascii : upper_fixes_ascii BasicLatin.db.
Proof.
  intros a Ha. change (uc_upper BasicLatin.db) with (flat_map BasicLatin.upper1).
  induction a as [|c a IH]; [reflexivity|].
  simpl in Ha. apply andb_true_iff in Ha as [Hc Ha].
  simpl. rewrite (IH Ha). unfold BasicLatin.upper1, ascii_upper.
  destruct (is_lower c); [reflexivity|].
  unfold is_ascii in Hc. apply N.ltb_lt in Hc.
  destruct (N.eqb_spec c 305); [lia|].
  destruct (N.eqb_spec c 383); [lia|]. reflexivity.
Qed.

Lemma X22_currency_witness :
  upper_fixes_ascii BasicLatin.db /\
  forallb is_ascii two_currencies_inquiry = true /\
  (_extract_currency BasicLatin.db two_currencies_inquiry = None \/
   exists w, In w currency_codes /\
     _extract_currency BasicLatin.db two_currencies_inquiry = Some w).
Proof.
  split; [exact basic_latin_upper_fixes_ascii|]. split; [reflexivity|].
  apply (@X22_currency_of_ascii_text BasicLatin.db two_currencies_inquiry);
    [exact basic_latin_upper_fixes_ascii|reflexivity].
Defined.

(* ================================================================== *)
(** * Further tests of the repository *)

Section RepositoryTestsFurther.

Import EmailParser QuoteGenerator.

(** [test_parse_complete_email]: the sender and the gaps *)
Example test_parse_complete_email_sender :
  let content := lit "
        From: John Smith <john@example.com>
        
        Hi, I need 10 Widget Pro pieces for our project.
        Please quote in USD.
        " in
  match parse_email BasicLatin.db fixture_price_list
          (_extract_sender BasicLatin.db) 0%Z content (lit "test123") with
  | Some e =>
      sender_name (sender e) = lit "John Smith" /\
      sender_email (sender e) = lit "john@example.com" /\
      gaps e = []
  | None => False
  end.
Proof. vm_compute. repeat split. Qed.

Example test_parse_email_with_no_sender_info :
  let content := lit "
        Need 2 Tool Kit for our project.
        " in
  match parse_email BasicLatin.db fixture_price_list
          (_extract_sender BasicLatin.db) 0%Z content (lit "test707") with
  | Some e =>
      sender_name (sender e) = lit "Unknown" /\
      F64.ltb (sender_confidence (sender e)) (F64.dec 7 1) = true /\
      In (lit "Unclear sender information") (gaps e)
  | None => False
  end.
Proof. vm_compute. repeat split. now left. Qed.

Example test_parse_email_with_different_currency :
  let content := lit "
        From: Grace Lee <grace@example.com>
        
        Need 5 Gadget Basic. Please quote in EUR.
        " in
  _extract_currency BasicLatin.db (_clean_content BasicLatin.db content)
    = Some (lit "EUR").
Proof. vm_compute. reflexivity. Qed.

Example test_validate_quote_complete :
  validate_quote
    {| qd_email_id := Some (lit "test808");
       qd_timestamp := Some 0%Z;
       qd_status := Some (lit "complete");
       qd_line_items := Some [ {| it_total := Some (F64.dec 25000 2) |} ];
       qd_subtotal := Some (F64.dec 25000 2);
       qd_discount := Some (F64.dec 1250 2);
       qd_tax := Some (F64.dec 2256 2);
       qd_total := Some (F64.dec 26006 2);
       qd_currency := Some (Some (lit "USD"));
       qd_pending_reasons := Some [];
       qd_valid_until := Some 0%Z |} = [].
Proof. vm_compute. reflexivity. Qed.

Example test_validate_quote_pending :
  validate_quote
    {| qd_email_id := Some (lit "test909");
       qd_timestamp := Some 0%Z;
       qd_status := Some (lit "pending");
       qd_line_items := Some [];
       qd_subtotal := Some F64.zero;
       qd_discount := Some F64.zero;
       qd_tax := Some F64.zero;
       qd_total := Some F64.zero;
       qd_currency := Some (Some (lit "USD"));
       qd_pending_reasons := Some [lit "Missing quantity for Widget Pro"];
       qd_valid_until := Some 0%Z |} = [].
Proof. vm_compute. reflexivity. Qed.

Example test_validate_quote_invalid :
  validate_quote
    {| qd_email_id := Some (lit "test1010");
       qd_timestamp := None;
       qd_status := Some (lit "complete");
       qd_line_items := None;
       qd_subtotal := None;
       qd_discount := None;
       qd_tax := None;
       qd_total := Some F64.zero;
       qd_currency := None;
       qd_pending_reasons := None;
       qd_valid_until := None |} =
  [ lit "Missing required field: timestamp";
    lit "Missing required field: line_items";
    lit "Missing required field: subtotal";
    lit "Missing required field: discount";
    lit "Missing required field: tax";
    lit "Missing required field: currency";
    lit "Missing required field: pending_reasons";
    lit "Missing required field: valid_until";
    lit "Complete quote must have line items";
    lit "Complete quote must have positive total" ].
Proof. vm_compute. reflexivity. Qed.

End RepositoryTestsFurther.
